(** * Tribes: the contract-backed entity synchronisation layer

    A shallow embedding of the read and write helpers of the Tribes
    front end (eventController, postMinter, tribeController and the
    profile context) together with the properties stated about them.

    Conventions of the embedding.
    - A JavaScript string is the list of its UTF-16 code units.
    - An awaited promise is the outcome it settles to: [Ok v] when it
      fulfils with [v], [Throw e] when it rejects with [e].  A
      [try { .. } catch (error) { .. }] block is [try_catch].
    - A contract handle is the record of its methods; a method is the
      function from its arguments to the outcome of the call.
    - [console.log], [console.warn] and [console.error] have no effect on
      the values computed and are left out. *)

From Stdlib Require Import ZArith NArith List String Ascii Bool Lia.
From Stdlib Require Import Permutation Sorted.
Import ListNotations.

(* ================================================================== *)
(** * JavaScript values, strings and outcomes *)
(* ================================================================== *)

Module Js.

(** A UTF-16 code unit and a JavaScript string. *)
Definition code_unit := N.
Definition jstring := list code_unit.

(** A string literal of the source, as code units. *)
Definition js (s : string) : jstring :=
  map N_of_ascii (list_ascii_of_string s).

(** [a === b] on strings. *)
Fixpoint jstring_eqb (a b : jstring) : bool :=
  match a, b with
  | [], [] => true
  | x :: a', y :: b' => N.eqb x y && jstring_eqb a' b'
  | _, _ => false
  end.

(** Every code unit of a JavaScript string is below 2^16. *)
Definition well_formed (s : jstring) : Prop :=
  Forall (fun c => (c < 65536)%N) s.

(** [String.prototype.toLowerCase] on the letters A-Z.  The case
    mappings of characters outside ASCII are not modelled: the strings
    compared this way in the source are hexadecimal addresses. *)
Definition lower_unit (c : code_unit) : code_unit :=
  if (65 <=? c)%N && (c <=? 90)%N then (c + 32)%N else c.

Definition toLowerCase (s : jstring) : jstring := map lower_unit s.

(** Decimal digits, most significant first. *)
Fixpoint uint_units (d : Decimal.uint) : jstring :=
  match d with
  | Decimal.Nil => []
  | Decimal.D0 d => 48%N :: uint_units d
  | Decimal.D1 d => 49%N :: uint_units d
  | Decimal.D2 d => 50%N :: uint_units d
  | Decimal.D3 d => 51%N :: uint_units d
  | Decimal.D4 d => 52%N :: uint_units d
  | Decimal.D5 d => 53%N :: uint_units d
  | Decimal.D6 d => 54%N :: uint_units d
  | Decimal.D7 d => 55%N :: uint_units d
  | Decimal.D8 d => 56%N :: uint_units d
  | Decimal.D9 d => 57%N :: uint_units d
  end.

(** [n.toString()] of an integer-valued number and of a bigint: the
    decimal numeral, with a minus sign when negative.  (A number of
    1e21 or more prints in exponent form; loop counters stay far
    below.) *)
Definition toString (z : Z) : jstring :=
  match z with
  | Z0 => [48%N]
  | Zpos p => uint_units (Pos.to_uint p)
  | Zneg p => 45%N :: uint_units (Pos.to_uint p)
  end.

(** [Number(b)] of a bigint [b]: the double precision value nearest to
    [b], a tie going to the even significand.  An integer of magnitude
    below 2^53 is its own double; a larger one keeps its 53 leading
    bits, rounded on the bits dropped.  The bigints the source converts
    are decoded from the contract as 256-bit integers, whose doubles
    are finite; a magnitude from 2^1024 - 2^970 on gives an infinity in
    JavaScript, which the integers do not hold, and stays the rounded
    integer here. *)
Definition Number (b : Z) : Z :=
  (let a := Z.abs b in
   if a <? 2 ^ 53 then b
   else
     let e := Z.log2 a - 52 in                (* the bits dropped *)
     let q := a / 2 ^ e in                    (* the 53 leading bits *)
     let r := a mod 2 ^ e in
     let half := 2 ^ (e - 1) in
     let rounded :=
       if r <? half then q
       else if half <? r then q + 1
       else if Z.even q then q else q + 1 in
     Z.sgn b * (rounded * 2 ^ e))%Z.

(** A number that may be [NaN] (a time value, [Number(undefined)]). *)
Inductive JsNumber : Type :=
| Int (z : Z)
| NaN.

(** The values thrown. *)
Inductive JsError : Type :=
| TransportError (reason : string)
| TypeError (reason : string)
| SyntaxError (reason : string).

(** The outcome of an expression that may throw, and of an awaited
    promise. *)
Inductive result (A : Type) : Type :=
| Ok (a : A)
| Throw (e : JsError).

Arguments Ok {A} a.
Arguments Throw {A} e.

Definition bind {A B : Type} (r : result A) (k : A -> result B) : result B :=
  match r with
  | Ok a => k a
  | Throw e => Throw e
  end.

(** [try { body } catch (error) { handler(error) }]. *)
Definition try_catch {A : Type} (body : result A) (handler : JsError -> result A)
  : result A :=
  match body with
  | Ok a => Ok a
  | Throw e => handler e
  end.

(** [await Promise.all(promises)]: the values in order, or a rejection
    when one of the promises rejects.  The rejection reported here is
    the one standing first in the list; which one settles first in
    time is not modelled. *)
Fixpoint Promise_all {A : Type} (promises : list (result A)) : result (list A) :=
  match promises with
  | [] => Ok []
  | p :: rest =>
    match p with
    | Throw e => Throw e
    | Ok a =>
      match Promise_all rest with
      | Ok l => Ok (a :: l)
      | Throw e => Throw e
      end
    end
  end.

End Js.

Import Js.

Declare Scope js_scope.
Delimit Scope js_scope with js.
Notation "x <- c ;; k" := (bind c (fun x => k))
  (at level 61, c at next level, right associativity) : js_scope.
Local Open Scope js_scope.
Local Open Scope Z_scope.

(* ================================================================== *)
(** * utils/ethereum and the ethers types *)
(* ================================================================== *)

Module Ethereum.

(** Modelled from the spec: [safeContractCall] of utils/ethereum is not
    among the sources.  It is the ledger gateway of the specification
    (section 4.1): the call of a named method of a contract with
    positional arguments, which yields the decoded result or fails.
    The gateway does not retry and adds no failure of its own, so the
    outcome of the call is the outcome of the method. *)
Definition safeContractCall {T : Type} (method_call : result T) : result T :=
  method_call.

(** What [abi.parseLog] decodes a log to: the event's name and its
    positional arguments. *)
Record LogDescription : Type := mkLogDescription {
  name : jstring;
  args : list Z
}.

(** A log of a receipt, by what [abi.parseLog] makes of it. *)
Inductive Log : Type :=
| UnparsableLog (e : JsError)           (* parseLog throws *)
| ForeignLog                            (* parseLog returns null *)
| AbiLog (parsed : LogDescription).     (* parseLog decodes the log *)

Record TransactionReceipt : Type := mkReceipt {
  logs : list Log
}.

(** A submitted transaction: [wait] is the outcome of
    [await tx.wait()]. *)
Record TransactionResponse : Type := mkTransaction {
  hash : jstring;
  wait : result TransactionReceipt
}.

(** [ethers.ZeroAddress]. *)
Definition ZeroAddress : jstring :=
  js "0x0000000000000000000000000000000000000000".

(** [ethers.formatEther] of the ethers library: a wei amount as a
    decimal ether string, 18 fractional digits with the trailing zeros
    dropped but one. *)
Fixpoint zeros (n : nat) : jstring :=
  match n with
  | O => []
  | S n' => 48%N :: zeros n'
  end.

Fixpoint strip_zeros_rev (r : jstring) : jstring :=
  match r with
  | c :: (_ :: _) as r' => if N.eqb c 48 then strip_zeros_rev r' else r
  | _ => r
  end.

Definition formatEther (wei : Z) : jstring :=
  let digits := toString (Z.abs wei) in
  let padded := zeros (19 - List.length digits) ++ digits in
  let whole := firstn (List.length padded - 18) padded in
  let frac := skipn (List.length padded - 18) padded in
  (if wei <? 0 then [45%N] else [])
    ++ whole ++ 46%N :: rev (strip_zeros_rev (rev frac)).

End Ethereum.

Import Ethereum.

(* ================================================================== *)
(** * The contracts behind a provider *)
(* ================================================================== *)

Module Ledger.

(** The tuple a call of [events(id)] of the EventController decodes
    to: [[string, string, bigint, bigint, bigint, boolean]]. *)
Record RawEvent : Type := mkRawEvent {
  raw_metadataURI : jstring;   (* eventData[0] *)
  raw_organizer : jstring;     (* eventData[1] *)
  raw_maxTickets : Z;          (* eventData[2] *)
  raw_ticketsSold : Z;         (* eventData[3] *)
  raw_price : Z;               (* eventData[4] *)
  raw_active : bool            (* eventData[5] *)
}.

(** The methods of the EventController contract the source calls.
    [ec_createEvent] stands for the signed call with
    [ethers.parseEther(price)] and the gas limit applied; a price that
    does not parse is one of its failures. *)
Record EventControllerContract : Type := mkEventController {
  ec_events : jstring -> result RawEvent;
  ec_createEvent : jstring -> Z -> jstring -> result TransactionResponse;
  ec_balanceOf : jstring -> jstring -> result Z
}.

(** What [getPost(postId)] of the PostMinter decodes to. *)
Record RawPost : Type := mkRawPost {
  raw_creator : jstring;
  raw_tribeId : Z;
  raw_metadata : jstring;
  raw_isGated : bool;
  raw_collectibleContract : jstring;
  raw_collectibleId : Z;
  raw_isEncrypted : bool;
  raw_accessSigner : jstring
}.

(** What [getPostsByTribe(tribeId, offset, limit)] decodes to. *)
Record RawPostPage : Type := mkRawPostPage {
  raw_postIds : list Z;
  raw_total : Z
}.

Record PostMinterContract : Type := mkPostMinter {
  pm_getPostsByTribe : jstring -> Z -> Z -> result RawPostPage;
  pm_getPost : jstring -> result RawPost;
  pm_createPost :
    jstring -> jstring -> bool -> jstring -> Z -> result TransactionResponse
}.

(** What [getTribeDetails(tribeId)] of the TribeController decodes to. *)
Record RawTribe : Type := mkRawTribe {
  raw_name : jstring;
  raw_tribe_metadata : jstring;
  raw_joinType : Z;
  raw_entryFee : Z;
  raw_memberCount : Z;
  raw_canMerge : bool;
  raw_admin : jstring;
  raw_isActive : bool
}.

Record TribeControllerContract : Type := mkTribeController {
  tc_nextTribeId : result Z;
  tc_getTribeDetails : jstring -> result RawTribe;
  tc_isMember : jstring -> jstring -> result bool
}.

(** The ProfileNFTMinter: [getProfileByTokenId] decodes to
    [[username, metadata, owner]]. *)
Record ProfileNFTMinterContract : Type := mkProfileNFTMinter {
  pn_balanceOf : jstring -> result Z;
  pn_ownerOf : Z -> result jstring;
  pn_getProfileByTokenId : Z -> result (jstring * jstring * jstring);
  pn_usernameExists : jstring -> result bool
}.

(** A provider.  [new ethers.Contract(addresses.X, ABI, provider)] with
    [addresses = getContractAddresses(chainId)] (constants/contracts,
    not among the sources) gives the contract of a chain, or throws
    when the chain has no address table. *)
Record Provider : Type := mkProvider {
  EVENT_CONTROLLER : Z -> result EventControllerContract;
  POST_MINTER : Z -> result PostMinterContract;
  TRIBE_CONTROLLER : Z -> result TribeControllerContract;
  PROFILE_NFT_MINTER : Z -> result ProfileNFTMinterContract
}.

(** A signer with the provider it is connected to; a contract
    connected to the signer has the methods of the provider's. *)
Record Signer : Type := mkSigner {
  signer_provider : Provider;
  getAddress : result jstring
}.

End Ledger.

Import Ledger.

(* ================================================================== *)
(** * JSON.stringify and JSON.parse *)
(* ================================================================== *)

Module JSON.

Local Open Scope N_scope.

(** A JSON value.  A number is kept as the text of its literal:
    [JSON.stringify] prints the literal back, which agrees with
    JavaScript on literals in the form [Number::toString] prints;
    the double precision value of a literal is not modelled.  The
    members of an object stand in source order; a key that occurs
    twice keeps, as in JavaScript, its last value (see [get]). *)
Unset Elimination Schemes.
Inductive json : Type :=
| JNull
| JBool (b : bool)
| JNumber (literal : jstring)
| JString (s : jstring)
| JArray (elements : list json)
| JObject (members : list (jstring * json)).
Set Elimination Schemes.

(** ** QuoteJSONString *)

Definition hex_digit (n : N) : code_unit :=
  if n <? 10 then 48 + n else 87 + n.

(** [\uXXXX] with lower case hexadecimal digits. *)
Definition unicode_escape (c : code_unit) : jstring :=
  [92; 117; hex_digit (c / 4096); hex_digit ((c / 256) mod 16);
   hex_digit ((c / 16) mod 16); hex_digit (c mod 16)].

Definition is_high_surrogate (c : code_unit) : bool :=
  (55296 <=? c) && (c <=? 56319).

Definition is_low_surrogate (c : code_unit) : bool :=
  (56320 <=? c) && (c <=? 57343).

(** One code unit that is not the first half of a surrogate pair. *)
Definition escape_unit (c : code_unit) : jstring :=
  if c =? 8 then [92; 98]
  else if c =? 9 then [92; 116]
  else if c =? 10 then [92; 110]
  else if c =? 12 then [92; 102]
  else if c =? 13 then [92; 114]
  else if c =? 34 then [92; 34]
  else if c =? 92 then [92; 92]
  else if (c <? 32) || is_low_surrogate c || is_high_surrogate c
       then unicode_escape c
  else [c].

(** The characters between the quotes: a surrogate pair is copied, a
    lone surrogate and a control character are escaped. *)
Fixpoint quote_units (s : jstring) : jstring :=
  match s with
  | [] => []
  | c :: rest =>
    if is_high_surrogate c then
      match rest with
      | d :: rest' =>
        if is_low_surrogate d
        then c :: d :: quote_units rest'
        else unicode_escape c ++ quote_units rest
      | [] => unicode_escape c
      end
    else escape_unit c ++ quote_units rest
  end.

Definition quote (s : jstring) : jstring := 34 :: quote_units s ++ [34].

(** ** JSON.stringify, without indentation *)

Fixpoint JSON_stringify (v : json) : jstring :=
  match v with
  | JNull => js "null"
  | JBool true => js "true"
  | JBool false => js "false"
  | JNumber literal => literal
  | JString s => quote s
  | JArray elements =>
    91 :: (fix items (l : list json) : jstring :=
             match l with
             | [] => []
             | x :: rest =>
               JSON_stringify x ++
               match rest with
               | [] => []
               | _ :: _ => 44 :: items rest
               end
             end) elements ++ [93]
  | JObject members =>
    123 :: (fix items (l : list (jstring * json)) : jstring :=
              match l with
              | [] => []
              | (key, x) :: rest =>
                quote key ++ 58 :: JSON_stringify x ++
                match rest with
                | [] => []
                | _ :: _ => 44 :: items rest
                end
              end) members ++ [125]
  end.

(** The text between the braces of an object, as the inner loop of
    [JSON_stringify] writes it. *)
Fixpoint members_text (members : list (jstring * json)) : jstring :=
  match members with
  | [] => []
  | (key, x) :: rest =>
    quote key ++ 58 :: JSON_stringify x ++
    match rest with
    | [] => []
    | _ :: _ => 44 :: members_text rest
    end
  end.

(** The members of an object all of whose values are strings. *)
Definition string_members (fields : list (jstring * jstring))
  : list (jstring * json) :=
  map (fun field => (fst field, JString (snd field))) fields.

(** ** JSON.parse *)

Definition is_ws (c : code_unit) : bool :=
  (c =? 32) || (c =? 9) || (c =? 10) || (c =? 13).

Fixpoint skip_ws (input : jstring) : jstring :=
  match input with
  | c :: rest => if is_ws c then skip_ws rest else input
  | [] => []
  end.

Definition hex_value (c : code_unit) : option N :=
  if (48 <=? c) && (c <=? 57) then Some (c - 48)
  else if (97 <=? c) && (c <=? 102) then Some (c - 87)
  else if (65 <=? c) && (c <=? 70) then Some (c - 55)
  else None.

(** The character a two-character escape stands for. *)
Definition unescape (e : code_unit) : option code_unit :=
  if e =? 34 then Some 34
  else if e =? 92 then Some 92
  else if e =? 47 then Some 47
  else if e =? 98 then Some 8
  else if e =? 102 then Some 12
  else if e =? 110 then Some 10
  else if e =? 114 then Some 13
  else if e =? 116 then Some 9
  else None.

(** A string after its opening quote: its code units and the input
    after the closing quote. *)
Fixpoint parse_string_body (input : jstring) : option (jstring * jstring) :=
  match input with
  | [] => None
  | c :: rest =>
    if c =? 34 then Some ([], rest)
    else if c =? 92 then
      match rest with
      | [] => None
      | e :: rest1 =>
        if e =? 117 then
          match rest1 with
          | h1 :: h2 :: h3 :: h4 :: rest2 =>
            match hex_value h1, hex_value h2, hex_value h3, hex_value h4 with
            | Some d3, Some d2, Some d1, Some d0 =>
              match parse_string_body rest2 with
              | Some (s, out) =>
                Some ((d3 * 4096 + d2 * 256 + d1 * 16 + d0) :: s, out)
              | None => None
              end
            | _, _, _, _ => None
            end
          | _ => None
          end
        else
          match unescape e with
          | Some u =>
            match parse_string_body rest1 with
            | Some (s, out) => Some (u :: s, out)
            | None => None
            end
          | None => None
          end
      end
    else if c <? 32 then None
    else
      match parse_string_body rest with
      | Some (s, out) => Some (c :: s, out)
      | None => None
      end
  end.

Definition is_digit (c : code_unit) : bool := (48 <=? c) && (c <=? 57).

(** The longest prefix of digits and what follows it. *)
Fixpoint span_digits (input : jstring) : jstring * jstring :=
  match input with
  | c :: rest =>
    if is_digit c
    then let (ds, out) := span_digits rest in (c :: ds, out)
    else ([], input)
  | [] => ([], [])
  end.

(** One or more digits. *)
Definition digits1 (input : jstring) : option (jstring * jstring) :=
  match span_digits input with
  | ([], _) => None
  | (ds, out) => Some (ds, out)
  end.

(** The integer part: [0], or a digit 1-9 and digits. *)
Definition scan_int (input : jstring) : option (jstring * jstring) :=
  match input with
  | c :: rest =>
    if c =? 48 then Some ([48], rest)
    else if is_digit c then digits1 input
    else None
  | [] => None
  end.

(** The fraction, when there is one. *)
Definition scan_frac (input : jstring) : option (jstring * jstring) :=
  match input with
  | c :: rest =>
    if c =? 46 then
      match digits1 rest with
      | Some (ds, out) => Some (46 :: ds, out)
      | None => None
      end
    else Some ([], input)
  | [] => Some ([], [])
  end.

(** The exponent, when there is one. *)
Definition scan_exp (input : jstring) : option (jstring * jstring) :=
  match input with
  | c :: rest =>
    if (c =? 101) || (c =? 69) then
      match rest with
      | s :: rest' =>
        if (s =? 43) || (s =? 45) then
          match digits1 rest' with
          | Some (ds, out) => Some (c :: s :: ds, out)
          | None => None
          end
        else
          match digits1 rest with
          | Some (ds, out) => Some (c :: ds, out)
          | None => None
          end
      | [] => None
      end
    else Some ([], input)
  | [] => Some ([], [])
  end.

(** A number literal: [-? int frac? exp?]. *)
Definition scan_number (input : jstring) : option (jstring * jstring) :=
  let (sign, input1) :=
    match input with
    | c :: rest => if c =? 45 then ([45], rest) else ([], input)
    | [] => ([], [])
    end in
  match scan_int input1 with
  | None => None
  | Some (i, input2) =>
    match scan_frac input2 with
    | None => None
    | Some (f, input3) =>
      match scan_exp input3 with
      | None => None
      | Some (e, out) => Some (sign ++ i ++ f ++ e, out)
      end
    end
  end.

(** [input] without the prefix [p], when it starts with [p]. *)
Fixpoint strip_prefix (p input : jstring) : option jstring :=
  match p, input with
  | [], _ => Some input
  | x :: p', y :: input' => if x =? y then strip_prefix p' input' else None
  | _ :: _, [] => None
  end.

(** The parser proper.  [fuel] bounds the depth of the calls; every
    second call at least consumes a character, so twice the length of
    the text and two more never run out
    ([JSON_parse_fuel_independent]). *)
Fixpoint parse_value (fuel : nat) (input : jstring) : option (json * jstring) :=
  match fuel with
  | O => None
  | S fuel' =>
    match skip_ws input with
    | [] => None
    | c :: rest =>
      if c =? 34 then
        match parse_string_body rest with
        | Some (s, out) => Some (JString s, out)
        | None => None
        end
      else if c =? 91 then
        match skip_ws rest with
        | d :: out =>
          if d =? 93 then Some (JArray [], out)
          else parse_elements fuel' rest []
        | [] => None
        end
      else if c =? 123 then
        match skip_ws rest with
        | d :: out =>
          if d =? 125 then Some (JObject [], out)
          else parse_members fuel' rest []
        | [] => None
        end
      else if c =? 110 then
        match strip_prefix (js "ull") rest with
        | Some out => Some (JNull, out)
        | None => None
        end
      else if c =? 116 then
        match strip_prefix (js "rue") rest with
        | Some out => Some (JBool true, out)
        | None => None
        end
      else if c =? 102 then
        match strip_prefix (js "alse") rest with
        | Some out => Some (JBool false, out)
        | None => None
        end
      else
        match scan_number (c :: rest) with
        | Some (literal, out) => Some (JNumber literal, out)
        | None => None
        end
    end
  end

(** The elements of an array after [[] or a comma, up to []]. *)
with parse_elements (fuel : nat) (input : jstring) (acc : list json)
  : option (json * jstring) :=
  match fuel with
  | O => None
  | S fuel' =>
    match parse_value fuel' input with
    | None => None
    | Some (v, out) =>
      match skip_ws out with
      | c :: out' =>
        if c =? 44 then parse_elements fuel' out' (acc ++ [v])
        else if c =? 93 then Some (JArray (acc ++ [v]), out')
        else None
      | [] => None
      end
    end
  end

(** The members of an object after [{] or a comma, up to [}]. *)
with parse_members (fuel : nat) (input : jstring) (acc : list (jstring * json))
  : option (json * jstring) :=
  match fuel with
  | O => None
  | S fuel' =>
    match skip_ws input with
    | c :: rest =>
      if c =? 34 then
        match parse_string_body rest with
        | Some (key, out) =>
          match skip_ws out with
          | d :: out1 =>
            if d =? 58 then
              match parse_value fuel' out1 with
              | Some (v, out2) =>
                match skip_ws out2 with
                | e :: out3 =>
                  if e =? 44 then parse_members fuel' out3 (acc ++ [(key, v)])
                  else if e =? 125
                       then Some (JObject (acc ++ [(key, v)]), out3)
                  else None
                | [] => None
                end
              | None => None
              end
            else None
          | [] => None
          end
        | None => None
        end
      else None
    | [] => None
    end
  end.

(** [JSON.parse(text)]: the value, or a [SyntaxError]. *)
Definition JSON_parse (text : jstring) : result json :=
  match parse_value (2 * List.length text + 2) text with
  | Some (v, out) =>
    match skip_ws out with
    | [] => Ok v
    | _ :: _ => Throw (SyntaxError "Unexpected non-whitespace character after JSON")
    end
  | None => Throw (SyntaxError "Unexpected token in JSON")
  end.

(** ** Reading a parsed value *)

(** The last member with the given key. *)
Fixpoint lookup (key : jstring) (members : list (jstring * json)) : option json :=
  match members with
  | [] => None
  | (k, v) :: rest =>
    match lookup key rest with
    | Some later => Some later
    | None => if jstring_eqb k key then Some v else None
    end
  end.

(** [v.key] for a value [v] that [JSON.parse] returned and a key that
    is not a built-in property ([createdAt], [description]): [Ok None]
    is [undefined]; reading a property of [null] throws. *)
Definition get (v : json) (key : jstring) : result (option json) :=
  match v with
  | JNull => Throw (TypeError "Cannot read properties of null")
  | JObject members => Ok (lookup key members)
  | _ => Ok None
  end.

(** The literal of a number denotes zero: no digit of its mantissa
    differs from [0].  (A literal that underflows to zero as a double
    is outside the model.) *)
Fixpoint zero_literal (literal : jstring) : bool :=
  match literal with
  | [] => true
  | c :: rest =>
    if (c =? 101) || (c =? 69) then true
    else if (49 <=? c) && (c <=? 57) then false
    else zero_literal rest
  end.

(** ToBoolean. *)
Definition truthy (v : json) : bool :=
  match v with
  | JNull => false
  | JBool b => b
  | JNumber literal => negb (zero_literal literal)
  | JString s => match s with [] => false | _ :: _ => true end
  | JArray _ => true
  | JObject _ => true
  end.

End JSON.

Import JSON.

(** ** The terms in which the round trip through JSON is stated *)

Module JSONTerms.

(** The text between the brackets of an array, as the inner loop of
    [JSON_stringify] writes it. *)
Fixpoint elements_text (elements : list json) : jstring :=
  match elements with
  | [] => []
  | x :: rest =>
    JSON_stringify x ++
    match rest with
    | [] => []
    | _ :: _ => (44 :: elements_text rest)%N
    end
  end.

(** A value built of [null], booleans, well-formed strings, arrays and
    objects with well-formed keys: a value without numbers, whose text
    does not depend on the printing of doubles. *)
Fixpoint text_only (v : json) : Prop :=
  match v with
  | JNull => True
  | JBool _ => True
  | JNumber _ => False
  | JString s => well_formed s
  | JArray elements =>
    (fix all (l : list json) : Prop :=
       match l with
       | [] => True
       | x :: rest => text_only x /\ all rest
       end) elements
  | JObject members =>
    (fix all (l : list (jstring * json)) : Prop :=
       match l with
       | [] => True
       | (key, x) :: rest => well_formed key /\ text_only x /\ all rest
       end) members
  end.

End JSONTerms.

(* ================================================================== *)
(** * utils/contracts/eventController *)
(* ================================================================== *)

Module EventController.

Definition getEventControllerContract (provider : Provider) (chainId : Z)
  : result EventControllerContract :=
  EVENT_CONTROLLER provider chainId.

(** [class EventImpl]. *)
Record EventImpl : Type := mkEventImpl {
  id : jstring;
  metadataURI : jstring;
  organizer : jstring;
  maxTickets : Z;
  ticketsSold : Z;
  price : jstring;
  active : bool
}.

Definition isValid (this : EventImpl) : bool := 0 <? maxTickets this.

(** The object [toJSON] returns. *)
Record EventJSON : Type := mkEventJSON {
  json_id : jstring;
  json_metadataURI : jstring;
  json_organizer : jstring;
  json_maxTickets : Z;
  json_ticketsSold : Z;
  json_price : jstring;
  json_active : bool;
  json_isValid : bool
}.

Definition toJSON (this : EventImpl) : EventJSON :=
  {| json_id := id this;
     json_metadataURI := metadataURI this;
     json_organizer := organizer this;
     json_maxTickets := maxTickets this;
     json_ticketsSold := ticketsSold this;
     json_price := price this;
     json_active := active this;
     json_isValid := true |}.

(** [new EventImpl(eventId, eventData[0], eventData[1],
    Number(eventData[2]), Number(eventData[3]),
    ethers.formatEther(eventData[4]), eventData[5])]. *)
Definition newEventImpl (eventId : jstring) (eventData : RawEvent) : EventImpl :=
  {| id := eventId;
     metadataURI := raw_metadataURI eventData;
     organizer := raw_organizer eventData;
     maxTickets := Number (raw_maxTickets eventData);
     ticketsSold := Number (raw_ticketsSold eventData);
     price := formatEther (raw_price eventData);
     active := raw_active eventData |}.

(** [getEvent]: [Ok None] is the promise fulfilled with [null]. *)
Definition getEvent (provider : Provider) (chainId : Z) (eventId : jstring)
  : result (option EventImpl) :=
  try_catch
    (contract <- getEventControllerContract provider chainId ;;
     eventData <- safeContractCall (ec_events contract eventId) ;;
     let event := newEventImpl eventId eventData in
     if negb (isValid event) then Ok None else Ok (Some event))
    (fun _ => Ok None).

(** [eventExists]: [event !== null && event.isValid()]. *)
Definition eventExists (provider : Provider) (chainId : Z) (eventId : jstring)
  : result bool :=
  try_catch
    (event <- getEvent provider chainId eventId ;;
     Ok (match event with
         | Some ev => isValid ev
         | None => false
         end))
    (fun _ => Ok false).

(** [abi.parseLog(log)]. *)
Definition parseLog (log : Log) : result (option LogDescription) :=
  match log with
  | UnparsableLog e => Throw e
  | ForeignLog => Ok None
  | AbiLog parsed => Ok (Some parsed)
  end.

(** [Number(parsedLog.args[0])]: [NaN] when the event has no argument. *)
Definition Number_arg0 (parsedLog : LogDescription) : JsNumber :=
  match args parsedLog with
  | eventId :: _ => Int (Number eventId)
  | [] => NaN
  end.

(** The [for (const log of receipt.logs)] loop of [createEvent] and the
    statements after it: the number [createEvent] returns once the
    receipt is at hand. *)
Fixpoint extractEventId (receipt_logs : list Log) : JsNumber :=
  match receipt_logs with
  | [] => Int 0                                    (* return 0 *)
  | log :: rest =>
    match parseLog log with
    | Ok (Some parsedLog) =>
      if jstring_eqb (name parsedLog) (js "EventCreated")
      then Number_arg0 parsedLog                   (* return Number(eventId) *)
      else extractEventId rest
    | Ok None => extractEventId rest
    | Throw _ => extractEventId rest               (* continue *)
    end
  end.

(** [createEvent], with [eventData] as a JSON value. *)
Definition createEvent (signer : Signer) (chainId : Z) (eventData : json)
    (maxTickets : Z) (price : jstring) : result JsNumber :=
  try_catch
    (contract <- getEventControllerContract (signer_provider signer) chainId ;;
     let metadataURI := JSON_stringify eventData in
     tx <- safeContractCall
             (ec_createEvent contract metadataURI maxTickets price) ;;
     receipt <- wait tx ;;
     Ok (extractEventId (logs receipt)))
    (fun error => Throw error).

(** [getTicketBalance]. *)
Definition getTicketBalance (provider : Provider) (chainId : Z)
    (address eventId : jstring) : result Z :=
  try_catch
    (contract <- getEventControllerContract provider chainId ;;
     balance <- safeContractCall (ec_balanceOf contract address eventId) ;;
     Ok (Number balance))
    (fun _ => Ok 0).

(** The statements of the inner [try] of [getAllEvents] before the
    validity test: the fetch of one slot and the event built of it. *)
Definition fetchSlot (contract : EventControllerContract) (eventId : Z)
  : result EventImpl :=
  eventData <- safeContractCall (ec_events contract (toString eventId)) ;;
  Ok (newEventImpl (toString eventId) eventData).

(** The [while (eventId < maxEvents)] loop of [getAllEvents].  [fuel]
    bounds the number of iterations; [Z.to_nat (maxEvents - eventId)]
    of them are enough. *)
Fixpoint getAllEvents_loop (contract : EventControllerContract) (maxEvents : Z)
    (fuel : nat) (eventId : Z) (events : list EventImpl) : list EventImpl :=
  match fuel with
  | O => events
  | S fuel' =>
    if eventId <? maxEvents then
      match fetchSlot contract eventId with
      | Ok event =>
        if negb (isValid event)
        then events                                            (* break *)
        else getAllEvents_loop contract maxEvents fuel' (eventId + 1)
               (events ++ [event])                             (* push *)
      | Throw _ =>
        getAllEvents_loop contract maxEvents fuel' (eventId + 1) events
      end
    else events
  end.

(** [getAllEvents]. *)
Definition getAllEvents (provider : Provider) (chainId : Z) (maxEvents : Z)
  : result (list EventImpl) :=
  try_catch
    (contract <- getEventControllerContract provider chainId ;;
     Ok (getAllEvents_loop contract maxEvents (Z.to_nat maxEvents) 0 []))
    (fun _ => Ok []).

(** [getUserEvents]. *)
Definition getUserEvents (provider : Provider) (chainId : Z)
    (userAddress : jstring) (maxEvents : Z) : result (list EventImpl) :=
  try_catch
    (allEvents <- getAllEvents provider chainId maxEvents ;;
     Ok (filter (fun event =>
                   jstring_eqb (toLowerCase (organizer event))
                               (toLowerCase userAddress))
                allEvents))
    (fun _ => Ok []).

End EventController.

(* ================================================================== *)
(** * utils/contracts/postMinter *)
(* ================================================================== *)

Module PostMinter.

(** [interface PostMetadata]. *)
Inductive PostType : Type := TEXT | IMAGE | EVENT.

Record PostMetadata : Type := mkPostMetadata {
  title : jstring;
  content : jstring;
  type : PostType;
  createdAt : jstring;
  imageUrl : option jstring
}.

Definition PostType_name (t : PostType) : jstring :=
  match t with
  | TEXT => js "TEXT"
  | IMAGE => js "IMAGE"
  | EVENT => js "EVENT"
  end.

(** The object a [PostMetadata] literal of the source builds, keys in
    the order the literals of [createTextPost] and [createImagePost]
    write them; an absent [imageUrl] is no member. *)
Definition metadata_object (m : PostMetadata) : json :=
  JObject
    ([(js "title", JString (title m));
      (js "content", JString (content m));
      (js "type", JString (PostType_name (type m)))]
     ++ match imageUrl m with
        | Some url => [(js "imageUrl", JString url)]
        | None => []
        end
     ++ [(js "createdAt", JString (createdAt m))]).

(** [interface Post].  [metadata] is whatever [JSON.parse] returned:
    the annotation [PostMetadata] is not checked at run time. *)
Record Post : Type := mkPost {
  id : jstring;
  creator : jstring;
  tribeId : jstring;
  metadata : json;
  isGated : bool;
  collectibleContract : jstring;
  collectibleId : jstring;
  isEncrypted : bool;
  accessSigner : jstring
}.

Definition getPostMinterContract (provider : Provider) (chainId : Z)
  : result PostMinterContract :=
  POST_MINTER provider chainId.

(** [getPostsByTribe]. *)
Definition getPostsByTribe (provider : Provider) (chainId : Z)
    (tribeId : jstring) (offset limit : Z) : result RawPostPage :=
  try_catch
    (contract <- getPostMinterContract provider chainId ;;
     result <- pm_getPostsByTribe contract tribeId offset limit ;;
     Ok {| raw_postIds := raw_postIds result; raw_total := raw_total result |})
    (fun error => Throw error).

(** ** Array.prototype.sort

    The standard leaves the algorithm to the implementation and asks
    for a stable sort; a comparator result of [NaN] counts as [+0].
    The model is the stable insertion sort, which calls the comparator
    on every element of an array of two or more.  For a comparator
    that is a consistent order every algorithm returns this result; for
    one that is not, the standard fixes no order and this one is one of
    those allowed. *)
Definition comes_after (v : JsNumber) : bool :=
  match v with
  | Int z => 0 <? z
  | NaN => false
  end.

Fixpoint sort_insert {A : Type} (comparefn : A -> A -> result JsNumber)
    (x : A) (sorted : list A) : result (list A) :=
  match sorted with
  | [] => Ok [x]
  | y :: rest =>
    v <- comparefn y x ;;
    if comes_after v then Ok (x :: y :: rest)
    else (rest' <- sort_insert comparefn x rest ;; Ok (y :: rest'))
  end.

Fixpoint sort_from {A : Type} (comparefn : A -> A -> result JsNumber)
    (sorted todo : list A) : result (list A) :=
  match todo with
  | [] => Ok sorted
  | x :: rest =>
    sorted' <- sort_insert comparefn x sorted ;;
    sort_from comparefn sorted' rest
  end.

Definition Array_sort {A : Type} (comparefn : A -> A -> result JsNumber)
    (array : list A) : result (list A) :=
  sort_from comparefn [] array.

(** [x - y] on numbers. *)
Definition minus (x y : JsNumber) : JsNumber :=
  match x, y with
  | Int a, Int b => Int (a - b)
  | _, _ => NaN
  end.

Section Clock.

(** [new Date().toISOString()] at the time of the call. *)
Variable now : jstring.

(** [new Date(v).getTime()] for a property value [v] ([None] is
    [undefined]): the time value, [NaN] for an invalid date; the
    conversion of an object to a primitive may throw. *)
Variable Date_getTime : option json -> result JsNumber.

(** [getPost]. *)
Definition getPost (provider : Provider) (chainId : Z) (postId : jstring)
  : result Post :=
  try_catch
    (contract <- getPostMinterContract provider chainId ;;
     postData <- pm_getPost contract postId ;;
     let metadata :=
       match JSON_parse (raw_metadata postData) with
       | Ok parsed => parsed
       | Throw _ =>
         metadata_object
           {| title := js "Error";
              content := js "Could not parse post metadata";
              type := TEXT;
              createdAt := now;
              imageUrl := None |}
       end in
     Ok {| id := postId;
           creator := raw_creator postData;
           tribeId := toString (raw_tribeId postData);
           metadata := metadata;
           isGated := raw_isGated postData;
           collectibleContract := raw_collectibleContract postData;
           collectibleId := toString (raw_collectibleId postData);
           isEncrypted := raw_isEncrypted postData;
           accessSigner := raw_accessSigner postData |})
    (fun error => Throw error).

(** [createTextPost]. *)
Definition createTextPost (signer : Signer) (chainId : Z)
    (tribeId title content : jstring) : result TransactionReceipt :=
  try_catch
    (contract <- getPostMinterContract (signer_provider signer) chainId ;;
     let metadata :=
       {| title := title; content := content; type := TEXT;
          createdAt := now; imageUrl := None |} in
     tx <- pm_createPost contract tribeId
             (JSON_stringify (metadata_object metadata))
             false ZeroAddress 0 ;;
     wait tx)
    (fun error => Throw error).

(** [createImagePost]. *)
Definition createImagePost (signer : Signer) (chainId : Z)
    (tribeId title content imageUrl : jstring) : result TransactionReceipt :=
  try_catch
    (contract <- getPostMinterContract (signer_provider signer) chainId ;;
     let metadata :=
       {| title := title; content := content; type := IMAGE;
          createdAt := now; imageUrl := Some imageUrl |} in
     tx <- pm_createPost contract tribeId
             (JSON_stringify (metadata_object metadata))
             false ZeroAddress 0 ;;
     wait tx)
    (fun error => Throw error).

(** The [for (const tribeId of tribeIds)] loop of [getAllPosts]: the
    promises pushed, each by the outcome it settles to. *)
Fixpoint getAllPosts_loop (provider : Provider) (chainId : Z) (limit : Z)
    (tribeIds : list jstring) (fetchPromises : list (result Post))
  : list (result Post) :=
  match tribeIds with
  | [] => fetchPromises
  | tribeId :: rest =>
    getAllPosts_loop provider chainId limit rest
      (match getPostsByTribe provider chainId tribeId 0 limit with
       | Ok page =>
         fetchPromises ++
         map (fun postId => getPost provider chainId (toString postId))
             (raw_postIds page)
       | Throw _ => fetchPromises       (* continue with other tribes *)
       end)
  end.

(** [new Date(p.metadata.createdAt).getTime()]. *)
Definition createdAt_time (p : Post) : result JsNumber :=
  v <- get (metadata p) (js "createdAt") ;;
  Date_getTime v.

(** The comparator of [getAllPosts]. *)
Definition newest_first (a b : Post) : result JsNumber :=
  tb <- createdAt_time b ;;
  ta <- createdAt_time a ;;
  Ok (minus tb ta).

(** [getAllPosts]. *)
Definition getAllPosts (provider : Provider) (chainId : Z)
    (tribeIds : list jstring) (limit : Z) : result (list Post) :=
  try_catch
    (let fetchPromises := getAllPosts_loop provider chainId limit tribeIds [] in
     posts <- Promise_all fetchPromises ;;
     let allPosts := [] ++ posts in
     Array_sort newest_first allPosts)
    (fun error => Throw error).

End Clock.

End PostMinter.

(** ** The terms in which the properties of [getAllPosts] are stated *)

Module PostMinterTerms.

Import PostMinter.

(** The promises one tribe contributes to [getAllPosts]: one per post
    identifier when its enumeration succeeds, none when it fails. *)
Definition fetches_of_tribe (now : jstring) (provider : Provider)
    (chainId limit : Z) (tribeId : jstring) : list (result Post) :=
  match getPostsByTribe provider chainId tribeId 0 limit with
  | Ok page =>
    map (fun postId => getPost now provider chainId (toString postId))
        (raw_postIds page)
  | Throw _ => []
  end.

(** A post stands before another when both carry a creation time and
    its own is not the earlier one. *)
Definition newer_or_same (Date_getTime : option json -> result JsNumber)
    (a b : Post) : Prop :=
  exists ta tb,
    createdAt_time Date_getTime a = Ok (Int ta) /\
    createdAt_time Date_getTime b = Ok (Int tb) /\
    tb <= ta.

(** The creation time of a post, for a post that has one. *)
Definition time_of (Date_getTime : option json -> result JsNumber) (p : Post) : Z :=
  match createdAt_time Date_getTime p with
  | Ok (Int t) => t
  | _ => 0
  end.

(** No element stands before one of a later time. *)
Definition not_older {A : Type} (time : A -> Z) (a b : A) : Prop :=
  time b <= time a.

End PostMinterTerms.

(* ================================================================== *)
(** * utils/contracts/tribeController *)
(* ================================================================== *)

Module TribeController.

(** [interface Tribe].  [joinType] is the number of the [JoinType]
    enum as the contract returns it; [description] is the value read
    from the parsed metadata, a string for well-formed metadata. *)
Record Tribe : Type := mkTribe {
  id : jstring;
  name : jstring;
  description : json;
  joinType : Z;
  entryFee : jstring;
  memberCount : Z;
  canMerge : bool;
  admin : jstring;
  isActive : bool
}.

Definition getTribeControllerContract (provider : Provider) (chainId : Z)
  : result TribeControllerContract :=
  TRIBE_CONTROLLER provider chainId.

(** [getNextTribeId]. *)
Definition getNextTribeId (provider : Provider) (chainId : Z) : result Z :=
  try_catch
    (contract <- getTribeControllerContract provider chainId ;;
     nextId <- tc_nextTribeId contract ;;
     Ok (Number nextId))
    (fun error => Throw error).

(** The inner [try] of [getTribeDetails]:
    [description = JSON.parse(details.metadata).description || ""],
    and [""] when that throws. *)
Definition description_of (metadata : jstring) : json :=
  match (metadataObj <- JSON_parse metadata ;;
         get metadataObj (js "description")) with
  | Ok (Some d) => if truthy d then d else JString []
  | Ok None => JString []
  | Throw _ => JString []
  end.

(** [getTribeDetails]: [Ok None] is the promise fulfilled with [null]. *)
Definition getTribeDetails (provider : Provider) (chainId : Z)
    (tribeId : jstring) : result (option Tribe) :=
  try_catch
    (contract <- getTribeControllerContract provider chainId ;;
     details <- tc_getTribeDetails contract tribeId ;;
     Ok (Some {| id := tribeId;
                 name := raw_name details;
                 description := description_of (raw_tribe_metadata details);
                 joinType := raw_joinType details;
                 entryFee := toString (raw_entryFee details);
                 memberCount := Number (raw_memberCount details);
                 canMerge := raw_canMerge details;
                 admin := raw_admin details;
                 isActive := raw_isActive details |}))
    (fun _ => Ok None).

(** The [for (let i = 0; i < nextTribeId; i++)] loop of [getAllTribes]:
    the promises pushed, each by the outcome it settles to. *)
Fixpoint getAllTribes_loop (provider : Provider) (chainId : Z)
    (nextTribeId : Z) (fuel : nat) (i : Z)
    (tribePromises : list (result (option Tribe)))
  : list (result (option Tribe)) :=
  match fuel with
  | O => tribePromises
  | S fuel' =>
    if i <? nextTribeId then
      getAllTribes_loop provider chainId nextTribeId fuel' (i + 1)
        (tribePromises ++ [getTribeDetails provider chainId (toString i)])
    else tribePromises
  end.

(** The [for (const tribe of results)] loop: the results that are not
    [null], in order. *)
Fixpoint keep_tribes (results : list (option Tribe)) : list Tribe :=
  match results with
  | [] => []
  | Some tribe :: rest => tribe :: keep_tribes rest
  | None :: rest => keep_tribes rest
  end.

(** [getAllTribes]. *)
Definition getAllTribes (provider : Provider) (chainId : Z)
  : result (list Tribe) :=
  try_catch
    (nextTribeId <- getNextTribeId provider chainId ;;
     let tribePromises :=
       getAllTribes_loop provider chainId nextTribeId
         (Z.to_nat nextTribeId) 0 [] in
     results <- Promise_all tribePromises ;;
     Ok (keep_tribes results))
    (fun error => Throw error).

(** [isMemberOfTribe]. *)
Definition isMemberOfTribe (provider : Provider) (chainId : Z)
    (tribeId address : jstring) : result bool :=
  try_catch
    (contract <- getTribeControllerContract provider chainId ;;
     safeContractCall (tc_isMember contract tribeId address))
    (fun error => Throw error).

End TribeController.

(* ================================================================== *)
(** * context/ProfileContext *)
(* ================================================================== *)

Module ProfileContext.

(** [interface ProfileData]; [metadata] is what [parseMetadata]
    returned. *)
Record ProfileData : Type := mkProfileData {
  tokenId : jstring;
  username : jstring;
  metadata : json;
  owner : jstring
}.

Section Provider.

(** The [provider] state of the component ([None] is [null]) and the
    fixed [chainId], [FUSE_EMBER_DECIMAL] of constants/networks. *)
Variable provider : option Provider.
Variable chainId : Z.

Definition getProfileNFTMinterContract (provider : Provider)
  : result ProfileNFTMinterContract :=
  PROFILE_NFT_MINTER provider chainId.

(** [parseMetadata]. *)
Definition parseMetadata (metadataStr : jstring) : json :=
  match JSON_parse metadataStr with
  | Ok parsed => parsed
  | Throw _ => JObject [(js "name", JString (js "Unknown"))]
  end.

(** The [for (let i = 0; i < 10; i++)] loop of [getProfileByAddress]:
    the value of [userTokenId] after it, [None] for [null]. *)
Fixpoint findTokenId_loop (contract : ProfileNFTMinterContract)
    (address : jstring) (fuel : nat) (i : Z) : option Z :=
  match fuel with
  | O => None
  | S fuel' =>
    if i <? 10 then
      match (owner <- safeContractCall (pn_ownerOf contract i) ;;
             Ok (jstring_eqb (toLowerCase owner) (toLowerCase address))) with
      | Ok true => Some i                                      (* break *)
      | Ok false => findTokenId_loop contract address fuel' (i + 1)
      | Throw _ => findTokenId_loop contract address fuel' (i + 1)  (* continue *)
      end
    else None
  end.

(** [getProfileByAddress]: [Ok None] is the promise fulfilled with
    [null]. *)
Definition getProfileByAddress (address : jstring) : result (option ProfileData) :=
  match provider with
  | None => Ok None
  | Some provider =>
    try_catch
      (contract <- getProfileNFTMinterContract provider ;;
       balance <- safeContractCall (pn_balanceOf contract address) ;;
       if balance =? 0 then Ok None
       else
         match findTokenId_loop contract address 10 0 with
         | None => Ok None
         | Some userTokenId =>
           result <- safeContractCall
                       (pn_getProfileByTokenId contract userTokenId) ;;
           let '(username, metadataStr, _) := result in
           let metadata := parseMetadata metadataStr in
           Ok (Some {| tokenId := toString userTokenId;
                       username := username;
                       metadata := metadata;
                       owner := address |})
         end)
      (fun _ => Ok None)
  end.

(** [checkUsername]. *)
Definition checkUsername (username : jstring) : result bool :=
  match provider with
  | None => Ok false
  | Some provider =>
    try_catch
      (contract <- getProfileNFTMinterContract provider ;;
       safeContractCall (pn_usernameExists contract username))
      (fun _ => Ok false)
  end.

End Provider.

End ProfileContext.

(* ================================================================== *)
(** * The contracts connected to a signer *)
(* ================================================================== *)

Module Wallet.

(** The methods of the EventController a signer calls besides
    [createEvent].  As for [ec_createEvent], a method stands for the
    signed call with its gas limit, and [ecw_purchaseTickets] with the
    value [ethers.parseEther(price)] sent along. *)
Record EventControllerWrites : Type := mkEventControllerWrites {
  ecw_purchaseTickets : jstring -> Z -> jstring -> result TransactionResponse;
  ecw_cancelEvent : jstring -> result TransactionResponse;
  ecw_updateEventMetadata : jstring -> jstring -> result TransactionResponse
}.

(** The methods of the TribeController a signer calls.  [createTribe]
    takes the name, the metadata, the admins, the join type, the entry
    fee and the NFT requirements. *)
Record TribeControllerWrites : Type := mkTribeControllerWrites {
  tcw_joinTribe : jstring -> result TransactionResponse;
  tcw_createTribe :
    jstring -> jstring -> list jstring -> Z -> jstring ->
    list (jstring * jstring) -> result TransactionResponse;
  tcw_rejectMember : jstring -> result TransactionResponse
}.

(** The methods of the ProfileNFTMinter a signer calls. *)
Record ProfileNFTMinterWrites : Type := mkProfileNFTMinterWrites {
  pnw_createProfile : jstring -> jstring -> result TransactionResponse;
  pnw_updateProfileMetadata : jstring -> jstring -> result TransactionResponse
}.

(** [contract.connect(signer)] of the ethers library, per contract. *)
Record Connect : Type := mkConnect {
  connect_EventController :
    EventControllerContract -> Signer -> EventControllerWrites;
  connect_TribeController :
    TribeControllerContract -> Signer -> TribeControllerWrites;
  connect_ProfileNFTMinter :
    ProfileNFTMinterContract -> Signer -> ProfileNFTMinterWrites
}.

End Wallet.

Import Wallet.

(* ================================================================== *)
(** * utils/contracts/eventController: the writes *)
(* ================================================================== *)

Module EventControllerWrite.

Import EventController.

Section Ethers.

(** [contract.connect] and [new Error(message)]. *)
Variable connect : Connect.
Variable new_Error : jstring -> JsError.

(** [purchaseTickets]. *)
Definition purchaseTickets (signer : Signer) (chainId : Z) (eventId : jstring)
    (amount : Z) (price : jstring) : result bool :=
  try_catch
    (contract <- getEventControllerContract (signer_provider signer) chainId ;;
     let contractWithSigner := connect_EventController connect contract signer in
     tx <- safeContractCall
             (ecw_purchaseTickets contractWithSigner eventId amount price) ;;
     _ <- wait tx ;;
     Ok true)
    (fun _ => Ok false).

(** [cancelEvent]. *)
Definition cancelEvent (signer : Signer) (chainId : Z) (eventId : jstring)
  : result bool :=
  try_catch
    (contract <- getEventControllerContract (signer_provider signer) chainId ;;
     let contractWithSigner := connect_EventController connect contract signer in
     tx <- safeContractCall (ecw_cancelEvent contractWithSigner eventId) ;;
     _ <- wait tx ;;
     Ok true)
    (fun _ => Ok false).

(** [updateEvent], with [eventData] as a JSON value. *)
Definition updateEvent (signer : Signer) (chainId : Z) (eventId : jstring)
    (eventData : json) : result bool :=
  try_catch
    (contract <- getEventControllerContract (signer_provider signer) chainId ;;
     let contractWithSigner := connect_EventController connect contract signer in
     currentEvent <- getEvent (signer_provider signer) chainId eventId ;;
     match currentEvent with
     | None =>
       Throw (new_Error
                (js "Event " ++ eventId ++ js " does not exist or is invalid"))
     | Some currentEvent =>
       signerAddress <- getAddress signer ;;
       if negb (jstring_eqb (toLowerCase (organizer currentEvent))
                            (toLowerCase signerAddress))
       then Throw (new_Error
                     (js "Only the event organizer can update this event"))
       else if negb (active currentEvent)
       then Throw (new_Error
                     (js "Cannot update an inactive or cancelled event"))
       else
         let metadataURI := JSON_stringify eventData in
         tx <- safeContractCall
                 (ecw_updateEventMetadata contractWithSigner eventId metadataURI) ;;
         _ <- wait tx ;;
         Ok true
     end)
    (fun _ => Ok false).

End Ethers.

End EventControllerWrite.

(* ================================================================== *)
(** * utils/contracts/tribeController: the writes *)
(* ================================================================== *)

Module TribeControllerWrite.

Import TribeController.

(** [enum JoinType] and the number of each member. *)
Inductive JoinType : Type := Open | Approval | Invite | NFTGated.

Definition JoinType_value (joinType : JoinType) : Z :=
  match joinType with
  | Open => 0
  | Approval => 1
  | Invite => 2
  | NFTGated => 3
  end.

Section Ethers.

Variable connect : Connect.

(** [new Date().toISOString()] at the time of the call. *)
Variable now : jstring.

(** The metadata object [createTribe] builds. *)
Definition tribe_metadata (description : jstring) : json :=
  JObject [(js "description", JString description);
           (js "createdAt", JString now)].

(** [joinTribe]. *)
Definition joinTribe (signer : Signer) (chainId : Z) (tribeId : jstring)
  : result TransactionReceipt :=
  try_catch
    (contract <- getTribeControllerContract (signer_provider signer) chainId ;;
     let contractWithSigner := connect_TribeController connect contract signer in
     tx <- safeContractCall (tcw_joinTribe contractWithSigner tribeId) ;;
     wait tx)
    (fun error => Throw error).

(** [createTribe]; the defaults of [joinType] and [entryFee] are
    [JoinType.Open] and ["0"]. *)
Definition createTribe (signer : Signer) (chainId : Z) (name description : jstring)
    (joinType : JoinType) (entryFee : jstring) : result TransactionReceipt :=
  try_catch
    (contract <- getTribeControllerContract (signer_provider signer) chainId ;;
     let contractWithSigner := connect_TribeController connect contract signer in
     let metadata := JSON_stringify (tribe_metadata description) in
     tx <- safeContractCall
             (tcw_createTribe contractWithSigner name metadata []
                (JoinType_value joinType) entryFee []) ;;
     wait tx)
    (fun error => Throw error).

(** [rejectMember]. *)
Definition rejectMember (signer : Signer) (chainId : Z) (tribeId : jstring)
  : result TransactionReceipt :=
  try_catch
    (contract <- getTribeControllerContract (signer_provider signer) chainId ;;
     let contractWithSigner := connect_TribeController connect contract signer in
     tx <- safeContractCall (tcw_rejectMember contractWithSigner tribeId) ;;
     wait tx)
    (fun error => Throw error).

End Ethers.

End TribeControllerWrite.

(* ================================================================== *)
(** * React components: what a call leaves in the state *)
(* ================================================================== *)

(** A function of a component reads the values its render captured
    (the wallet account, the provider and signer, the state) and
    writes the state through its setters.  It is modelled by the
    state it leaves, given the state it was rendered with, and, when
    it returns a value, by the outcome of its promise. *)

Module React.

(** A string used as a condition: [null], [undefined] and [""] are
    falsy. *)
Definition truthy_string (s : option jstring) : bool :=
  match s with
  | Some (_ :: _) => true
  | _ => false
  end.

End React.

Import React.

(* ================================================================== *)
(** * context/EventsContext *)
(* ================================================================== *)

Module EventsContext.

Import EventController EventControllerWrite.

Record State : Type := mkState {
  allEvents : list EventImpl;
  userEvents : list EventImpl;
  loading : bool;
  error : option jstring;
  isOrganizer : bool;
  loadingRole : bool
}.

Definition setAllEvents (v : list EventImpl) (st : State) : State :=
  {| allEvents := v; userEvents := userEvents st; loading := loading st;
     error := error st; isOrganizer := isOrganizer st;
     loadingRole := loadingRole st |}.

Definition setUserEvents (v : list EventImpl) (st : State) : State :=
  {| allEvents := allEvents st; userEvents := v; loading := loading st;
     error := error st; isOrganizer := isOrganizer st;
     loadingRole := loadingRole st |}.

Definition setLoading (v : bool) (st : State) : State :=
  {| allEvents := allEvents st; userEvents := userEvents st; loading := v;
     error := error st; isOrganizer := isOrganizer st;
     loadingRole := loadingRole st |}.

Definition setError (v : option jstring) (st : State) : State :=
  {| allEvents := allEvents st; userEvents := userEvents st;
     loading := loading st; error := v; isOrganizer := isOrganizer st;
     loadingRole := loadingRole st |}.

Section Component.

(** What the render captured: [useWallet()], the provider and signer
    states and the fixed chain id; [connect] and [new_Error] are the
    library's. *)
Variable account : option jstring.
Variable isConnected : bool.
Variable provider : option Provider.
Variable signer : option Signer.
Variable chainId : Z.
Variable connect : Connect.
Variable new_Error : jstring -> JsError.

(** [refreshEvents]; [getAllEvents] and [getUserEvents] are called with
    their default [maxEvents = 20]. *)
Definition refreshEvents (st : State) : State :=
  match provider with
  | None => st
  | Some provider =>
    let st := setError None (setLoading true st) in
    let st :=
      match getAllEvents provider chainId 20 with
      | Throw _ => setError (Some (js "Failed to load events")) st
      | Ok fetchedEvents =>
        let st := setAllEvents fetchedEvents st in
        match account with
        | Some (c :: address) =>
          match getUserEvents provider chainId (c :: address) 20 with
          | Throw _ => setError (Some (js "Failed to load events")) st
          | Ok userEvts => setUserEvents userEvts st
          end
        | _ => st
        end
      end in
    setLoading false st
  end.

(** [createNewEvent]. *)
Definition createNewEvent (eventData : json) (maxTickets : Z) (price : jstring)
    (st : State) : result JsNumber * State :=
  match signer with
  | Some signer =>
    if isConnected && truthy_string account && isOrganizer st then
      match createEvent signer chainId eventData maxTickets price with
      | Ok eventId => (Ok eventId, refreshEvents st)
      | Throw err => (Throw err, st)
      end
    else
      (Throw (new_Error (js "Must be connected and have organizer role")), st)
  | None =>
    (Throw (new_Error (js "Must be connected and have organizer role")), st)
  end.

(** [updateEvent] of the context ([updateEventFunc]). *)
Definition updateEventFunc (eventId : jstring) (eventData : json) (st : State)
  : result bool * State :=
  match signer with
  | Some signer =>
    if isConnected && truthy_string account && isOrganizer st then
      match updateEvent connect new_Error signer chainId eventId eventData with
      | Ok success => (Ok success, refreshEvents st)
      | Throw err => (Throw err, st)
      end
    else
      (Throw (new_Error (js "Must be connected and have organizer role")), st)
  | None =>
    (Throw (new_Error (js "Must be connected and have organizer role")), st)
  end.

(** [purchaseEventTickets]. *)
Definition purchaseEventTickets (eventId : jstring) (amount : Z) (price : jstring)
    (st : State) : result bool * State :=
  match signer with
  | Some signer =>
    if isConnected then
      match
        (event <- getEvent (signer_provider signer) chainId eventId ;;
         match event with
         | None =>
           Throw (new_Error
                    (js "Event " ++ eventId ++ js " does not exist or is invalid"))
         | Some event =>
           if negb (active event)
           then Throw (new_Error (js "Event " ++ eventId ++ js " is not active"))
           else
             success <- purchaseTickets connect signer chainId eventId
                          amount price ;;
             Ok (success, refreshEvents st)
         end)
      with
      | Ok (success, st') => (Ok success, st')
      | Throw _ => (Ok false, st)
      end
    else (Throw (new_Error (js "Wallet not connected")), st)
  | None => (Throw (new_Error (js "Wallet not connected")), st)
  end.

(** [event.organizer.toLowerCase() !== account?.toLowerCase()]: with no
    account the right side is [undefined] and the two differ. *)
Definition not_organizer (event : EventImpl) : bool :=
  match account with
  | Some address =>
    negb (jstring_eqb (toLowerCase (organizer event)) (toLowerCase address))
  | None => true
  end.

(** [cancelUserEvent]. *)
Definition cancelUserEvent (eventId : jstring) (st : State)
  : result bool * State :=
  match signer with
  | Some signer =>
    if isConnected && isOrganizer st then
      match
        (event <- getEvent (signer_provider signer) chainId eventId ;;
         match event with
         | None =>
           Throw (new_Error
                    (js "Event " ++ eventId ++ js " does not exist or is invalid"))
         | Some event =>
           if not_organizer event
           then Throw (new_Error (js "You are not the organizer of this event"))
           else
             success <- cancelEvent connect signer chainId eventId ;;
             Ok (success, refreshEvents st)
         end)
      with
      | Ok (success, st') => (Ok success, st')
      | Throw _ => (Ok false, st)
      end
    else
      (Throw (new_Error (js "Must be connected and have organizer role")), st)
  | None =>
    (Throw (new_Error (js "Must be connected and have organizer role")), st)
  end.

End Component.

End EventsContext.

(* ================================================================== *)
(** * context/ProfileContext: the state of the provider component *)
(* ================================================================== *)

Module ProfileProvider.

Import ProfileContext.

(** [interface ProfileMetadata] and the object a value of it is, the
    keys in the order of the interface; an absent optional field is no
    member. *)
Record SocialLinks : Type := mkSocialLinks {
  twitter : option jstring;
  telegram : option jstring;
  discord : option jstring;
  website : option jstring
}.

Record ProfileMetadata : Type := mkProfileMetadata {
  name : jstring;
  bio : option jstring;
  avatar : option jstring;
  coverImage : option jstring;
  socialLinks : option SocialLinks
}.

Definition optional (key : string) (value : option jstring)
  : list (jstring * json) :=
  match value with
  | Some s => [(js key, JString s)]
  | None => []
  end.

Definition socialLinks_object (l : SocialLinks) : json :=
  JObject (optional "twitter" (twitter l) ++ optional "telegram" (telegram l)
           ++ optional "discord" (discord l) ++ optional "website" (website l)).

Definition profile_object (m : ProfileMetadata) : json :=
  JObject ([(js "name", JString (name m))]
           ++ optional "bio" (bio m) ++ optional "avatar" (avatar m)
           ++ optional "coverImage" (coverImage m)
           ++ match socialLinks m with
              | Some l => [(js "socialLinks", socialLinks_object l)]
              | None => []
              end).

Record State : Type := mkState {
  profile : option ProfileData;
  loading : bool;
  error : option jstring
}.

Definition setProfile (v : option ProfileData) (st : State) : State :=
  {| profile := v; loading := loading st; error := error st |}.

Definition setLoading (v : bool) (st : State) : State :=
  {| profile := profile st; loading := v; error := error st |}.

Definition setError (v : option jstring) (st : State) : State :=
  {| profile := profile st; loading := loading st; error := v |}.

Section Component.

Variable account : option jstring.
Variable isConnected : bool.
Variable provider : option Provider.
Variable signer : option Signer.
Variable chainId : Z.
Variable connect : Connect.
Variable new_Error : jstring -> JsError.

(** [refreshProfile]. *)
Definition refreshProfile (st : State) : State :=
  match provider, account with
  | Some _, Some (c :: address) =>
    let st := setError None (setLoading true st) in
    let st :=
      match getProfileByAddress provider chainId (c :: address) with
      | Ok userProfile => setProfile userProfile st
      | Throw _ => setError (Some (js "Failed to load profile")) st
      end in
    setLoading false st
  | _, _ => setLoading false (setProfile None st)
  end.

(** [createProfile]. *)
Definition createProfile (username : jstring) (metadata : json) (st : State)
  : result bool * State :=
  match signer with
  | Some signer =>
    if isConnected then
      match
        (contract <- getProfileNFTMinterContract chainId (signer_provider signer) ;;
         let contractWithSigner :=
           connect_ProfileNFTMinter connect contract signer in
         usernameExists <- checkUsername provider chainId username ;;
         if usernameExists
         then Throw (new_Error
                       (js "Username '" ++ username ++ js "' is already taken"))
         else
           let metadataURI := JSON_stringify metadata in
           tx <- safeContractCall
                   (pnw_createProfile contractWithSigner username metadataURI) ;;
           receipt <- wait tx ;;
           Ok (true, refreshProfile st))
      with
      | Ok (created, st') => (Ok created, st')
      | Throw error => (Throw error, st)
      end
    else (Throw (new_Error (js "Wallet not connected")), st)
  | None => (Throw (new_Error (js "Wallet not connected")), st)
  end.

(** [updateProfile]. *)
Definition updateProfile (metadata : json) (st : State) : result bool * State :=
  match signer, profile st with
  | Some signer, Some profile =>
    if isConnected then
      match
        (contract <- getProfileNFTMinterContract chainId (signer_provider signer) ;;
         let contractWithSigner :=
           connect_ProfileNFTMinter connect contract signer in
         let metadataURI := JSON_stringify metadata in
         tx <- safeContractCall
                 (pnw_updateProfileMetadata contractWithSigner
                    (tokenId profile) metadataURI) ;;
         _ <- wait tx ;;
         Ok (true, refreshProfile st))
      with
      | Ok (updated, st') => (Ok updated, st')
      | Throw _ => (Ok false, st)
      end
    else
      (Throw (new_Error (js "Wallet not connected or profile not loaded")), st)
  | _, _ =>
    (Throw (new_Error (js "Wallet not connected or profile not loaded")), st)
  end.

End Component.

End ProfileProvider.

(* ================================================================== *)
(** * context/PostsContext *)
(* ================================================================== *)

Module PostsContext.

Import PostMinter TribeController TribeControllerWrite.

Record State : Type := mkState {
  posts : list Post;
  loading : bool;
  error : option jstring;
  tribes : list Tribe;
  tribesLoading : bool;
  tribesError : option jstring
}.

Definition setPosts (v : list Post) (st : State) : State :=
  {| posts := v; loading := loading st; error := error st;
     tribes := tribes st; tribesLoading := tribesLoading st;
     tribesError := tribesError st |}.

Definition setLoading (v : bool) (st : State) : State :=
  {| posts := posts st; loading := v; error := error st;
     tribes := tribes st; tribesLoading := tribesLoading st;
     tribesError := tribesError st |}.

Definition setError (v : option jstring) (st : State) : State :=
  {| posts := posts st; loading := loading st; error := v;
     tribes := tribes st; tribesLoading := tribesLoading st;
     tribesError := tribesError st |}.

Definition setTribes (v : list Tribe) (st : State) : State :=
  {| posts := posts st; loading := loading st; error := error st;
     tribes := v; tribesLoading := tribesLoading st;
     tribesError := tribesError st |}.

Definition setTribesLoading (v : bool) (st : State) : State :=
  {| posts := posts st; loading := loading st; error := error st;
     tribes := tribes st; tribesLoading := v;
     tribesError := tribesError st |}.

Definition setTribesError (v : option jstring) (st : State) : State :=
  {| posts := posts st; loading := loading st; error := error st;
     tribes := tribes st; tribesLoading := tribesLoading st;
     tribesError := v |}.

Section Component.

Variable isConnected : bool.
Variable provider : option Provider.
Variable signer : option Signer.
Variable chainId : Z.
Variable connect : Connect.
Variable new_Error : jstring -> JsError.
Variable now : jstring.
Variable Date_getTime : option json -> result JsNumber.

(** [refreshTribes]. *)
Definition refreshTribes (st : State) : State :=
  match provider with
  | None => st
  | Some provider =>
    let st := setTribesError None (setTribesLoading true st) in
    let st :=
      match getAllTribes provider chainId with
      | Ok fetchedTribes => setTribes fetchedTribes st
      | Throw _ => setTribesError (Some (js "Failed to load tribes")) st
      end in
    setTribesLoading false st
  end.

(** [refreshPosts]; [getAllPosts] is called with its default
    [limit = 10]. *)
Definition refreshPosts (st : State) : State :=
  match provider, tribes st with
  | Some provider, _ :: _ =>
    let st := setError None (setLoading true st) in
    let st :=
      let tribeIds := map TribeController.id (tribes st) in
      match getAllPosts now Date_getTime provider chainId tribeIds 10 with
      | Ok fetchedPosts => setPosts fetchedPosts st
      | Throw _ => setError (Some (js "Failed to load posts")) st
      end in
    setLoading false st
  | _, _ => st
  end.

(** [createNewTextPost]. *)
Definition createNewTextPost (tribeId title content : jstring) (st : State)
  : result unit * State :=
  match signer with
  | Some signer =>
    if isConnected then
      match createTextPost now signer chainId tribeId title content with
      | Ok _ => (Ok tt, refreshPosts st)
      | Throw err => (Throw err, st)
      end
    else (Throw (new_Error (js "Wallet not connected")), st)
  | None => (Throw (new_Error (js "Wallet not connected")), st)
  end.

(** [createNewImagePost]. *)
Definition createNewImagePost (tribeId title content imageUrl : jstring)
    (st : State) : result unit * State :=
  match signer with
  | Some signer =>
    if isConnected then
      match createImagePost now signer chainId tribeId title content imageUrl with
      | Ok _ => (Ok tt, refreshPosts st)
      | Throw err => (Throw err, st)
      end
    else (Throw (new_Error (js "Wallet not connected")), st)
  | None => (Throw (new_Error (js "Wallet not connected")), st)
  end.

(** [createNewTribe]: the function has the two parameters [name] and
    [description]; [createTribe] is called with its defaults
    [JoinType.Open] and ["0"]. *)
Definition createNewTribe (name description : jstring) (st : State)
  : result unit * State :=
  match signer with
  | Some signer =>
    if isConnected then
      match createTribe connect now signer chainId name description
              Open (js "0") with
      | Ok _ => (Ok tt, refreshTribes st)
      | Throw err => (Throw err, st)
      end
    else (Throw (new_Error (js "Wallet not connected")), st)
  | None => (Throw (new_Error (js "Wallet not connected")), st)
  end.

(** [joinExistingTribe]. *)
Definition joinExistingTribe (tribeId : jstring) (st : State)
  : result unit * State :=
  match signer with
  | Some signer =>
    if isConnected then
      match joinTribe connect signer chainId tribeId with
      | Ok _ => (Ok tt, st)
      | Throw err => (Throw err, st)
      end
    else (Throw (new_Error (js "Wallet not connected")), st)
  | None => (Throw (new_Error (js "Wallet not connected")), st)
  end.

(** [leaveTribe]. *)
Definition leaveTribe (tribeId : jstring) (st : State) : result unit * State :=
  match signer with
  | Some signer =>
    if isConnected then
      match rejectMember connect signer chainId tribeId with
      | Ok _ => (Ok tt, refreshTribes st)
      | Throw err => (Throw err, st)
      end
    else (Throw (new_Error (js "Wallet not connected")), st)
  | None => (Throw (new_Error (js "Wallet not connected")), st)
  end.

(** [checkTribeMembership]. *)
Definition checkTribeMembership (tribeId address : jstring) : result bool :=
  match provider with
  | None => Throw (new_Error (js "Provider not available"))
  | Some provider =>
    try_catch
      (contract <- getTribeControllerContract provider chainId ;;
       safeContractCall (tc_isMember contract tribeId address))
      (fun err => Throw err)
  end.

End Component.

End PostsContext.

(* ================================================================== *)
(** * components/CreateTribeForm *)
(* ================================================================== *)

Module CreateTribeForm.

Import TribeControllerWrite.

Record Form : Type := mkForm {
  name : jstring;
  description : jstring;
  joinType : JoinType;
  isSubmitting : bool;
  error : option jstring
}.

Definition setName (v : jstring) (f : Form) : Form :=
  {| name := v; description := description f; joinType := joinType f;
     isSubmitting := isSubmitting f; error := error f |}.

Definition setDescription (v : jstring) (f : Form) : Form :=
  {| name := name f; description := v; joinType := joinType f;
     isSubmitting := isSubmitting f; error := error f |}.

Definition setJoinType (v : JoinType) (f : Form) : Form :=
  {| name := name f; description := description f; joinType := v;
     isSubmitting := isSubmitting f; error := error f |}.

Definition setIsSubmitting (v : bool) (f : Form) : Form :=
  {| name := name f; description := description f; joinType := joinType f;
     isSubmitting := v; error := error f |}.

Definition setError (v : option jstring) (f : Form) : Form :=
  {| name := name f; description := description f; joinType := joinType f;
     isSubmitting := isSubmitting f; error := v |}.

Section Component.

(** [createNewTribe] of [usePosts()], applied to the posts state of the
    render. *)
Variable createNewTribe :
  jstring -> jstring -> PostsContext.State -> result unit * PostsContext.State.

(** [handleSubmit].  The call [createNewTribe(name, description,
    joinType)] passes three arguments to a function of two parameters:
    the third is dropped. *)
Definition handleSubmit (f : Form) (st : PostsContext.State)
  : Form * PostsContext.State :=
  match name f, description f with
  | _ :: _, _ :: _ =>
    let f := setIsSubmitting true (setError None f) in
    let '(f, st) :=
      match createNewTribe (name f) (description f) st with
      | (Ok _, st') =>
        (setJoinType Open (setDescription [] (setName [] f)), st')
      | (Throw _, st') =>
        (setError (Some (js "Failed to create tribe. Please try again.")) f, st')
      end in
    (setIsSubmitting false f, st)
  | _, _ => (setError (Some (js "Name and description are required")) f, st)
  end.

End Component.

End CreateTribeForm.

(* ================================================================== *)
(** * Ledgers used in the examples *)
(* ================================================================== *)

Module Fixtures.

Import EventController.

Definition unreachable {A : Type} : result A :=
  Throw (TransportError "network unreachable").

(** A provider that reaches no contract. *)
Definition offline : Provider :=
  {| EVENT_CONTROLLER := fun _ => unreachable;
     POST_MINTER := fun _ => unreachable;
     TRIBE_CONTROLLER := fun _ => unreachable;
     PROFILE_NFT_MINTER := fun _ => unreachable |}.

(** An event slot with the given maximum ticket count. *)
Definition slot (maxTickets : Z) : RawEvent :=
  {| raw_metadataURI := js "{}";
     raw_organizer := js "0xAbC0000000000000000000000000000000000001";
     raw_maxTickets := maxTickets;
     raw_ticketsSold := 0;
     raw_price := 1500000000000000000;
     raw_active := true |}.

(** [events(id)] over a table of slots numbered from [i]; an index past
    the table is a failed call. *)
Fixpoint table_events (slots : list (result RawEvent)) (i : Z) (id : jstring)
  : result RawEvent :=
  match slots with
  | [] => unreachable
  | s :: rest =>
    if jstring_eqb id (toString i) then s else table_events rest (i + 1) id
  end.

(** A provider whose EventController holds the given slots and whose
    [createEvent] confirms with the given logs. *)
Definition event_ledger (slots : list (result RawEvent)) (receipt_logs : list Log)
  : Provider :=
  {| EVENT_CONTROLLER := fun _ =>
       Ok {| ec_events := table_events slots 0;
             ec_createEvent := fun _ _ _ =>
               Ok {| hash := js "0x01";
                     wait := Ok {| logs := receipt_logs |} |};
             ec_balanceOf := fun _ _ => Ok 0 |};
     POST_MINTER := fun _ => unreachable;
     TRIBE_CONTROLLER := fun _ => unreachable;
     PROFILE_NFT_MINTER := fun _ => unreachable |}.

(** Valid events at 0, 1 and 2 and the sentinel at 3. *)
Definition three_events : list (result RawEvent) :=
  [Ok (slot 100); Ok (slot 50); Ok (slot 7); Ok (slot 0)].

(** The same store with a transport error at index 1. *)
Definition three_events_error_at_1 : list (result RawEvent) :=
  [Ok (slot 100); unreachable; Ok (slot 7); Ok (slot 0)].

Definition signer_of (provider : Provider) : Signer :=
  {| signer_provider := provider;
     getAddress := Ok (js "0xabc0000000000000000000000000000000000001") |}.

(** Receipts: a transfer and then the creation event of identifier 5;
    no creation event; the creation event of identifier 0. *)
Definition Transfer_then_EventCreated : list Log :=
  [AbiLog {| name := js "Transfer"; args := [9; 1] |};
   AbiLog {| name := js "EventCreated"; args := [5; 100] |}].

Definition Transfer_only : list Log :=
  [AbiLog {| name := js "Transfer"; args := [9; 1] |}].

Definition EventCreated_zero : list Log :=
  [AbiLog {| name := js "EventCreated"; args := [0; 100] |}].

End Fixtures.

Module PostFixtures.

Import PostMinter Fixtures.

(** Three instants in ISO form and the time values [Date] gives them. *)
Definition day1 : jstring := js "2024-01-01T00:00:00.000Z".
Definition day2 : jstring := js "2024-01-02T00:00:00.000Z".
Definition day3 : jstring := js "2024-01-03T00:00:00.000Z".

(** [new Date(v).getTime()] on the three instants; [NaN] elsewhere. *)
Definition calendar (v : option json) : result JsNumber :=
  match v with
  | Some (JString s) =>
    if jstring_eqb s day1 then Ok (Int 1704067200000)
    else if jstring_eqb s day2 then Ok (Int 1704153600000)
    else if jstring_eqb s day3 then Ok (Int 1704240000000)
    else Ok NaN
  | _ => Ok NaN
  end.

(** The entry of a table under a key; a key without entry is a failed
    call. *)
Fixpoint entry {A : Type} (key : jstring) (table : list (jstring * result A))
  : result A :=
  match table with
  | [] => unreachable
  | (k, v) :: rest => if jstring_eqb key k then v else entry key rest
  end.

(** A provider whose PostMinter answers from two tables. *)
Definition post_ledger (pages : list (jstring * result (list Z)))
    (posts : list (jstring * result RawPost)) : Provider :=
  {| EVENT_CONTROLLER := fun _ => unreachable;
     POST_MINTER := fun _ =>
       Ok {| pm_getPostsByTribe := fun tribeId _ _ =>
               postIds <- entry tribeId pages ;;
               Ok {| raw_postIds := postIds;
                     raw_total := Z.of_nat (List.length postIds) |};
             pm_getPost := fun postId => entry postId posts;
             pm_createPost := fun _ _ _ _ _ => unreachable |};
     TRIBE_CONTROLLER := fun _ => unreachable;
     PROFILE_NFT_MINTER := fun _ => unreachable |}.

(** A stored post with the given metadata blob. *)
Definition stored (tribe : Z) (blob : jstring) : RawPost :=
  {| raw_creator := js "0xabc0000000000000000000000000000000000001";
     raw_tribeId := tribe;
     raw_metadata := blob;
     raw_isGated := false;
     raw_collectibleContract := ZeroAddress;
     raw_collectibleId := 0;
     raw_isEncrypted := false;
     raw_accessSigner := ZeroAddress |}.

(** The metadata of a text post written at the given instant, and the
    blob [createTextPost] stores for it. *)
Definition text_metadata (title createdAt : jstring) : PostMetadata :=
  {| title := title; content := js "hello"; type := TEXT;
     createdAt := createdAt; imageUrl := None |}.

Definition text_blob (title createdAt : jstring) : jstring :=
  JSON_stringify (metadata_object (text_metadata title createdAt)).

(** Tribes 1 and 3 enumerate, tribe 2 fails. *)
Definition pages : list (jstring * result (list Z)) :=
  [(js "1", Ok [1; 2]); (js "2", unreachable); (js "3", Ok [3])].

Definition healthy_posts : list (jstring * result RawPost) :=
  [(js "1", Ok (stored 1 (text_blob (js "first") day1)));
   (js "2", Ok (stored 1 (text_blob (js "second") day3)));
   (js "3", Ok (stored 3 (text_blob (js "third") day2)))].

(** The same posts with the fetch of post 3 failing. *)
Definition posts_with_failure : list (jstring * result RawPost) :=
  [(js "1", Ok (stored 1 (text_blob (js "first") day1)));
   (js "2", Ok (stored 1 (text_blob (js "second") day3)));
   (js "3", unreachable)].

(** The same posts with the blob of post 3 the JSON text [null]. *)
Definition posts_with_null : list (jstring * result RawPost) :=
  [(js "1", Ok (stored 1 (text_blob (js "first") day1)));
   (js "2", Ok (stored 1 (text_blob (js "second") day3)));
   (js "3", Ok (stored 3 (js "null")))].

(** A post whose blob is not JSON. *)
Definition posts_with_corruption : list (jstring * result RawPost) :=
  [(js "1", Ok (stored 1 (text_blob (js "first") day1)));
   (js "4", Ok (stored 1 (js "{title: oops")))].

(** What [getPost] makes of a stored post. *)
Definition fetched (postId : jstring) (tribe : Z) (metadata : json) : Post :=
  {| id := postId;
     creator := js "0xabc0000000000000000000000000000000000001";
     tribeId := toString tribe;
     metadata := metadata;
     isGated := false;
     collectibleContract := ZeroAddress;
     collectibleId := js "0";
     isEncrypted := false;
     accessSigner := ZeroAddress |}.

End PostFixtures.

Module ProfileFixtures.

Import Fixtures.

Definition alice : jstring := js "0xA11CE00000000000000000000000000000000001".
Definition bob : jstring := js "0xB0B0000000000000000000000000000000000002".

(** A ProfileNFTMinter with thirteen profiles minted: token 12 is
    alice's, tokens 0 to 11 are bob's. *)
Definition thirteen_profiles : Provider :=
  {| EVENT_CONTROLLER := fun _ => unreachable;
     POST_MINTER := fun _ => unreachable;
     TRIBE_CONTROLLER := fun _ => unreachable;
     PROFILE_NFT_MINTER := fun _ =>
       Ok {| pn_balanceOf := fun address =>
               if jstring_eqb address alice then Ok 1 else Ok 12;
             pn_ownerOf := fun tokenId =>
               if tokenId =? 12 then Ok alice
               else if (0 <=? tokenId) && (tokenId <? 12) then Ok bob
               else Throw (TransportError "execution reverted");
             pn_getProfileByTokenId := fun tokenId =>
               if tokenId =? 12
               then Ok (js "alice", js "{}", alice)
               else Ok (js "bob", js "{}", bob);
             pn_usernameExists := fun _ => Ok true |} |}.

End ProfileFixtures.

Module WalletFixtures.

Import EventController Fixtures.

(** A transaction that is mined. *)
Definition confirmed : TransactionResponse :=
  {| hash := js "0x02"; wait := Ok {| logs := [] |} |}.

(** A wallet that signs and sends every transaction, and one whose
    user rejects every transaction. *)
Definition signing : Connect :=
  {| connect_EventController := fun _ _ =>
       {| ecw_purchaseTickets := fun _ _ _ => Ok confirmed;
          ecw_cancelEvent := fun _ => Ok confirmed;
          ecw_updateEventMetadata := fun _ _ => Ok confirmed |};
     connect_TribeController := fun _ _ =>
       {| tcw_joinTribe := fun _ => Ok confirmed;
          tcw_createTribe := fun _ _ _ _ _ _ => Ok confirmed;
          tcw_rejectMember := fun _ => Ok confirmed |};
     connect_ProfileNFTMinter := fun _ _ =>
       {| pnw_createProfile := fun _ _ => Ok confirmed;
          pnw_updateProfileMetadata := fun _ _ => Ok confirmed |} |}.

Definition rejecting : Connect :=
  {| connect_EventController := fun _ _ =>
       {| ecw_purchaseTickets := fun _ _ _ => unreachable;
          ecw_cancelEvent := fun _ => unreachable;
          ecw_updateEventMetadata := fun _ _ => unreachable |};
     connect_TribeController := fun _ _ =>
       {| tcw_joinTribe := fun _ => unreachable;
          tcw_createTribe := fun _ _ _ _ _ _ => unreachable;
          tcw_rejectMember := fun _ => unreachable |};
     connect_ProfileNFTMinter := fun _ _ =>
       {| pnw_createProfile := fun _ _ => unreachable;
          pnw_updateProfileMetadata := fun _ _ => unreachable |} |}.

(** [new Error(message)] in the examples: the error type has no
    constructor of its own for it, the message is not looked at. *)
Definition plain_Error (message : jstring) : JsError :=
  TypeError "Error".

(** The state of the events context before the first load. *)
Definition events_initial (isOrganizer : bool) : EventsContext.State :=
  {| EventsContext.allEvents := [];
     EventsContext.userEvents := [];
     EventsContext.loading := true;
     EventsContext.error := None;
     EventsContext.isOrganizer := isOrganizer;
     EventsContext.loadingRole := false |}.

(** The organizer of the events of [slot], in the case the wallet
    reports it, and another account. *)
Definition organizer_account : jstring :=
  js "0xabc0000000000000000000000000000000000001".

Definition other_account : jstring :=
  js "0xdef0000000000000000000000000000000000002".

End WalletFixtures.

Module TribeFixtures.

Import TribeController TribeControllerWrite Fixtures PostFixtures.

(** A stored tribe with the given name and metadata blob. *)
Definition stored_tribe (name blob : jstring) : RawTribe :=
  {| raw_name := name;
     raw_tribe_metadata := blob;
     raw_joinType := 0;
     raw_entryFee := 0;
     raw_memberCount := 1;
     raw_canMerge := false;
     raw_admin := js "0xabc0000000000000000000000000000000000001";
     raw_isActive := true |}.

(** What [getTribeDetails] makes of a stored tribe. *)
Definition listed_tribe (tribeId name : jstring) (description : json) : Tribe :=
  {| id := tribeId;
     name := name;
     description := description;
     joinType := 0;
     entryFee := js "0";
     memberCount := 1;
     canMerge := false;
     admin := js "0xabc0000000000000000000000000000000000001";
     isActive := true |}.

(** The TribeController of a table of tribes under a counter. *)
Definition tribe_contract (counter : result Z)
    (table : list (jstring * result RawTribe)) : TribeControllerContract :=
  {| tc_nextTribeId := counter;
     tc_getTribeDetails := fun tribeId => entry tribeId table;
     tc_isMember := fun _ _ => Ok false |}.

Definition tribe_ledger (counter : result Z)
    (table : list (jstring * result RawTribe)) : Provider :=
  {| EVENT_CONTROLLER := fun _ => unreachable;
     POST_MINTER := fun _ => unreachable;
     TRIBE_CONTROLLER := fun _ => Ok (tribe_contract counter table);
     PROFILE_NFT_MINTER := fun _ => unreachable |}.

(** Tribes 0 and 2 are stored, as [createTribe] writes them on day 1;
    the details of tribe 1 cannot be read; tribe 3 holds metadata that
    is not JSON. *)
Definition four_tribes : list (jstring * result RawTribe) :=
  [(js "0", Ok (stored_tribe (js "Builders")
                  (JSON_stringify (tribe_metadata day1 (js "We build")))));
   (js "1", unreachable);
   (js "2", Ok (stored_tribe (js "Readers")
                  (JSON_stringify (tribe_metadata day1 (js "We read")))));
   (js "3", Ok (stored_tribe (js "Broken") (js "description: none")))].

End TribeFixtures.

Module ProfileWriteFixtures.

Import ProfileContext ProfileProvider Fixtures ProfileFixtures.

(** A ProfileNFTMinter without profiles that answers the question
    whether a username exists as given. *)
Definition registry (usernameExists : result bool) : Provider :=
  {| EVENT_CONTROLLER := fun _ => unreachable;
     POST_MINTER := fun _ => unreachable;
     TRIBE_CONTROLLER := fun _ => unreachable;
     PROFILE_NFT_MINTER := fun _ =>
       Ok {| pn_balanceOf := fun _ => Ok 0;
             pn_ownerOf := fun _ => Throw (TransportError "execution reverted");
             pn_getProfileByTokenId := fun _ =>
               Throw (TransportError "execution reverted");
             pn_usernameExists := fun _ => usernameExists |} |}.

(** A profile with a biography and two links. *)
Definition carol : ProfileMetadata :=
  {| name := js "Carol";
     bio := Some (js "oils \ ink");
     avatar := None;
     coverImage := None;
     socialLinks :=
       Some {| twitter := Some (js "@carol");
               telegram := None;
               discord := None;
               website := Some (js "https://carol.example") |} |}.

(** The state of the profile context before the first load. *)
Definition profile_initial : State :=
  {| profile := None; loading := true; error := None |}.

End ProfileWriteFixtures.

(* ================================================================== *)
(** * Properties of eventController *)
(* ================================================================== *)

Section EventControllerFacts.

Import EventController.

Lemma jstring_eqb_refl (a : jstring) : jstring_eqb a a = true.
Proof.
  induction a as [|x a IH]; simpl; [reflexivity|].
  now rewrite N.eqb_refl, IH.
Qed.

Lemma jstring_eqb_eq (a b : jstring) : jstring_eqb a b = true <-> a = b.
Proof.
  split; [|intros ->; apply jstring_eqb_refl].
  revert b; induction a as [|x a IH]; intros [|y b]; simpl; try discriminate; auto.
  intros H; apply andb_true_iff in H as [Hx Hab].
  apply N.eqb_eq in Hx; subst y; f_equal; now apply IH.
Qed.

Lemma jstring_eqb_neq (a b : jstring) : a <> b -> jstring_eqb a b = false.
Proof.
  intros Hne; destruct (jstring_eqb a b) eqn:E; [|reflexivity].
  now apply jstring_eqb_eq in E.
Qed.

Variable contract : EventControllerContract.
Variable maxEvents : Z.

(** The events pushed so far stay in front of those pushed later. *)
Lemma getAllEvents_loop_acc (fuel : nat) :
  forall eventId events,
    getAllEvents_loop contract maxEvents fuel eventId events =
    events ++ getAllEvents_loop contract maxEvents fuel eventId [].
Proof.
  induction fuel as [|fuel IH]; intros eventId events; simpl.
  - now rewrite app_nil_r.
  - destruct (eventId <? maxEvents); [|now rewrite app_nil_r].
    destruct (fetchSlot contract eventId) as [event|e]; [|apply IH].
    destruct (negb (isValid event)); [now rewrite app_nil_r|].
    rewrite IH, (IH _ ([] ++ [event])); simpl.
    now rewrite <- app_assoc.
Qed.

(** [Z.to_nat (maxEvents - eventId)] iterations are enough: with that
    much fuel or more the loop ends by its own test or by [break]. *)
Lemma getAllEvents_loop_fuel (fuel : nat) :
  forall eventId events,
    (Z.to_nat (maxEvents - eventId) <= fuel)%nat ->
    getAllEvents_loop contract maxEvents fuel eventId events =
    getAllEvents_loop contract maxEvents
      (Z.to_nat (maxEvents - eventId)) eventId events.
Proof.
  induction fuel as [|fuel IH]; intros eventId events Hfuel.
  - now replace (Z.to_nat (maxEvents - eventId)) with 0%nat by lia.
  - destruct (Z.ltb_spec eventId maxEvents) as [Hlt|Hge].
    + replace (Z.to_nat (maxEvents - eventId))
        with (S (Z.to_nat (maxEvents - (eventId + 1)))) by lia.
      simpl. apply Z.ltb_lt in Hlt; rewrite Hlt.
      destruct (fetchSlot contract eventId) as [event|e].
      * destruct (negb (isValid event)); [reflexivity|].
        apply IH; lia.
      * apply IH; lia.
    + replace (Z.to_nat (maxEvents - eventId)) with 0%nat by lia.
      simpl. apply Z.ltb_ge in Hge; now rewrite Hge.
Qed.

(** The double of a bigint has the sign of the bigint. *)
Lemma Number_positive (b : Z) : (0 <? Number b) = (0 <? b).
Proof.
  unfold Number.
  destruct (Z.ltb_spec (Z.abs b) (2 ^ 53)) as [|Hbig]; [reflexivity|].
  set (a := Z.abs b) in *.
  set (e := Z.log2 a - 52).
  assert (Ha : 0 < a) by (pose proof (Z.pow_pos_nonneg 2 53); lia).
  assert (He : 0 <= e).
  { pose proof (Z.log2_le_mono _ _ Hbig) as Hlog.
    rewrite Z.log2_pow2 in Hlog by lia. unfold e; lia. }
  assert (Hpow : 0 < 2 ^ e) by (apply Z.pow_pos_nonneg; lia).
  assert (Hq : 0 < a / 2 ^ e).
  { apply Z.div_str_pos; split; [exact Hpow|].
    transitivity (2 ^ Z.log2 a); [apply Z.pow_le_mono_r; unfold e; lia|].
    apply Z.log2_spec; exact Ha. }
  set (q := a / 2 ^ e) in *.
  assert (Hrounded : 0 <
    (if a mod 2 ^ e <? 2 ^ (e - 1) then q
     else if 2 ^ (e - 1) <? a mod 2 ^ e then q + 1
     else if Z.even q then q else q + 1) * 2 ^ e).
  { apply Z.mul_pos_pos; [|exact Hpow].
    destruct (_ <? _); [lia|]. destruct (_ <? _); [lia|].
    destruct (Z.even q); lia. }
  destruct (Z.ltb_spec 0 b) as [Hpos|Hneg].
  - rewrite Z.sgn_pos by exact Hpos. apply Z.ltb_lt; lia.
  - assert (b < 0) by (unfold a in Ha; lia).
    rewrite Z.sgn_neg by assumption. apply Z.ltb_ge; lia.
Qed.

(** An integer of magnitude up to 2^53 is its own double. *)
Lemma Number_safe (b : Z) : Z.abs b <= 2 ^ 53 -> Number b = b.
Proof.
  intros Hsafe; unfold Number.
  destruct (Z.ltb_spec (Z.abs b) (2 ^ 53)) as [|Hbig]; [reflexivity|].
  assert (Habs : Z.abs b = 2 ^ 53) by lia.
  destruct (Z.abs_eq_or_opp b) as [Heq|Heq]; rewrite Heq in Habs.
  - subst b. reflexivity.
  - assert (b = - 2 ^ 53) by lia. subst b. reflexivity.
Qed.

Lemma isValid_newEventImpl (eventId : jstring) (eventData : RawEvent) :
  isValid (newEventImpl eventId eventData) = (0 <? raw_maxTickets eventData).
Proof. unfold isValid; cbn [newEventImpl maxTickets]; apply Number_positive. Qed.

(** One iteration on a slot that holds a valid event. *)
Lemma getAllEvents_loop_valid (fuel : nat) (eventId : Z) events eventData :
  eventId < maxEvents ->
  ec_events contract (toString eventId) = Ok eventData ->
  0 < raw_maxTickets eventData ->
  getAllEvents_loop contract maxEvents (S fuel) eventId events =
  getAllEvents_loop contract maxEvents fuel (eventId + 1)
    (events ++ [newEventImpl (toString eventId) eventData]).
Proof.
  intros Hlt Hcall Hpos; simpl.
  apply Z.ltb_lt in Hlt; rewrite Hlt.
  unfold fetchSlot, safeContractCall; rewrite Hcall; simpl.
  rewrite isValid_newEventImpl.
  apply Z.ltb_lt in Hpos; now rewrite Hpos.
Qed.

(** One iteration on a slot whose fetch throws. *)
Lemma getAllEvents_loop_throw (fuel : nat) (eventId : Z) events e :
  eventId < maxEvents ->
  ec_events contract (toString eventId) = Throw e ->
  getAllEvents_loop contract maxEvents (S fuel) eventId events =
  getAllEvents_loop contract maxEvents fuel (eventId + 1) events.
Proof.
  intros Hlt Hcall; simpl.
  apply Z.ltb_lt in Hlt; rewrite Hlt.
  unfold fetchSlot, safeContractCall; now rewrite Hcall.
Qed.

(** One iteration on the sentinel. *)
Lemma getAllEvents_loop_sentinel (fuel : nat) (eventId : Z) events eventData :
  ec_events contract (toString eventId) = Ok eventData ->
  raw_maxTickets eventData <= 0 ->
  getAllEvents_loop contract maxEvents (S fuel) eventId events = events.
Proof.
  intros Hcall Hzero; simpl.
  destruct (eventId <? maxEvents); [|reflexivity].
  unfold fetchSlot, safeContractCall; rewrite Hcall; simpl.
  rewrite isValid_newEventImpl.
  apply Z.ltb_ge in Hzero; now rewrite Hzero.
Qed.

(** A run of [d] valid slots from index [s] pushes their events in
    index order. *)
Lemma getAllEvents_loop_valid_run (slots : nat -> RawEvent) (d : nat) :
  forall (s fuel : nat) events,
    (forall j, (s <= j < s + d)%nat ->
       ec_events contract (toString (Z.of_nat j)) = Ok (slots j) /\
       0 < raw_maxTickets (slots j)) ->
    Z.of_nat (s + d) <= maxEvents ->
    getAllEvents_loop contract maxEvents (d + fuel) (Z.of_nat s) events =
    getAllEvents_loop contract maxEvents fuel (Z.of_nat (s + d))
      (events ++
       map (fun j => newEventImpl (toString (Z.of_nat j)) (slots j)) (seq s d)).
Proof.
  induction d as [|d IH]; intros s fuel events Hslots Hmax.
  - simpl. now rewrite Nat.add_0_r, app_nil_r.
  - destruct (Hslots s ltac:(lia)) as [Hcall Hpos].
    change (S d + fuel)%nat with (S (d + fuel)).
    rewrite (getAllEvents_loop_valid (d + fuel) (Z.of_nat s) events (slots s))
      by (assumption || lia).
    replace (Z.of_nat s + 1) with (Z.of_nat (S s)) by lia.
    rewrite IH by (try lia; intros j Hj; apply Hslots; lia).
    replace (S s + d)%nat with (s + S d)%nat by lia.
    simpl. now rewrite <- app_assoc.
Qed.

(** A run of [d] slots from index [i] none of which is a sentinel: the
    loop gets past them, having pushed what the loop bounded by
    [i + d] pushes. *)
Lemma getAllEvents_loop_split (d : nat) :
  forall (i : Z) (fuel : nat) events,
    (forall j eventData, i <= j < i + Z.of_nat d ->
       ec_events contract (toString j) = Ok eventData ->
       0 < raw_maxTickets eventData) ->
    i + Z.of_nat d <= maxEvents ->
    getAllEvents_loop contract maxEvents (d + fuel) i events =
    getAllEvents_loop contract maxEvents fuel (i + Z.of_nat d)
      (getAllEvents_loop contract (i + Z.of_nat d) d i events).
Proof.
  induction d as [|d IH]; intros i fuel events Hslots Hmax.
  - simpl. now rewrite Z.add_0_r.
  - remember (i + Z.of_nat (S d)) as k eqn:Hk.
    assert (Hstep : forall evs,
      getAllEvents_loop contract maxEvents (d + fuel) (i + 1) evs =
      getAllEvents_loop contract maxEvents fuel k
        (getAllEvents_loop contract k d (i + 1) evs)).
    { intros evs.
      replace k with (i + 1 + Z.of_nat d) by lia.
      apply IH; [|lia].
      intros j eventData Hj; apply Hslots; lia. }
    change (S d + fuel)%nat with (S (d + fuel)).
    cbn [getAllEvents_loop].
    destruct (Z.ltb_spec i maxEvents) as [_|]; [|lia].
    destruct (Z.ltb_spec i k) as [_|]; [|lia].
    unfold fetchSlot, safeContractCall.
    destruct (ec_events contract (toString i)) as [eventData|e] eqn:Hcall;
      cbn [bind]; [|apply Hstep].
    rewrite isValid_newEventImpl.
    assert (Hpos : 0 < raw_maxTickets eventData)
      by (apply (Hslots i); [lia|exact Hcall]).
    apply Z.ltb_lt in Hpos; rewrite Hpos; cbn [negb].
    apply Hstep.
Qed.

End EventControllerFacts.

Section EventControllerClaims.

Import EventController Fixtures.

(** C1.  When the slots at indices 0 .. n-1 hold valid events
    (maxTickets > 0) and the slot at index n < maxEvents holds the
    sentinel (maxTickets = 0), [getAllEvents] returns exactly the n
    valid events in ascending index order: it stops at the first
    sentinel. *)
Theorem getAllEvents_valid_prefix :
  forall (provider : Provider) (chainId : Z) (contract : EventControllerContract)
         (maxEvents : Z) (n : nat) (slots : nat -> RawEvent) (sentinel : RawEvent),
    getEventControllerContract provider chainId = Ok contract ->
    (forall i, (i < n)%nat ->
       ec_events contract (toString (Z.of_nat i)) = Ok (slots i) /\
       0 < raw_maxTickets (slots i)) ->
    ec_events contract (toString (Z.of_nat n)) = Ok sentinel ->
    raw_maxTickets sentinel = 0 ->
    Z.of_nat n < maxEvents ->
    getAllEvents provider chainId maxEvents =
    Ok (map (fun i => newEventImpl (toString (Z.of_nat i)) (slots i)) (seq 0 n)).
Proof.
  intros provider chainId contract maxEvents n slots sentinel
         Hcontract Hvalid Hsentinel Hzero Hlt.
  unfold getAllEvents; rewrite Hcontract; cbn [bind try_catch].
  f_equal.
  replace (Z.to_nat maxEvents)
    with (n + S (Z.to_nat maxEvents - S n))%nat by lia.
  rewrite (getAllEvents_loop_valid_run contract maxEvents slots n 0%nat)
    by (try (simpl; lia); intros j Hj; apply Hvalid; lia).
  simpl app.
  erewrite getAllEvents_loop_sentinel; [reflexivity|exact Hsentinel|lia].
Qed.

(** The store of the specification's scenario: valid events at 0, 1, 2
    and the sentinel at 3, read with maxEvents = 20. *)
Lemma getAllEvents_valid_prefix_witness :
  getAllEvents (event_ledger three_events []) 1 20 =
  Ok [newEventImpl (js "0") (slot 100);
      newEventImpl (js "1") (slot 50);
      newEventImpl (js "2") (slot 7)].
Proof.
  apply (getAllEvents_valid_prefix (event_ledger three_events []) 1
           {| ec_events := table_events three_events 0;
              ec_createEvent := fun _ _ _ =>
                Ok {| hash := js "0x01"; wait := Ok {| logs := [] |} |};
              ec_balanceOf := fun _ _ => Ok 0 |}
           20 3
           (fun i => match i with
                     | 0%nat => slot 100
                     | 1%nat => slot 50
                     | _ => slot 7
                     end)
           (slot 0)).
  - reflexivity.
  - intros i Hi.
    destruct i as [|[|[|i]]]; [split; reflexivity ..|lia].
  - reflexivity.
  - reflexivity.
  - reflexivity.
Defined.

(** C2.  A fetch that throws at index k does not end the enumeration:
    when no sentinel stands before k and the slot at k+1 < maxEvents
    holds a valid event, the result is what the enumeration bounded by
    k returns, followed at once by the event at k+1 (nothing is kept of
    index k), followed by what comes after. *)
Theorem getAllEvents_skips_failed_fetch :
  forall (provider : Provider) (chainId : Z) (contract : EventControllerContract)
         (maxEvents k : Z) (e : JsError) (next : RawEvent),
    getEventControllerContract provider chainId = Ok contract ->
    0 <= k ->
    k + 1 < maxEvents ->
    (forall j eventData, 0 <= j < k ->
       ec_events contract (toString j) = Ok eventData ->
       0 < raw_maxTickets eventData) ->
    ec_events contract (toString k) = Throw e ->
    ec_events contract (toString (k + 1)) = Ok next ->
    0 < raw_maxTickets next ->
    exists before after,
      getAllEvents provider chainId k = Ok before /\
      getAllEvents provider chainId maxEvents =
      Ok (before ++ newEventImpl (toString (k + 1)) next :: after).
Proof.
  intros provider chainId contract maxEvents k e next
         Hcontract Hk Hmax Hprefix Hthrow Hnext Hpos.
  exists (getAllEvents_loop contract k (Z.to_nat k) 0 []).
  exists (getAllEvents_loop contract maxEvents
            (Z.to_nat maxEvents - Z.to_nat k - 2) (k + 2) []).
  unfold getAllEvents; rewrite Hcontract; cbn [bind try_catch].
  split; [reflexivity|f_equal].
  remember (Z.to_nat maxEvents - Z.to_nat k - 2)%nat as fuel eqn:Hfuel.
  replace (Z.to_nat maxEvents) with (Z.to_nat k + S (S fuel))%nat by lia.
  rewrite getAllEvents_loop_split
    by (rewrite ?Z2Nat.id by lia; try lia;
        intros j eventData Hj; apply Hprefix; lia).
  rewrite Z2Nat.id, Z.add_0_l by lia.
  erewrite getAllEvents_loop_throw; [|lia|exact Hthrow].
  erewrite getAllEvents_loop_valid; [|lia|exact Hnext|exact Hpos].
  rewrite getAllEvents_loop_acc, <- app_assoc.
  now replace (k + 1 + 1) with (k + 2) by lia.
Qed.

(** The scenario of the specification: valid events at 0, 1, 2, the
    sentinel at 3 and a transport error at index 1 give the events of
    indices 0 and 2. *)
Lemma getAllEvents_skips_failed_fetch_witness :
  (exists before after,
     getAllEvents (event_ledger three_events_error_at_1 []) 1 1 = Ok before /\
     getAllEvents (event_ledger three_events_error_at_1 []) 1 20 =
     Ok (before ++ newEventImpl (js "2") (slot 7) :: after)) /\
  getAllEvents (event_ledger three_events_error_at_1 []) 1 20 =
  Ok [newEventImpl (js "0") (slot 100); newEventImpl (js "2") (slot 7)].
Proof.
  split; [|reflexivity].
  apply (getAllEvents_skips_failed_fetch
           (event_ledger three_events_error_at_1 []) 1
           {| ec_events := table_events three_events_error_at_1 0;
              ec_createEvent := fun _ _ _ =>
                Ok {| hash := js "0x01"; wait := Ok {| logs := [] |} |};
              ec_balanceOf := fun _ _ => Ok 0 |}
           20 1 (TransportError "network unreachable") (slot 7)).
  - reflexivity.
  - lia.
  - lia.
  - intros j eventData Hj.
    replace j with 0 by lia.
    intros Hcall; injection Hcall as <-; reflexivity.
  - reflexivity.
  - reflexivity.
  - reflexivity.
Defined.

(** Logs that are not the creation event are passed over: those that
    do not parse, those of another contract, those of another name. *)
Lemma extractEventId_skip (skipped rest : list Log) :
  (forall parsed, In (AbiLog parsed) skipped ->
     name parsed <> js "EventCreated") ->
  extractEventId (skipped ++ rest) = extractEventId rest.
Proof.
  induction skipped as [|log skipped IH]; intros Hskip; [reflexivity|].
  assert (IH' : extractEventId (skipped ++ rest) = extractEventId rest)
    by (apply IH; intros parsed Hin; apply Hskip; now right).
  destruct log as [e| |parsed]; simpl; try exact IH'.
  rewrite jstring_eqb_neq by (apply Hskip; now left).
  exact IH'.
Qed.

(** Without a creation event among the logs the loop falls through to
    [return 0]. *)
Lemma extractEventId_no_creation_event (receipt_logs : list Log) :
  (forall parsed, In (AbiLog parsed) receipt_logs ->
     name parsed <> js "EventCreated") ->
  extractEventId receipt_logs = Int 0.
Proof.
  intros Hnone.
  rewrite <- (app_nil_r receipt_logs).
  now rewrite extractEventId_skip.
Qed.

(** C7.  On a confirmed transaction whose receipt holds an event named
    EventCreated, [createEvent] returns the first argument of the
    first such event, whatever stands before it: logs that do not
    parse, logs of other contracts and events of other names are
    skipped.  The argument is a 256-bit identifier and is returned as
    [Number(eventId)], the double nearest to it: the identifier itself
    up to 2^53, its 53 leading bits rounded beyond. *)
Theorem createEvent_selects_by_name :
  forall (signer : Signer) (chainId : Z) (eventData : json) (maxTickets : Z)
         (price : jstring) (contract : EventControllerContract)
         (tx : TransactionResponse) (receipt : TransactionReceipt)
         (skipped later : list Log) (eventId : Z) (more_args : list Z),
    getEventControllerContract (signer_provider signer) chainId = Ok contract ->
    ec_createEvent contract (JSON_stringify eventData) maxTickets price = Ok tx ->
    wait tx = Ok receipt ->
    logs receipt =
      skipped ++
      AbiLog {| name := js "EventCreated"; args := eventId :: more_args |}
      :: later ->
    (forall parsed, In (AbiLog parsed) skipped ->
       name parsed <> js "EventCreated") ->
    0 <= eventId < 2 ^ 256 ->
    createEvent signer chainId eventData maxTickets price
    = Ok (Int (Number eventId)) /\
    (eventId <= 2 ^ 53 ->
     createEvent signer chainId eventData maxTickets price = Ok (Int eventId)).
Proof.
  intros signer chainId eventData maxTickets price contract tx receipt
         skipped later eventId more_args Hcontract Hsend Hwait Hlogs Hskip
         Hword.
  assert (Hreturned :
    createEvent signer chainId eventData maxTickets price
    = Ok (Int (Number eventId))).
  { unfold createEvent, safeContractCall.
    rewrite Hcontract; cbn [bind]; rewrite Hsend; cbn [bind].
    rewrite Hwait; cbn [bind try_catch].
    rewrite Hlogs, extractEventId_skip by exact Hskip.
    cbn [extractEventId parseLog].
    now rewrite jstring_eqb_refl. }
  split; [exact Hreturned|].
  intros Hsafe; rewrite Hreturned, Number_safe; [reflexivity|].
  rewrite Z.abs_eq; lia.
Qed.

(** A receipt of two events of which only the second is named
    EventCreated: the identifier of the second is returned.  An
    identifier of 2^53 + 1 is returned as 2^53. *)
Lemma createEvent_selects_by_name_witness :
  createEvent (signer_of (event_ledger [] Transfer_then_EventCreated)) 1
    (JObject []) 100 (js "1.0") = Ok (Int 5) /\
  createEvent
    (signer_of
       (event_ledger []
          [AbiLog {| name := js "EventCreated";
                     args := [9007199254740993; 100] |}])) 1
    (JObject []) 100 (js "1.0") = Ok (Int 9007199254740992).
Proof.
  split.
  - apply (proj2 (createEvent_selects_by_name
             (signer_of (event_ledger [] Transfer_then_EventCreated)) 1
             (JObject []) 100 (js "1.0")
             {| ec_events := table_events [] 0;
                ec_createEvent := fun _ _ _ =>
                  Ok {| hash := js "0x01";
                        wait := Ok {| logs := Transfer_then_EventCreated |} |};
                ec_balanceOf := fun _ _ => Ok 0 |}
             {| hash := js "0x01";
                wait := Ok {| logs := Transfer_then_EventCreated |} |}
             {| logs := Transfer_then_EventCreated |}
             [AbiLog {| name := js "Transfer"; args := [9; 1] |}]
             [] 5 [100] eq_refl eq_refl eq_refl eq_refl
             ltac:(intros parsed [Heq|[]]; injection Heq as <-; discriminate)
             ltac:(split; [discriminate|reflexivity]))).
    discriminate.
  - exact (proj1 (createEvent_selects_by_name
             (signer_of
                (event_ledger []
                   [AbiLog {| name := js "EventCreated";
                              args := [9007199254740993; 100] |}])) 1
             (JObject []) 100 (js "1.0")
             {| ec_events := table_events [] 0;
                ec_createEvent := fun _ _ _ =>
                  Ok {| hash := js "0x01";
                        wait :=
                          Ok {| logs :=
                                  [AbiLog {| name := js "EventCreated";
                                             args := [9007199254740993; 100] |}]
                             |} |};
                ec_balanceOf := fun _ _ => Ok 0 |}
             {| hash := js "0x01";
                wait :=
                  Ok {| logs :=
                          [AbiLog {| name := js "EventCreated";
                                     args := [9007199254740993; 100] |}] |} |}
             {| logs := [AbiLog {| name := js "EventCreated";
                                   args := [9007199254740993; 100] |}] |}
             [] [] 9007199254740993 [100] eq_refl eq_refl eq_refl eq_refl
             ltac:(intros parsed [])
             ltac:(split; [discriminate|reflexivity]))).
Defined.

(** C3.  [createEvent] on a confirmed transaction whose receipt holds
    no EventCreated event returns the number 0, which is also what it
    returns when the event of identifier 0 was created: the two
    outcomes cannot be told apart. *)
Theorem createEvent_without_creation_event_returns_zero :
  createEvent (signer_of (event_ledger [] Transfer_only)) 1
    (JObject []) 100 (js "1.0") = Ok (Int 0) /\
  createEvent (signer_of (event_ledger [] EventCreated_zero)) 1
    (JObject []) 100 (js "1.0") = Ok (Int 0).
Proof. split; reflexivity. Qed.

(** The validity test of the class. *)
Lemma isValid_iff (event : EventImpl) :
  isValid event = true <-> 0 < maxTickets event.
Proof. unfold isValid; apply Z.ltb_lt. Qed.

(** X20.  [getEvent] returns [null] exactly when the contract cannot
    be built, the fetch of the slot fails or the tuple fetched has no
    ticket: a failed read and an empty slot are not told apart. *)
Lemma getEvent_null_iff (provider : Provider) (chainId : Z) (eventId : jstring) :
  getEvent provider chainId eventId = Ok None <->
  (exists e, getEventControllerContract provider chainId = Throw e) \/
  (exists contract,
     getEventControllerContract provider chainId = Ok contract /\
     ((exists e, ec_events contract eventId = Throw e) \/
      (exists eventData,
         ec_events contract eventId = Ok eventData /\
         raw_maxTickets eventData <= 0))).
Proof.
  unfold getEvent, safeContractCall.
  destruct (getEventControllerContract provider chainId) as [contract|e];
    cbn [bind try_catch].
  - destruct (ec_events contract eventId) as [eventData|e] eqn:Hcall;
      cbn [bind try_catch].
    + rewrite isValid_newEventImpl.
      destruct (Z.ltb_spec 0 (raw_maxTickets eventData)) as [Hpos|Hzero];
        cbn [negb].
      * split; [discriminate|].
        intros [[e He]|[c [Hc [[e He]|[d [Hd Hle]]]]]]; try discriminate;
          injection Hc as <-.
        -- rewrite Hcall in He; discriminate.
        -- rewrite Hcall in Hd; injection Hd as <-; lia.
      * split; [intros _|reflexivity].
        right; exists contract; split; [reflexivity|].
        right; exists eventData; now split.
    + split; [intros _|reflexivity].
      right; exists contract; split; [reflexivity|].
      left; now exists e.
  - split; [intros _|reflexivity].
    left; now exists e.
Qed.

(** [getEvent] never throws, and an event it returns is valid. *)
Lemma getEvent_returns_valid (provider : Provider) (chainId : Z)
    (eventId : jstring) :
  getEvent provider chainId eventId = Ok None \/
  exists event,
    getEvent provider chainId eventId = Ok (Some event) /\
    isValid event = true.
Proof.
  unfold getEvent, safeContractCall.
  destruct (getEventControllerContract provider chainId) as [contract|e];
    cbn [bind try_catch]; [|now left].
  destruct (ec_events contract eventId) as [eventData|e];
    cbn [bind try_catch]; [|now left].
  destruct (isValid (newEventImpl eventId eventData)) eqn:Hvalid;
    cbn [negb]; [right|now left].
  eexists; split; [reflexivity|exact Hvalid].
Qed.

(** X21.  [eventExists] never throws, and it answers [true] exactly
    for a slot that is fetched with a positive ticket count; a slot
    that cannot be read counts as an event that does not exist. *)
Lemma eventExists_iff (provider : Provider) (chainId : Z) (eventId : jstring) :
  (eventExists provider chainId eventId = Ok true \/
   eventExists provider chainId eventId = Ok false) /\
  (eventExists provider chainId eventId = Ok true <->
   exists contract eventData,
     getEventControllerContract provider chainId = Ok contract /\
     ec_events contract eventId = Ok eventData /\
     0 < raw_maxTickets eventData).
Proof.
  unfold eventExists, getEvent, safeContractCall.
  destruct (getEventControllerContract provider chainId) as [contract|e];
    cbn [bind try_catch].
  - destruct (ec_events contract eventId) as [eventData|e] eqn:Hcall;
      cbn [bind try_catch].
    + rewrite isValid_newEventImpl.
      destruct (Z.ltb_spec 0 (raw_maxTickets eventData)) as [Hpos|Hzero];
        cbn [negb bind try_catch].
      * rewrite isValid_newEventImpl.
        apply Z.ltb_lt in Hpos as Hb; rewrite Hb.
        split; [now left|].
        split; [intros _|reflexivity].
        now exists contract, eventData.
      * split; [now right|].
        split; [discriminate|].
        intros [c [d [Hc [Hd Hpos]]]].
        injection Hc as <-. rewrite Hcall in Hd. injection Hd as <-. lia.
    + split; [now right|].
      split; [discriminate|].
      intros [c [d [Hc [Hd _]]]].
      injection Hc as <-. rewrite Hcall in Hd. discriminate.
  - split; [now right|].
    split; [discriminate|].
    intros [c [d [Hc _]]]; discriminate.
Qed.

(** The serialised view carries the constant [true]. *)
Lemma toJSON_isValid_constant (event : EventImpl) :
  json_isValid (toJSON event) = true.
Proof. reflexivity. Qed.

(** C4.  For the sentinel tuple (maxTickets = 0) the readers disagree:
    [isValid] is false, [getEvent] returns [null] and [eventExists]
    false, while the [toJSON] view of the same event says
    [isValid: true]. *)
Theorem toJSON_reports_sentinel_as_valid :
  isValid (newEventImpl (js "3") (slot 0)) = false /\
  getEvent (event_ledger three_events []) 1 (js "3") = Ok None /\
  eventExists (event_ledger three_events []) 1 (js "3") = Ok false /\
  json_isValid (toJSON (newEventImpl (js "3") (slot 0))) = true.
Proof. repeat split; reflexivity. Qed.

End EventControllerClaims.

(* ================================================================== *)
(** * Properties of JSON.stringify and JSON.parse *)
(* ================================================================== *)

Section JSONFacts.

Local Open Scope N_scope.

Lemma hex_value_hex_digit (n : N) :
  n < 16 -> hex_value (hex_digit n) = Some n.
Proof.
  intros Hn; unfold hex_value, hex_digit.
  destruct (N.ltb_spec n 10) as [Hlt|Hge].
  - destruct (N.leb_spec 48 (48 + n)); [|lia].
    destruct (N.leb_spec (48 + n) 57); [|lia].
    cbn [andb]; f_equal; lia.
  - destruct (N.leb_spec (87 + n) 57); [lia|].
    rewrite andb_false_r.
    destruct (N.leb_spec 97 (87 + n)); [|lia].
    destruct (N.leb_spec (87 + n) 102); [|lia].
    cbn [andb]; f_equal; lia.
Qed.

(** The four digits of an escape give the code unit back. *)
Lemma hex_digits_value (c : code_unit) :
  c / 4096 * 4096 + (c / 256) mod 16 * 256 + (c / 16) mod 16 * 16 + c mod 16 = c.
Proof.
  pose proof (N.div_mod' c 16) as H0.
  pose proof (N.div_mod' (c / 16) 16) as H1.
  pose proof (N.div_mod' (c / 256) 16) as H2.
  rewrite (N.Div0.div_div c 16 16) in H1.
  change (16 * 16) with 256 in H1.
  replace (c / 256 / 16) with (c / 4096) in H2
    by (rewrite N.Div0.div_div; reflexivity).
  lia.
Qed.

Lemma parse_string_body_unicode_escape (c : code_unit) (rest : jstring) :
  c < 65536 ->
  parse_string_body (unicode_escape c ++ rest) =
  match parse_string_body rest with
  | Some (s, out) => Some (c :: s, out)
  | None => None
  end.
Proof.
  intros Hc; unfold unicode_escape.
  cbn [app parse_string_body].
  change (92 =? 34) with false; change (92 =? 92) with true.
  change (117 =? 117) with true; cbv iota.
  rewrite (hex_value_hex_digit (c / 4096))
    by (apply N.Div0.div_lt_upper_bound; exact Hc).
  rewrite !hex_value_hex_digit by (apply N.mod_lt; discriminate).
  now rewrite hex_digits_value.
Qed.

(** A code unit that is copied as it stands. *)
Lemma parse_string_body_literal (c : code_unit) (rest : jstring) :
  32 <= c -> c <> 34 -> c <> 92 ->
  parse_string_body (c :: rest) =
  match parse_string_body rest with
  | Some (s, out) => Some (c :: s, out)
  | None => None
  end.
Proof.
  intros Hc Hq Hb; cbn [parse_string_body].
  destruct (N.eqb_spec c 34); [contradiction|].
  destruct (N.eqb_spec c 92); [contradiction|].
  destruct (N.ltb_spec c 32); [lia|reflexivity].
Qed.

Lemma parse_string_body_escape_unit (c : code_unit) (rest : jstring) :
  c < 65536 ->
  parse_string_body (escape_unit c ++ rest) =
  match parse_string_body rest with
  | Some (s, out) => Some (c :: s, out)
  | None => None
  end.
Proof.
  intros Hc; unfold escape_unit.
  destruct (N.eqb_spec c 8) as [->|]; [reflexivity|].
  destruct (N.eqb_spec c 9) as [->|]; [reflexivity|].
  destruct (N.eqb_spec c 10) as [->|]; [reflexivity|].
  destruct (N.eqb_spec c 12) as [->|]; [reflexivity|].
  destruct (N.eqb_spec c 13) as [->|]; [reflexivity|].
  destruct (N.eqb_spec c 34) as [->|]; [reflexivity|].
  destruct (N.eqb_spec c 92) as [->|]; [reflexivity|].
  destruct ((c <? 32) || is_low_surrogate c || is_high_surrogate c) eqn:Hesc.
  - now apply parse_string_body_unicode_escape.
  - apply orb_false_iff in Hesc as [Hesc _].
    apply orb_false_iff in Hesc as [Hctl _].
    apply N.ltb_ge in Hctl.
    now apply parse_string_body_literal.
Qed.

Lemma surrogate_is_literal (c : code_unit) :
  is_high_surrogate c = true \/ is_low_surrogate c = true ->
  32 <= c /\ c <> 34 /\ c <> 92.
Proof.
  unfold is_high_surrogate, is_low_surrogate.
  intros [H|H]; apply andb_true_iff in H as [H _]; apply N.leb_le in H; lia.
Qed.

(** The text [quote_units] writes for a string reads back as the
    string, up to the closing quote. *)
Lemma parse_string_body_quote_units (n : nat) :
  forall (s rest : jstring),
    (List.length s <= n)%nat ->
    well_formed s ->
    parse_string_body (quote_units s ++ 34 :: rest) = Some (s, rest).
Proof.
  induction n as [|n IH]; intros s rest Hlen Hwf.
  - destruct s; [reflexivity|simpl in Hlen; lia].
  - destruct s as [|c s]; [reflexivity|].
    apply Forall_cons_iff in Hwf as [Hc Hwf].
    simpl in Hlen.
    cbn [quote_units].
    destruct (is_high_surrogate c) eqn:Hhigh.
    + destruct s as [|d s].
      * now rewrite parse_string_body_unicode_escape.
      * destruct (is_low_surrogate d) eqn:Hlow.
        -- apply Forall_cons_iff in Hwf as [Hd Hwf].
           simpl in Hlen.
           destruct (surrogate_is_literal c (or_introl Hhigh)) as [? [? ?]].
           destruct (surrogate_is_literal d (or_intror Hlow)) as [? [? ?]].
           cbn [app].
           rewrite parse_string_body_literal by assumption.
           rewrite parse_string_body_literal by assumption.
           now rewrite IH by (assumption || lia).
        -- rewrite <- app_assoc.
           rewrite parse_string_body_unicode_escape by exact Hc.
           now rewrite IH by (assumption || lia).
    + rewrite <- app_assoc.
      rewrite parse_string_body_escape_unit by exact Hc.
      now rewrite IH by (assumption || lia).
Qed.

Lemma parse_string_body_quote (s rest : jstring) :
  well_formed s ->
  parse_string_body (quote_units s ++ 34 :: rest) = Some (s, rest).
Proof. now apply (parse_string_body_quote_units (List.length s)). Qed.

Lemma JSON_stringify_object (members : list (jstring * json)) :
  JSON_stringify (JObject members) = 123 :: members_text members ++ [125].
Proof. reflexivity. Qed.

Lemma skip_ws_quote (s rest : jstring) :
  skip_ws (quote s ++ rest) = quote s ++ rest.
Proof. reflexivity. Qed.

(** The unfolding of the parser by one call. *)
Lemma parse_members_unfold (fuel : nat) (input : jstring)
    (acc : list (jstring * json)) :
  parse_members (S fuel) input acc =
  match skip_ws input with
  | c :: rest =>
    if c =? 34 then
      match parse_string_body rest with
      | Some (key, out) =>
        match skip_ws out with
        | d :: out1 =>
          if d =? 58 then
            match parse_value fuel out1 with
            | Some (v, out2) =>
              match skip_ws out2 with
              | e :: out3 =>
                if e =? 44 then parse_members fuel out3 (acc ++ [(key, v)])
                else if e =? 125
                     then Some (JObject (acc ++ [(key, v)]), out3)
                else None
              | [] => None
              end
            | None => None
            end
          else None
        | [] => None
        end
      | None => None
      end
    else None
  | [] => None
  end.
Proof. reflexivity. Qed.

(** A quoted string where a value is expected. *)
Lemma parse_value_quote (fuel : nat) (s rest : jstring) :
  well_formed s ->
  parse_value (S fuel) (quote s ++ rest) = Some (JString s, rest).
Proof.
  intros Hwf; unfold quote.
  cbn [parse_value app skip_ws].
  change (is_ws 34) with false; cbv iota.
  change (34 =? 34) with true; cbv iota.
  rewrite <- app_assoc; cbn [app].
  now rewrite parse_string_body_quote.
Qed.

(** An object that opens on a quote: the members are read. *)
Lemma parse_value_object (fuel : nat) (tail : jstring) :
  parse_value (S fuel) (123 :: 34 :: tail) = parse_members fuel (34 :: tail) [].
Proof. reflexivity. Qed.

(** The members [JSON_stringify] writes for string fields read back,
    in order, after the members read before them. *)
Lemma parse_members_text (fields : list (jstring * jstring)) :
  forall (fuel : nat) (acc : list (jstring * json)) (rest : jstring),
    fields <> [] ->
    Forall (fun field => well_formed (fst field) /\ well_formed (snd field))
           fields ->
    (2 * List.length fields <= fuel)%nat ->
    parse_members fuel (members_text (string_members fields) ++ 125 :: rest) acc =
    Some (JObject (acc ++ string_members fields), rest).
Proof.
  induction fields as [|[key value] fields IH];
    intros fuel acc rest Hne Hwf Hfuel; [contradiction|].
  apply Forall_cons_iff in Hwf as [[Hkey Hvalue] Hwf].
  cbn [fst snd] in Hkey, Hvalue.
  destruct fuel as [|[|fuel]]; [simpl in Hfuel; lia ..|].
  rewrite parse_members_unfold.
  cbn [string_members map fst snd members_text].
  fold (string_members fields).
  change (JSON_stringify (JString value)) with (quote value).
  unfold quote at 1.
  cbn [app]; rewrite <- !app_assoc; cbn [app skip_ws].
  change (is_ws 34) with false; cbv iota.
  change (34 =? 34) with true; cbv iota.
  rewrite parse_string_body_quote by exact Hkey.
  cbn [skip_ws].
  change (is_ws 58) with false; cbv iota.
  change (58 =? 58) with true; cbv iota.
  rewrite <- ?app_assoc.
  rewrite parse_value_quote by exact Hvalue.
  destruct fields as [|next fields].
  - cbn [app skip_ws string_members map].
    change (is_ws 125) with false; cbv iota.
    change (125 =? 44) with false; change (125 =? 125) with true; cbv iota.
    reflexivity.
  - remember (next :: fields) as more eqn:Hmore.
    destruct (string_members more) as [|m ms] eqn:Hsm;
      [subst more; discriminate|].
    cbn [app skip_ws].
    change (is_ws 44) with false; cbv iota.
    change (44 =? 44) with true; cbv iota.
    rewrite IH;
      [|subst more; discriminate|exact Hwf
       |subst more; simpl in Hfuel |- *; lia].
    now rewrite <- app_assoc.
Qed.

Lemma members_text_length (fields : list (jstring * jstring)) :
  (List.length fields <= List.length (members_text (string_members fields)))%nat.
Proof.
  induction fields as [|[key value] fields IH]; [apply Nat.le_refl|].
  cbn [string_members map fst snd members_text].
  fold (string_members fields).
  destruct fields as [|next fields]; [simpl; lia|].
  remember (next :: fields) as more eqn:Hmore.
  destruct (string_members more) as [|m ms] eqn:Hsm;
    [subst more; discriminate|].
  unfold quote at 1; cbn [app List.length].
  repeat (rewrite length_app; cbn [List.length]).
  lia.
Qed.

(** [JSON.parse(JSON.stringify(o)) ] is [o] for an object [o] of
    string fields. *)
Lemma JSON_parse_stringify_string_object (fields : list (jstring * jstring)) :
  Forall (fun field => well_formed (fst field) /\ well_formed (snd field))
         fields ->
  JSON_parse (JSON_stringify (JObject (string_members fields))) =
  Ok (JObject (string_members fields)).
Proof.
  intros Hwf.
  destruct fields as [|field fields]; [reflexivity|].
  pose proof (members_text_length (field :: fields)) as Hlen.
  remember (field :: fields) as all eqn:Hall.
  assert (Hfirst : exists tail,
            members_text (string_members all) ++ [125] = 34 :: tail).
  { subst all; destruct field as [key value].
    cbn [string_members map fst snd members_text].
    unfold quote at 1; cbn [app]. eexists; reflexivity. }
  destruct Hfirst as [tail Htail].
  assert (Hfuel : (2 * List.length all <= 2 * S (S (List.length tail)) + 1)%nat).
  { apply (f_equal (@List.length _)) in Htail.
    rewrite length_app in Htail; cbn [List.length] in Htail.
    unfold jstring, code_unit in *; lia. }
  unfold JSON_parse.
  rewrite JSON_stringify_object, Htail.
  cbn [List.length].
  match goal with
  | |- context [parse_value ?fuel _] => replace fuel with (S (fuel - 1)) by lia
  end.
  rewrite parse_value_object, <- Htail.
  rewrite (parse_members_text all _ [] []);
    [reflexivity|subst all; discriminate|exact Hwf|].
  unfold jstring, code_unit in *; lia.
Qed.

End JSONFacts.

Section JSONFuel.

Local Open Scope N_scope.

Lemma parse_value_unfold (fuel : nat) (input : jstring) :
  parse_value (S fuel) input =
  match skip_ws input with
  | [] => None
  | c :: rest =>
    if c =? 34 then
      match parse_string_body rest with
      | Some (s, out) => Some (JString s, out)
      | None => None
      end
    else if c =? 91 then
      match skip_ws rest with
      | d :: out =>
        if d =? 93 then Some (JArray [], out)
        else parse_elements fuel rest []
      | [] => None
      end
    else if c =? 123 then
      match skip_ws rest with
      | d :: out =>
        if d =? 125 then Some (JObject [], out)
        else parse_members fuel rest []
      | [] => None
      end
    else if c =? 110 then
      match strip_prefix (js "ull") rest with
      | Some out => Some (JNull, out)
      | None => None
      end
    else if c =? 116 then
      match strip_prefix (js "rue") rest with
      | Some out => Some (JBool true, out)
      | None => None
      end
    else if c =? 102 then
      match strip_prefix (js "alse") rest with
      | Some out => Some (JBool false, out)
      | None => None
      end
    else
      match scan_number (c :: rest) with
      | Some (literal, out) => Some (JNumber literal, out)
      | None => None
      end
  end.
Proof. reflexivity. Qed.

Lemma parse_elements_unfold (fuel : nat) (input : jstring) (acc : list json) :
  parse_elements (S fuel) input acc =
  match parse_value fuel input with
  | None => None
  | Some (v, out) =>
    match skip_ws out with
    | c :: out' =>
      if c =? 44 then parse_elements fuel out' (acc ++ [v])
      else if c =? 93 then Some (JArray (acc ++ [v]), out')
      else None
    | [] => None
    end
  end.
Proof. reflexivity. Qed.

Lemma skip_ws_length (input : jstring) :
  (List.length (skip_ws input) <= List.length input)%nat.
Proof.
  induction input as [|c rest IH]; [apply Nat.le_refl|].
  cbn [skip_ws]; destruct (is_ws c); cbn [List.length]; lia.
Qed.

Lemma parse_string_body_length (n : nat) :
  forall input s out,
    (List.length input <= n)%nat ->
    parse_string_body input = Some (s, out) ->
    (List.length out < List.length input)%nat.
Proof.
  induction n as [|n IH]; intros input s out Hn;
    (destruct input as [|c rest]; [discriminate|]);
    cbn [List.length] in Hn; [lia|].
  cbn [parse_string_body].
  destruct (c =? 34).
  { intros Heq; injection Heq as _ <-; cbn [List.length]; lia. }
  destruct (c =? 92).
  - destruct rest as [|e rest1]; [discriminate|].
    cbn [List.length] in Hn.
    destruct (e =? 117).
    + destruct rest1 as [|h1 [|h2 [|h3 [|h4 rest2]]]]; try discriminate.
      destruct (hex_value h1), (hex_value h2), (hex_value h3), (hex_value h4);
        try discriminate.
      destruct (parse_string_body rest2) as [[s' out']|] eqn:Hrest;
        [|discriminate].
      intros Heq; injection Heq as _ <-.
      apply IH in Hrest; cbn [List.length] in *; lia.
    + destruct (unescape e); [|discriminate].
      destruct (parse_string_body rest1) as [[s' out']|] eqn:Hrest;
        [|discriminate].
      intros Heq; injection Heq as _ <-.
      apply IH in Hrest; cbn [List.length] in *; lia.
  - destruct (c <? 32); [discriminate|].
    destruct (parse_string_body rest) as [[s' out']|] eqn:Hrest;
      [|discriminate].
    intros Heq; injection Heq as _ <-.
    apply IH in Hrest; cbn [List.length] in *; lia.
Qed.

Lemma parse_string_body_consumes (input s out : jstring) :
  parse_string_body input = Some (s, out) ->
  (List.length out < List.length input)%nat.
Proof. apply (parse_string_body_length (List.length input)), Nat.le_refl. Qed.

Lemma strip_prefix_length (p : jstring) :
  forall input out,
    strip_prefix p input = Some out ->
    (List.length out <= List.length input)%nat.
Proof.
  induction p as [|x p IH]; intros input out; cbn [strip_prefix].
  - intros Heq; injection Heq as <-; apply Nat.le_refl.
  - destruct input as [|y input]; [discriminate|].
    destruct (x =? y); [|discriminate].
    intros Hp; apply IH in Hp; cbn [List.length]; lia.
Qed.

Lemma span_digits_length (input : jstring) :
  forall ds out,
    span_digits input = (ds, out) ->
    List.length input = (List.length ds + List.length out)%nat.
Proof.
  induction input as [|c rest IH]; intros ds out; cbn [span_digits].
  - intros Heq; injection Heq as <- <-; reflexivity.
  - destruct (is_digit c).
    + destruct (span_digits rest) as [ds' out'] eqn:Hrest.
      intros Heq; injection Heq as <- <-.
      cbn [List.length]; now rewrite (IH _ _ eq_refl).
    + intros Heq; injection Heq as <- <-; reflexivity.
Qed.

Lemma digits1_length (input ds out : jstring) :
  digits1 input = Some (ds, out) ->
  (List.length out < List.length input)%nat.
Proof.
  unfold digits1.
  destruct (span_digits input) as [[|d ds'] out'] eqn:Hspan; [discriminate|].
  intros Heq; injection Heq as <- <-.
  apply span_digits_length in Hspan; cbn [List.length] in Hspan; lia.
Qed.

Lemma scan_number_length (input literal out : jstring) :
  scan_number input = Some (literal, out) ->
  (List.length out < List.length input)%nat.
Proof.
  unfold scan_number.
  assert (Hint : forall i o1 o2, scan_int i = Some (o1, o2) ->
            (List.length o2 < List.length i)%nat).
  { intros i o1 o2; unfold scan_int.
    destruct i as [|c rest]; [discriminate|].
    destruct (c =? 48).
    - intros Heq; injection Heq as _ <-; cbn [List.length]; lia.
    - destruct (is_digit c); [apply digits1_length|discriminate]. }
  assert (Hfrac : forall i o1 o2, scan_frac i = Some (o1, o2) ->
            (List.length o2 <= List.length i)%nat).
  { intros i o1 o2; unfold scan_frac.
    destruct i as [|c rest].
    - intros Heq; injection Heq as _ <-; apply Nat.le_refl.
    - destruct (c =? 46).
      + destruct (digits1 rest) as [[ds o]|] eqn:Hd; [|discriminate].
        intros Heq; injection Heq as _ <-.
        apply digits1_length in Hd; cbn [List.length]; lia.
      + intros Heq; injection Heq as _ <-; apply Nat.le_refl. }
  assert (Hexp : forall i o1 o2, scan_exp i = Some (o1, o2) ->
            (List.length o2 <= List.length i)%nat).
  { intros i o1 o2; unfold scan_exp.
    destruct i as [|c rest].
    - intros Heq; injection Heq as _ <-; apply Nat.le_refl.
    - destruct ((c =? 101) || (c =? 69)).
      + destruct rest as [|s rest']; [discriminate|].
        destruct ((s =? 43) || (s =? 45)).
        * destruct (digits1 rest') as [[ds o]|] eqn:Hd; [|discriminate].
          intros Heq; injection Heq as _ <-.
          apply digits1_length in Hd; cbn [List.length]; lia.
        * destruct (digits1 (s :: rest')) as [[ds o]|] eqn:Hd; [|discriminate].
          intros Heq; injection Heq as _ <-.
          apply digits1_length in Hd; cbn [List.length] in *; lia.
      + intros Heq; injection Heq as _ <-; apply Nat.le_refl. }
  destruct (match input with
            | [] => ([], [])
            | c :: rest => if c =? 45 then ([45], rest) else ([], input)
            end) as [sign input1] eqn:Hsign.
  assert (Hlen1 : (List.length input1 <= List.length input)%nat).
  { destruct input as [|c rest]; [injection Hsign as _ <-; apply Nat.le_refl|].
    destruct (c =? 45); injection Hsign as _ <-; cbn [List.length]; lia. }
  destruct (scan_int input1) as [[i input2]|] eqn:Hi; [|discriminate].
  destruct (scan_frac input2) as [[f input3]|] eqn:Hf; [|discriminate].
  destruct (scan_exp input3) as [[e out']|] eqn:He; [|discriminate].
  intros Heq; injection Heq as _ <-.
  apply Hint in Hi; apply Hfrac in Hf; apply Hexp in He; lia.
Qed.

Ltac length_lia := unfold jstring, code_unit in *; cbn [List.length] in *; lia.

(** A parse that succeeds with some fuel consumes input and succeeds,
    with the same result, with the fuel [JSON_parse] gives. *)
Lemma parse_fuel_adequate (fuel : nat) :
  (forall input v out,
     parse_value fuel input = Some (v, out) ->
     (List.length out < List.length input)%nat /\
     forall fuel', (2 * List.length input + 1 <= fuel')%nat ->
       parse_value fuel' input = Some (v, out)) /\
  (forall input acc v out,
     parse_elements fuel input acc = Some (v, out) ->
     (List.length out < List.length input)%nat /\
     forall fuel', (2 * List.length input + 2 <= fuel')%nat ->
       parse_elements fuel' input acc = Some (v, out)) /\
  (forall input acc v out,
     parse_members fuel input acc = Some (v, out) ->
     (List.length out < List.length input)%nat /\
     forall fuel', (2 * List.length input + 2 <= fuel')%nat ->
       parse_members fuel' input acc = Some (v, out)).
Proof.
  induction fuel as [|fuel [IHv [IHe IHm]]];
    [repeat split; intros; discriminate|].
  split; [|split].
  - intros input v out; rewrite parse_value_unfold.
    pose proof (skip_ws_length input) as Hws.
    destruct (skip_ws input) as [|c rest] eqn:Hskip; [discriminate|].
    destruct (c =? 34) eqn:Hquote.
    { destruct (parse_string_body rest) as [[s out']|] eqn:Hbody;
        [|discriminate].
      intros Heq; injection Heq as <- <-.
      pose proof (parse_string_body_consumes _ _ _ Hbody).
      split; [length_lia|].
      intros [|fuel'] Hfuel; [lia|].
      now rewrite parse_value_unfold, Hskip, Hquote, Hbody. }
    destruct (c =? 91) eqn:Harray.
    { pose proof (skip_ws_length rest) as Hws'.
      destruct (skip_ws rest) as [|d out'] eqn:Hskip'; [discriminate|].
      destruct (d =? 93) eqn:Hclose.
      - intros Heq; injection Heq as <- <-.
        split; [length_lia|].
        intros [|fuel'] Hfuel; [lia|].
        now rewrite parse_value_unfold, Hskip, Hquote, Harray, Hskip', Hclose.
      - intros Helems; apply IHe in Helems as [Hlen Hsuff].
        split; [length_lia|].
        intros [|fuel'] Hfuel; [lia|].
        rewrite parse_value_unfold, Hskip, Hquote, Harray, Hskip', Hclose.
        apply Hsuff; length_lia. }
    destruct (c =? 123) eqn:Hobject.
    { pose proof (skip_ws_length rest) as Hws'.
      destruct (skip_ws rest) as [|d out'] eqn:Hskip'; [discriminate|].
      destruct (d =? 125) eqn:Hclose.
      - intros Heq; injection Heq as <- <-.
        split; [length_lia|].
        intros [|fuel'] Hfuel; [lia|].
        now rewrite parse_value_unfold, Hskip, Hquote, Harray, Hobject,
          Hskip', Hclose.
      - intros Hmembers; apply IHm in Hmembers as [Hlen Hsuff].
        split; [length_lia|].
        intros [|fuel'] Hfuel; [lia|].
        rewrite parse_value_unfold, Hskip, Hquote, Harray, Hobject,
          Hskip', Hclose.
        apply Hsuff; length_lia. }
    destruct (c =? 110) eqn:Hn.
    { destruct (strip_prefix (js "ull") rest) as [out'|] eqn:Hlit;
        [|discriminate].
      intros Heq; injection Heq as <- <-.
      pose proof (strip_prefix_length _ _ _ Hlit).
      split; [length_lia|].
      intros [|fuel'] Hfuel; [lia|].
      now rewrite parse_value_unfold, Hskip, Hquote, Harray, Hobject, Hn, Hlit. }
    destruct (c =? 116) eqn:Ht.
    { destruct (strip_prefix (js "rue") rest) as [out'|] eqn:Hlit;
        [|discriminate].
      intros Heq; injection Heq as <- <-.
      pose proof (strip_prefix_length _ _ _ Hlit).
      split; [length_lia|].
      intros [|fuel'] Hfuel; [lia|].
      now rewrite parse_value_unfold, Hskip, Hquote, Harray, Hobject, Hn, Ht,
        Hlit. }
    destruct (c =? 102) eqn:Hf.
    { destruct (strip_prefix (js "alse") rest) as [out'|] eqn:Hlit;
        [|discriminate].
      intros Heq; injection Heq as <- <-.
      pose proof (strip_prefix_length _ _ _ Hlit).
      split; [length_lia|].
      intros [|fuel'] Hfuel; [lia|].
      now rewrite parse_value_unfold, Hskip, Hquote, Harray, Hobject, Hn, Ht,
        Hf, Hlit. }
    destruct (scan_number (c :: rest)) as [[literal out']|] eqn:Hnum;
      [|discriminate].
    intros Heq; injection Heq as <- <-.
    pose proof (scan_number_length _ _ _ Hnum).
    split; [length_lia|].
    intros [|fuel'] Hfuel; [lia|].
    now rewrite parse_value_unfold, Hskip, Hquote, Harray, Hobject, Hn, Ht,
      Hf, Hnum.
  - intros input acc v out; rewrite parse_elements_unfold.
    destruct (parse_value fuel input) as [[v0 out0]|] eqn:Hvalue;
      [|discriminate].
    apply IHv in Hvalue as [Hlen0 Hsuff0].
    pose proof (skip_ws_length out0) as Hws.
    destruct (skip_ws out0) as [|c out'] eqn:Hskip; [discriminate|].
    destruct (c =? 44) eqn:Hcomma.
    + intros Hrest; apply IHe in Hrest as [Hlen Hsuff].
      split; [length_lia|].
      intros [|fuel'] Hfuel; [lia|].
      rewrite parse_elements_unfold, Hsuff0, Hskip, Hcomma by lia.
      apply Hsuff; length_lia.
    + destruct (c =? 93) eqn:Hclose; [|discriminate].
      intros Heq; injection Heq as <- <-.
      split; [length_lia|].
      intros [|fuel'] Hfuel; [lia|].
      now rewrite parse_elements_unfold, Hsuff0, Hskip, Hcomma, Hclose by lia.
  - intros input acc v out; rewrite parse_members_unfold.
    pose proof (skip_ws_length input) as Hws.
    destruct (skip_ws input) as [|c rest] eqn:Hskip; [discriminate|].
    destruct (c =? 34) eqn:Hquote; [|discriminate].
    destruct (parse_string_body rest) as [[key out0]|] eqn:Hkey;
      [|discriminate].
    pose proof (parse_string_body_consumes _ _ _ Hkey) as Hlenk.
    pose proof (skip_ws_length out0) as Hws0.
    destruct (skip_ws out0) as [|d out1] eqn:Hskip0; [discriminate|].
    destruct (d =? 58) eqn:Hcolon; [|discriminate].
    destruct (parse_value fuel out1) as [[v0 out2]|] eqn:Hvalue;
      [|discriminate].
    apply IHv in Hvalue as [Hlen2 Hsuff2].
    pose proof (skip_ws_length out2) as Hws2.
    destruct (skip_ws out2) as [|e out3] eqn:Hskip2; [discriminate|].
    destruct (e =? 44) eqn:Hcomma.
    + intros Hrest; apply IHm in Hrest as [Hlen Hsuff].
      split; [length_lia|].
      intros [|fuel'] Hfuel; [lia|].
      rewrite parse_members_unfold, Hskip, Hquote, Hkey, Hskip0, Hcolon.
      rewrite Hsuff2, Hskip2, Hcomma by length_lia.
      apply Hsuff; length_lia.
    + destruct (e =? 125) eqn:Hclose; [|discriminate].
      intros Heq; injection Heq as <- <-.
      split; [length_lia|].
      intros [|fuel'] Hfuel; [lia|].
      rewrite parse_members_unfold, Hskip, Hquote, Hkey, Hskip0, Hcolon.
      now rewrite Hsuff2, Hskip2, Hcomma, Hclose by length_lia.
Qed.

(** The verdict of [JSON_parse] does not depend on the fuel: a text
    that parses with any fuel parses with the fuel [JSON_parse] gives
    it, to the same value. *)
Lemma JSON_parse_fuel_independent (fuel : nat) (text : jstring) (v : json)
    (out : jstring) :
  parse_value fuel text = Some (v, out) ->
  parse_value (2 * List.length text + 2) text = Some (v, out).
Proof.
  intros Hparse.
  destruct (parse_fuel_adequate fuel) as [Hvalue _].
  apply (Hvalue _ _ _ Hparse); lia.
Qed.

(** A text [JSON_parse] rejects has no complete parse, whatever the
    fuel: the rejection is never for want of fuel. *)
Lemma JSON_parse_rejects (text : jstring) (e : JsError) :
  JSON_parse text = Throw e ->
  forall fuel v out,
    parse_value fuel text = Some (v, out) -> skip_ws out <> [].
Proof.
  intros Hreject fuel v out Hparse Hend.
  apply JSON_parse_fuel_independent in Hparse.
  unfold JSON_parse in Hreject.
  rewrite Hparse, Hend in Hreject; discriminate.
Qed.

End JSONFuel.

(* ================================================================== *)
(** * Properties of postMinter *)
(* ================================================================== *)

Section ArraySortFacts.

Import PostMinter PostMinterTerms.

(** The sort on elements that carry a time and a comparator that is
    the difference of the times, later time first. *)
Variable A : Type.
Variable comparefn : A -> A -> result JsNumber.
Variable timed : A -> Prop.
Variable time : A -> Z.
Hypothesis comparefn_time :
  forall a b, timed a -> timed b -> comparefn a b = Ok (Int (time b - time a)).

Lemma sort_insert_sorted (x : A) (sorted : list A) :
  timed x ->
  Forall timed sorted ->
  StronglySorted (not_older time) sorted ->
  exists l,
    sort_insert comparefn x sorted = Ok l /\
    Permutation (x :: sorted) l /\
    StronglySorted (not_older time) l.
Proof.
  intros Hx Htimed Hsorted.
  induction sorted as [|y rest IH].
  - exists [x]; repeat split; [apply Permutation_refl|].
    constructor; constructor.
  - apply Forall_cons_iff in Htimed as [Hy Hrest].
    apply StronglySorted_inv in Hsorted as [Hsorted Hhead].
    cbn [sort_insert].
    rewrite (comparefn_time y x Hy Hx); cbn [bind comes_after].
    destruct (Z.ltb_spec 0 (time x - time y)) as [Hnewer|Holder].
    + exists (x :: y :: rest); repeat split; [apply Permutation_refl|].
      constructor; [now constructor|].
      constructor; [unfold not_older; lia|].
      eapply Forall_impl; [|exact Hhead].
      unfold not_older; intros r Hr; lia.
    + destruct (IH Hrest Hsorted) as [l [Hl [Hperm Hsl]]].
      rewrite Hl; cbn [bind].
      exists (y :: l); repeat split.
      * eapply Permutation_trans; [apply perm_swap|].
        now apply perm_skip.
      * constructor; [exact Hsl|].
        rewrite <- Hperm.
        constructor; [unfold not_older; lia|exact Hhead].
Qed.

Lemma sort_from_sorted (todo : list A) :
  forall sorted,
    Forall timed sorted ->
    Forall timed todo ->
    StronglySorted (not_older time) sorted ->
    exists l,
      sort_from comparefn sorted todo = Ok l /\
      Permutation (todo ++ sorted) l /\
      StronglySorted (not_older time) l.
Proof.
  induction todo as [|x todo IH]; intros sorted Hsorted_t Htodo Hsorted.
  - exists sorted; repeat split; [apply Permutation_refl|exact Hsorted].
  - apply Forall_cons_iff in Htodo as [Hx Htodo].
    destruct (sort_insert_sorted x sorted Hx Hsorted_t Hsorted)
      as [l1 [Hl1 [Hperm1 Hs1]]].
    cbn [sort_from]; rewrite Hl1; cbn [bind].
    destruct (IH l1) as [l [Hl [Hperm Hs]]];
      [rewrite <- Hperm1; now constructor
      |exact Htodo|exact Hs1|].
    exists l; repeat split; [exact Hl| |exact Hs].
    eapply Permutation_trans; [|exact Hperm].
    cbn [app].
    eapply Permutation_trans; [apply Permutation_middle|].
    now apply Permutation_app_head.
Qed.

(** The sort returns the elements rearranged with no element before
    one of a later time. *)
Lemma Array_sort_sorted (array : list A) :
  Forall timed array ->
  exists l,
    Array_sort comparefn array = Ok l /\
    Permutation array l /\
    StronglySorted (not_older time) l.
Proof.
  intros Htimed.
  destruct (sort_from_sorted array [] (Forall_nil _) Htimed (SSorted_nil _))
    as [l [Hl [Hperm Hs]]].
  exists l; repeat split; [exact Hl| |exact Hs].
  now rewrite app_nil_r in Hperm.
Qed.

End ArraySortFacts.

Section PostMinterFacts.

Import PostMinter PostMinterTerms.

Variable now : jstring.
Variable provider : Provider.
Variable chainId : Z.
Variable limit : Z.

Lemma getAllPosts_loop_flat_map (tribeIds : list jstring) :
  forall fetchPromises,
    getAllPosts_loop now provider chainId limit tribeIds fetchPromises =
    fetchPromises ++
    flat_map (fetches_of_tribe now provider chainId limit) tribeIds.
Proof.
  induction tribeIds as [|tribeId rest IH]; intros fetchPromises;
    cbn [getAllPosts_loop flat_map].
  - now rewrite app_nil_r.
  - rewrite IH; unfold fetches_of_tribe at 2.
    destruct (getPostsByTribe provider chainId tribeId 0 limit);
      [now rewrite app_assoc|reflexivity].
Qed.

(** One rejected promise makes [Promise.all] reject. *)
Lemma Promise_all_rejects {A : Type} (promises : list (result A)) (e : JsError) :
  In (Throw e) promises -> exists e', Promise_all promises = Throw e'.
Proof.
  induction promises as [|p rest IH]; intros Hin; [destruct Hin|].
  cbn [Promise_all].
  destruct p as [a|e0]; [|now exists e0].
  destruct Hin as [Heq|Hin]; [discriminate|].
  destruct (IH Hin) as [e' He']; rewrite He'; now exists e'.
Qed.

(** Fulfilled promises make [Promise.all] fulfil with their values. *)
Lemma Promise_all_fulfils {A : Type} (promises : list (result A)) :
  Forall (fun p => exists a, p = Ok a) promises ->
  exists l, Promise_all promises = Ok l /\ map Ok l = promises.
Proof.
  induction promises as [|p rest IH]; intros Hall.
  - now exists [].
  - apply Forall_cons_iff in Hall as [[a ->] Hrest].
    destruct (IH Hrest) as [l [Hl Hmap]].
    cbn [Promise_all]; rewrite Hl.
    exists (a :: l); split; [reflexivity|].
    cbn [map]; now rewrite Hmap.
Qed.

End PostMinterFacts.

Section PostMinterClaims.

Import PostMinter PostMinterTerms PostFixtures.

(** C9.  Failures are isolated per tribe, not per post: when the
    enumeration of some tribe succeeds and the fetch of one of the
    posts it lists fails, [getAllPosts] throws and returns no post at
    all, whatever the other tribes and posts are. *)
Theorem getAllPosts_aborts_on_failed_post :
  forall (now : jstring) (Date_getTime : option json -> result JsNumber)
         (provider : Provider) (chainId : Z) (tribeIds : list jstring)
         (limit : Z) (tribeId : jstring) (page : RawPostPage) (postId : Z)
         (e : JsError),
    In tribeId tribeIds ->
    getPostsByTribe provider chainId tribeId 0 limit = Ok page ->
    In postId (raw_postIds page) ->
    getPost now provider chainId (toString postId) = Throw e ->
    exists e',
      getAllPosts now Date_getTime provider chainId tribeIds limit = Throw e'.
Proof.
  intros now Date_getTime provider chainId tribeIds limit tribeId page postId e
         Htribe Hpage Hpost Hfetch.
  unfold getAllPosts.
  rewrite getAllPosts_loop_flat_map; cbn [app].
  destruct (Promise_all_rejects
              (flat_map (fetches_of_tribe now provider chainId limit) tribeIds) e)
    as [e' He'].
  - apply in_flat_map; exists tribeId; split; [exact Htribe|].
    unfold fetches_of_tribe; rewrite Hpage.
    rewrite <- Hfetch.
    apply (in_map (fun postId => getPost now provider chainId (toString postId))).
    exact Hpost.
  - rewrite He'; cbn [bind try_catch]. now exists e'.
Qed.

(** Tribes 1 and 3 enumerate fully; the fetch of post 3 fails and
    nothing is returned. *)
Lemma getAllPosts_aborts_on_failed_post_witness :
  exists e',
    getAllPosts day1 calendar (post_ledger pages posts_with_failure) 1
      [js "1"; js "2"; js "3"] 10 = Throw e'.
Proof.
  apply (getAllPosts_aborts_on_failed_post day1 calendar
           (post_ledger pages posts_with_failure) 1
           [js "1"; js "2"; js "3"] 10 (js "3")
           {| raw_postIds := [3]; raw_total := 1 |} 3
           (TransportError "network unreachable")).
  - right; right; left; reflexivity.
  - reflexivity.
  - left; reflexivity.
  - reflexivity.
Defined.

Lemma newest_first_time (Date_getTime : option json -> result JsNumber)
    (a b : Post) :
  (exists t, createdAt_time Date_getTime a = Ok (Int t)) ->
  (exists t, createdAt_time Date_getTime b = Ok (Int t)) ->
  newest_first Date_getTime a b =
  Ok (Int (time_of Date_getTime b - time_of Date_getTime a)).
Proof.
  intros [ta Ha] [tb Hb].
  unfold newest_first, time_of.
  now rewrite Ha, Hb.
Qed.

Lemma StronglySorted_newer_or_same
    (Date_getTime : option json -> result JsNumber) (posts : list Post) :
  Forall (fun p => exists t, createdAt_time Date_getTime p = Ok (Int t)) posts ->
  StronglySorted (not_older (time_of Date_getTime)) posts ->
  StronglySorted (newer_or_same Date_getTime) posts.
Proof.
  intros Htimed Hsorted.
  induction Hsorted as [|a l Hsorted IH Hhead]; [constructor|].
  apply Forall_cons_iff in Htimed as [[ta Ha] Htimed].
  constructor; [now apply IH|].
  apply Forall_forall; intros b Hb.
  pose proof (proj1 (Forall_forall _ _) Hhead b Hb) as Hle.
  destruct (proj1 (Forall_forall _ _) Htimed b Hb) as [tb Htb].
  exists ta, tb; repeat split; [exact Ha|exact Htb|].
  unfold not_older, time_of in Hle.
  now rewrite Ha, Htb in Hle.
Qed.

(** C5, as the code has it.  When the enumeration of one tribe fails
    and that of every other tribe succeeds, and moreover every post
    the other tribes list is fetched and carries a creation time,
    [getAllPosts] returns the posts of the other tribes, rearranged
    newest first; the failing tribe contributes nothing and nothing is
    thrown. *)
Theorem getAllPosts_isolates_failing_tribe :
  forall (now : jstring) (Date_getTime : option json -> result JsNumber)
         (provider : Provider) (chainId : Z) (limit : Z)
         (before after : list jstring) (failing : jstring) (e : JsError),
    getPostsByTribe provider chainId failing 0 limit = Throw e ->
    (forall tribeId, In tribeId (before ++ after) ->
       exists page, getPostsByTribe provider chainId tribeId 0 limit = Ok page) ->
    (forall tribeId page postId,
       In tribeId (before ++ after) ->
       getPostsByTribe provider chainId tribeId 0 limit = Ok page ->
       In postId (raw_postIds page) ->
       exists post t,
         getPost now provider chainId (toString postId) = Ok post /\
         createdAt_time Date_getTime post = Ok (Int t)) ->
    exists posts fetched,
      getAllPosts now Date_getTime provider chainId
        (before ++ failing :: after) limit = Ok posts /\
      Promise_all
        (flat_map (fetches_of_tribe now provider chainId limit) (before ++ after))
        = Ok fetched /\
      Permutation fetched posts /\
      StronglySorted (newer_or_same Date_getTime) posts.
Proof.
  intros now Date_getTime provider chainId limit before after failing e
         Hfailing Hpages Hposts.
  set (promises :=
         flat_map (fetches_of_tribe now provider chainId limit) (before ++ after)).
  assert (Hsame :
    getAllPosts_loop now provider chainId limit (before ++ failing :: after) []
    = promises).
  { rewrite getAllPosts_loop_flat_map; cbn [app].
    unfold promises; rewrite !flat_map_app; cbn [flat_map].
    unfold fetches_of_tribe at 2; now rewrite Hfailing. }
  assert (Hall : Forall (fun p => exists post,
                           p = Ok post /\
                           exists t, createdAt_time Date_getTime post = Ok (Int t))
                        promises).
  { apply Forall_forall; intros p Hp.
    apply in_flat_map in Hp as [tribeId [Htribe Hp]].
    unfold fetches_of_tribe in Hp.
    destruct (Hpages tribeId Htribe) as [page Hpage].
    rewrite Hpage in Hp.
    apply in_map_iff in Hp as [postId [<- HpostId]].
    destruct (Hposts tribeId page postId Htribe Hpage HpostId)
      as [post [t [Hpost Ht]]].
    exists post; split; [exact Hpost|now exists t]. }
  destruct (Promise_all_fulfils promises) as [fetched [Hfetched Hmap]].
  { eapply Forall_impl; [|exact Hall].
    intros p [post [Hp _]]; now exists post. }
  assert (Htimed : Forall (fun p => exists t,
                             createdAt_time Date_getTime p = Ok (Int t)) fetched).
  { apply Forall_forall; intros p Hp.
    assert (Hin : In (Ok p) promises) by (rewrite <- Hmap; now apply in_map).
    destruct (proj1 (Forall_forall _ _) Hall _ Hin) as [post [Heq Ht]].
    now injection Heq as ->. }
  destruct (Array_sort_sorted Post (newest_first Date_getTime)
              (fun p => exists t, createdAt_time Date_getTime p = Ok (Int t))
              (time_of Date_getTime) (newest_first_time Date_getTime)
              fetched Htimed)
    as [posts [Hsort [Hperm Hsorted]]].
  exists posts, fetched.
  unfold getAllPosts; rewrite Hsame, Hfetched; cbn [bind app].
  rewrite Hsort; cbn [try_catch].
  repeat split; [exact Hperm|].
  apply StronglySorted_newer_or_same; [|exact Hsorted].
  now rewrite <- Hperm.
Qed.

(** Tribe 2 fails, tribes 1 and 3 list posts written on day 1, day 3
    and day 2: the three posts come back newest first. *)
Lemma getAllPosts_isolates_failing_tribe_witness :
  getAllPosts day1 calendar (post_ledger pages healthy_posts) 1
    [js "1"; js "2"; js "3"] 10 =
  Ok [fetched (js "2") 1 (metadata_object (text_metadata (js "second") day3));
      fetched (js "3") 3 (metadata_object (text_metadata (js "third") day2));
      fetched (js "1") 1 (metadata_object (text_metadata (js "first") day1))] /\
  exists posts fetched,
    getAllPosts day1 calendar (post_ledger pages healthy_posts) 1
      ([js "1"] ++ js "2" :: [js "3"]) 10 = Ok posts /\
    Promise_all
      (flat_map (fetches_of_tribe day1 (post_ledger pages healthy_posts) 1 10)
                ([js "1"] ++ [js "3"])) = Ok fetched /\
    Permutation fetched posts /\
    StronglySorted (newer_or_same calendar) posts.
Proof.
  split; [vm_compute; reflexivity|].
  apply (getAllPosts_isolates_failing_tribe day1 calendar
           (post_ledger pages healthy_posts) 1 10 [js "1"] [js "3"] (js "2")
           (TransportError "network unreachable")).
  - reflexivity.
  - intros tribeId [<-|[<-|[]]]; eexists; vm_compute; reflexivity.
  - intros tribeId page postId [<-|[<-|[]]] Hpage;
      vm_compute in Hpage; injection Hpage as <-.
    + intros [<-|[<-|[]]]; eexists; eexists; split; vm_compute; reflexivity.
    + intros [<-|[]]; eexists; eexists; split; vm_compute; reflexivity.
Defined.

(** C5 as stated fails on the code: with tribe 2 failing and tribes 1
    and 3 enumerating, a failed fetch of one post, or one post whose
    metadata is the JSON text [null], makes [getAllPosts] throw. *)
Lemma getAllPosts_exception_escapes :
  getPostsByTribe (post_ledger pages posts_with_failure) 1 (js "2") 0 10 =
    Throw (TransportError "network unreachable") /\
  getPostsByTribe (post_ledger pages posts_with_failure) 1 (js "1") 0 10 =
    Ok {| raw_postIds := [1; 2]; raw_total := 2 |} /\
  getPostsByTribe (post_ledger pages posts_with_failure) 1 (js "3") 0 10 =
    Ok {| raw_postIds := [3]; raw_total := 1 |} /\
  getAllPosts day1 calendar (post_ledger pages posts_with_failure) 1
    [js "1"; js "2"; js "3"] 10 =
    Throw (TransportError "network unreachable") /\
  getAllPosts day1 calendar (post_ledger pages posts_with_null) 1
    [js "1"; js "2"; js "3"] 10 =
    Throw (TypeError "Cannot read properties of null").
Proof. repeat split; vm_compute; reflexivity. Qed.

(** A string literal of the source is a well-formed string. *)
Ltac literal_well_formed :=
  unfold well_formed; repeat (constructor; [reflexivity|]); constructor.

(** The metadata object is an object of string fields. *)
Lemma metadata_object_string_members (m : PostMetadata) :
  metadata_object m =
  JObject
    (string_members
       ([(js "title", title m);
         (js "content", content m);
         (js "type", PostType_name (type m))]
        ++ match imageUrl m with
           | Some url => [(js "imageUrl", url)]
           | None => []
           end
        ++ [(js "createdAt", createdAt m)])).
Proof. unfold metadata_object; now destruct (imageUrl m). Qed.

(** The fields of the metadata object, read as the source reads
    [metadata.title] and the like. *)
Lemma metadata_object_fields (m : PostMetadata) :
  get (metadata_object m) (js "title") = Ok (Some (JString (title m))) /\
  get (metadata_object m) (js "content") = Ok (Some (JString (content m))) /\
  get (metadata_object m) (js "type") =
    Ok (Some (JString (PostType_name (type m)))) /\
  get (metadata_object m) (js "createdAt") =
    Ok (Some (JString (createdAt m))) /\
  get (metadata_object m) (js "imageUrl") =
    Ok (option_map JString (imageUrl m)).
Proof. unfold metadata_object; destruct (imageUrl m); repeat split. Qed.

(** [JSON.parse(JSON.stringify(metadata))] is [metadata]. *)
Lemma JSON_parse_stringify_metadata (m : PostMetadata) :
  well_formed (title m) ->
  well_formed (content m) ->
  well_formed (createdAt m) ->
  (forall url, imageUrl m = Some url -> well_formed url) ->
  JSON_parse (JSON_stringify (metadata_object m)) = Ok (metadata_object m).
Proof.
  intros Htitle Hcontent Hcreated Hurl.
  rewrite metadata_object_string_members.
  apply JSON_parse_stringify_string_object.
  destruct (imageUrl m) as [url|] eqn:Himage; cbn [app];
    repeat (apply Forall_cons;
            [split; cbn [fst snd];
             first [assumption
                   |literal_well_formed
                   |destruct (type m); literal_well_formed
                   |now apply Hurl]|]);
    apply Forall_nil.
Qed.

(** C6.  A post whose stored blob is [JSON.stringify(M)] for
    well-formed metadata [M], as [createTextPost] and
    [createImagePost] write it, is read back by [getPost] with
    metadata equal to [M], field for field; a post whose stored blob
    is not JSON is read back with the placeholder metadata, and
    nothing is thrown. *)
Theorem getPost_metadata_round_trip :
  forall (now : jstring) (provider : Provider) (chainId : Z) (postId : jstring)
         (contract : PostMinterContract) (postData : RawPost),
    getPostMinterContract provider chainId = Ok contract ->
    pm_getPost contract postId = Ok postData ->
    (forall m : PostMetadata,
       well_formed (title m) ->
       well_formed (content m) ->
       well_formed (createdAt m) ->
       (forall url, imageUrl m = Some url -> well_formed url) ->
       raw_metadata postData = JSON_stringify (metadata_object m) ->
       exists post,
         getPost now provider chainId postId = Ok post /\
         metadata post = metadata_object m /\
         get (metadata post) (js "title") = Ok (Some (JString (title m))) /\
         get (metadata post) (js "content") = Ok (Some (JString (content m))) /\
         get (metadata post) (js "type") =
           Ok (Some (JString (PostType_name (type m)))) /\
         get (metadata post) (js "createdAt") =
           Ok (Some (JString (createdAt m))) /\
         get (metadata post) (js "imageUrl") =
           Ok (option_map JString (imageUrl m))) /\
    (forall e,
       JSON_parse (raw_metadata postData) = Throw e ->
       exists post,
         getPost now provider chainId postId = Ok post /\
         metadata post =
         metadata_object
           {| title := js "Error";
              content := js "Could not parse post metadata";
              type := TEXT;
              createdAt := now;
              imageUrl := None |}).
Proof.
  intros now provider chainId postId contract postData Hcontract Hcall.
  split.
  - intros m Htitle Hcontent Hcreated Hurl Hblob.
    unfold getPost; rewrite Hcontract; cbn [bind].
    rewrite Hcall; cbn [bind try_catch].
    rewrite Hblob, JSON_parse_stringify_metadata by assumption.
    eexists; split; [reflexivity|].
    cbn [metadata]; split; [reflexivity|].
    apply metadata_object_fields.
  - intros e Hparse.
    unfold getPost; rewrite Hcontract; cbn [bind].
    rewrite Hcall; cbn [bind try_catch].
    rewrite Hparse.
    eexists; split; reflexivity.
Qed.

(** Post 1 holds the blob of a text post and is read back with its
    metadata; post 4 holds a blob that is not JSON and is read back
    with the placeholder. *)
Lemma getPost_metadata_round_trip_witness :
  (exists post,
     getPost day2 (post_ledger pages posts_with_corruption) 1 (js "1") = Ok post /\
     metadata post = metadata_object (text_metadata (js "first") day1)) /\
  (exists post,
     getPost day2 (post_ledger pages posts_with_corruption) 1 (js "4") = Ok post /\
     metadata post =
     metadata_object
       {| title := js "Error";
          content := js "Could not parse post metadata";
          type := TEXT;
          createdAt := day2;
          imageUrl := None |}).
Proof.
  split.
  - destruct (proj1 (getPost_metadata_round_trip day2
                       (post_ledger pages posts_with_corruption) 1 (js "1")
                       {| pm_getPostsByTribe := fun tribeId _ _ =>
                            postIds <- entry tribeId pages ;;
                            Ok {| raw_postIds := postIds;
                                  raw_total := Z.of_nat (List.length postIds) |};
                          pm_getPost := fun postId =>
                            entry postId posts_with_corruption;
                          pm_createPost := fun _ _ _ _ _ => Fixtures.unreachable |}
                       (stored 1 (text_blob (js "first") day1))
                       eq_refl eq_refl)
                    (text_metadata (js "first") day1))
      as [post [Hpost [Hmeta _]]].
    + literal_well_formed.
    + literal_well_formed.
    + literal_well_formed.
    + discriminate.
    + reflexivity.
    + exists post; split; [exact Hpost|exact Hmeta].
  - apply (proj2 (getPost_metadata_round_trip day2
                    (post_ledger pages posts_with_corruption) 1 (js "4")
                    {| pm_getPostsByTribe := fun tribeId _ _ =>
                         postIds <- entry tribeId pages ;;
                         Ok {| raw_postIds := postIds;
                               raw_total := Z.of_nat (List.length postIds) |};
                       pm_getPost := fun postId =>
                         entry postId posts_with_corruption;
                       pm_createPost := fun _ _ _ _ _ => Fixtures.unreachable |}
                    (stored 1 (js "{title: oops"))
                    eq_refl eq_refl)
                 (SyntaxError "Unexpected token in JSON")).
    vm_compute; reflexivity.
Defined.

(** What [createTextPost] hands to the contract is the blob of the
    metadata it builds: the post is written, the text is serialised
    with [JSON.stringify], and the receipt of the write is returned. *)
Lemma createTextPost_submits_stringified_metadata
    (now : jstring) (signer : Signer) (chainId : Z)
    (tribeId title content : jstring) (contract : PostMinterContract) :
  getPostMinterContract (signer_provider signer) chainId = Ok contract ->
  createTextPost now signer chainId tribeId title content =
  (tx <- pm_createPost contract tribeId
           (JSON_stringify
              (metadata_object
                 {| title := title; content := content; type := TEXT;
                    createdAt := now; imageUrl := None |}))
           false ZeroAddress 0 ;;
   wait tx).
Proof.
  intros Hcontract; unfold createTextPost; rewrite Hcontract; cbn [bind].
  destruct (pm_createPost _ _ _ _ _ _) as [tx|e]; cbn [bind try_catch];
    [|reflexivity].
  now destruct (wait tx).
Qed.

End PostMinterClaims.

(* ================================================================== *)
(** * Properties of tribeController and of the profile context *)
(* ================================================================== *)

Section ReadPathFacts.

Import TribeController ProfileContext.

Variable provider : Provider.
Variable chainId : Z.

(** [getTribeDetails] turns every failure into [null]. *)
Lemma getTribeDetails_never_throws (tribeId : jstring) :
  exists tribe, getTribeDetails provider chainId tribeId = Ok tribe.
Proof.
  unfold getTribeDetails.
  destruct (getTribeControllerContract provider chainId) as [contract|e];
    cbn [bind try_catch]; [|now eexists].
  destruct (tc_getTribeDetails contract tribeId); cbn [bind try_catch];
    now eexists.
Qed.

(** Every promise the loop of [getAllTribes] pushes is fulfilled. *)
Lemma getAllTribes_loop_fulfilled (nextTribeId : Z) (fuel : nat) :
  forall i tribePromises,
    Forall (fun p => exists tribe, p = Ok tribe) tribePromises ->
    Forall (fun p => exists tribe, p = Ok tribe)
           (getAllTribes_loop provider chainId nextTribeId fuel i tribePromises).
Proof.
  induction fuel as [|fuel IH]; intros i tribePromises Hall;
    cbn [getAllTribes_loop]; [exact Hall|].
  destruct (i <? nextTribeId); [|exact Hall].
  apply IH, Forall_app; split; [exact Hall|].
  constructor; [|constructor].
  apply getTribeDetails_never_throws.
Qed.

(** The scan of [getProfileByAddress] finds no token when none of the
    tokens it looks at is the address's. *)
Lemma findTokenId_loop_none (contract : ProfileNFTMinterContract)
    (address : jstring) (fuel : nat) :
  forall i,
    (forall j owner, i <= j < 10 ->
       pn_ownerOf contract j = Ok owner ->
       toLowerCase owner <> toLowerCase address) ->
    findTokenId_loop contract address fuel i = None.
Proof.
  induction fuel as [|fuel IH]; intros i Hforeign; [reflexivity|].
  cbn [findTokenId_loop].
  destruct (Z.ltb_spec i 10) as [Hlt|Hge]; [|reflexivity].
  unfold safeContractCall.
  destruct (pn_ownerOf contract i) as [owner|e] eqn:Howner; cbn [bind].
  - rewrite jstring_eqb_neq by (apply (Hforeign i); [lia|exact Howner]).
    apply IH; intros j o Hj; apply Hforeign; lia.
  - apply IH; intros j o Hj; apply Hforeign; lia.
Qed.

(** The scan looks at tokens 0 to 9 only: a token it finds is one of
    them. *)
Lemma findTokenId_loop_range (contract : ProfileNFTMinterContract)
    (address : jstring) (fuel : nat) :
  forall i tokenId,
    findTokenId_loop contract address fuel i = Some tokenId ->
    i <= tokenId < 10.
Proof.
  induction fuel as [|fuel IH]; intros i tokenId; [discriminate|].
  cbn [findTokenId_loop].
  destruct (Z.ltb_spec i 10) as [Hlt|Hge]; [|discriminate].
  destruct (bind _ _) as [[|]|e]; intros Hfound.
  - injection Hfound as <-; lia.
  - apply IH in Hfound; lia.
  - apply IH in Hfound; lia.
Qed.

(** [getProfileByAddress] turns every failure into [null]. *)
Lemma getProfileByAddress_never_throws (address : jstring) :
  exists profile,
    getProfileByAddress (Some provider) chainId address = Ok profile.
Proof.
  unfold getProfileByAddress, safeContractCall.
  destruct (getProfileNFTMinterContract chainId provider) as [contract|e];
    cbn [bind try_catch]; [|now eexists].
  destruct (pn_balanceOf contract address) as [balance|e];
    cbn [bind try_catch]; [|now eexists].
  destruct (balance =? 0); [now eexists|].
  destruct (findTokenId_loop contract address 10 0) as [userTokenId|];
    [|now eexists].
  destruct (pn_getProfileByTokenId contract userTokenId) as [[[u m] o]|e];
    cbn [bind try_catch]; now eexists.
Qed.

(** [getTribeDetails] returns [null] exactly when the contract cannot
    be built or the read of the details fails. *)
Lemma getTribeDetails_null_iff (tribeId : jstring) :
  getTribeDetails provider chainId tribeId = Ok None <->
  (exists e, getTribeControllerContract provider chainId = Throw e) \/
  (exists contract e,
     getTribeControllerContract provider chainId = Ok contract /\
     tc_getTribeDetails contract tribeId = Throw e).
Proof.
  unfold getTribeDetails.
  destruct (getTribeControllerContract provider chainId) as [contract|e];
    cbn [bind try_catch].
  - destruct (tc_getTribeDetails contract tribeId) as [details|e] eqn:Hcall;
      cbn [bind try_catch].
    + split; [discriminate|].
      intros [[e He]|[c [e [Hc He]]]]; [discriminate|].
      injection Hc as <-; rewrite Hcall in He; discriminate.
    + split; [intros _|reflexivity].
      right; exists contract, e; now split.
  - split; [intros _|reflexivity].
    left; now exists e.
Qed.

(** What [getProfileByAddress] returns when the contract cannot be
    built or one of its reads fails: [null]. *)
Lemma getProfileByAddress_on_failed_calls (address : jstring) :
  (forall e,
     getProfileNFTMinterContract chainId provider = Throw e ->
     getProfileByAddress (Some provider) chainId address = Ok None) /\
  (forall contract e,
     getProfileNFTMinterContract chainId provider = Ok contract ->
     pn_balanceOf contract address = Throw e ->
     getProfileByAddress (Some provider) chainId address = Ok None) /\
  (forall contract,
     getProfileNFTMinterContract chainId provider = Ok contract ->
     (forall token, exists e, pn_ownerOf contract token = Throw e) ->
     getProfileByAddress (Some provider) chainId address = Ok None) /\
  (forall contract,
     getProfileNFTMinterContract chainId provider = Ok contract ->
     (forall token, exists e, pn_getProfileByTokenId contract token = Throw e) ->
     getProfileByAddress (Some provider) chainId address = Ok None).
Proof.
  unfold getProfileByAddress, safeContractCall.
  repeat split.
  - intros e ->; reflexivity.
  - intros contract e -> Hbalance; cbn [bind].
    now rewrite Hbalance.
  - intros contract -> Howner; cbn [bind].
    destruct (pn_balanceOf contract address) as [balance|e];
      cbn [bind try_catch]; [|reflexivity].
    destruct (balance =? 0); [reflexivity|].
    rewrite findTokenId_loop_none; [reflexivity|].
    intros j o _ Ho; destruct (Howner j) as [e He].
    rewrite He in Ho; discriminate.
  - intros contract -> Hprofile; cbn [bind].
    destruct (pn_balanceOf contract address) as [balance|e];
      cbn [bind try_catch]; [|reflexivity].
    destruct (balance =? 0); [reflexivity|].
    destruct (findTokenId_loop contract address 10 0) as [token|];
      [|reflexivity].
    destruct (Hprofile token) as [e ->]; reflexivity.
Qed.

(** What [checkUsername] returns when the contract cannot be built or
    the read fails: [false]. *)
Lemma checkUsername_on_failed_calls (username : jstring) :
  (forall e,
     getProfileNFTMinterContract chainId provider = Throw e ->
     checkUsername (Some provider) chainId username = Ok false) /\
  (forall contract e,
     getProfileNFTMinterContract chainId provider = Ok contract ->
     pn_usernameExists contract username = Throw e ->
     checkUsername (Some provider) chainId username = Ok false).
Proof.
  unfold checkUsername, safeContractCall; split.
  - intros e ->; reflexivity.
  - intros contract e -> Hcall; cbn [bind].
    now rewrite Hcall.
Qed.

End ReadPathFacts.

Section ReadPathClaims.

Import EventController PostMinter TribeController ProfileContext.
Import Fixtures PostFixtures ProfileFixtures.




(** With every slot fetch failing the loop of [getAllEvents] pushes
    nothing. *)
Lemma getAllEvents_loop_all_fail (contract : EventControllerContract)
    (maxEvents : Z) (fuel : nat) :
  forall eventId events,
    (forall id, exists e, ec_events contract id = Throw e) ->
    getAllEvents_loop contract maxEvents fuel eventId events = events.
Proof.
  induction fuel as [|fuel IH]; intros eventId events Hfail; [reflexivity|].
  cbn [getAllEvents_loop].
  destruct (eventId <? maxEvents); [|reflexivity].
  unfold fetchSlot, safeContractCall.
  destruct (Hfail (toString eventId)) as [e He]; rewrite He; cbn [bind].
  now apply IH.
Qed.

Lemma getAllEvents_never_throws (provider : Provider) (chainId maxEvents : Z) :
  exists events, getAllEvents provider chainId maxEvents = Ok events.
Proof.
  unfold getAllEvents.
  destruct (getEventControllerContract provider chainId);
    cbn [bind try_catch]; now eexists.
Qed.

Lemma getEvent_never_throws (provider : Provider) (chainId : Z)
    (eventId : jstring) :
  exists event, getEvent provider chainId eventId = Ok event.
Proof.
  destruct (getEvent_returns_valid provider chainId eventId)
    as [Hnull|[event [Hsome _]]]; eexists; eassumption.
Qed.

Lemma eventExists_never_throws (provider : Provider) (chainId : Z)
    (eventId : jstring) :
  exists b, eventExists provider chainId eventId = Ok b.
Proof.
  unfold eventExists.
  destruct (getEvent_never_throws provider chainId eventId) as [event ->].
  cbn [bind try_catch]; now eexists.
Qed.

Lemma getTicketBalance_never_throws (provider : Provider) (chainId : Z)
    (address eventId : jstring) :
  exists n, getTicketBalance provider chainId address eventId = Ok n.
Proof.
  unfold getTicketBalance, safeContractCall.
  destruct (getEventControllerContract provider chainId) as [contract|e];
    cbn [bind try_catch]; [|now eexists].
  destruct (ec_balanceOf contract address eventId);
    cbn [bind try_catch]; now eexists.
Qed.

Lemma getUserEvents_never_throws (provider : Provider) (chainId : Z)
    (userAddress : jstring) (maxEvents : Z) :
  exists events,
    getUserEvents provider chainId userAddress maxEvents = Ok events.
Proof.
  unfold getUserEvents.
  destruct (getAllEvents_never_throws provider chainId maxEvents) as [events ->].
  cbn [bind try_catch]; now eexists.
Qed.

Lemma checkUsername_never_throws (provider : Provider) (chainId : Z)
    (username : jstring) :
  exists b, checkUsername (Some provider) chainId username = Ok b.
Proof.
  unfold checkUsername, safeContractCall.
  destruct (getProfileNFTMinterContract chainId provider) as [contract|e];
    cbn [bind try_catch]; [|now eexists].
  destruct (pn_usernameExists contract username);
    cbn [try_catch]; now eexists.
Qed.

(** What the event readers return when the calls of the contract
    fail. *)
Lemma event_readers_on_failed_calls (provider : Provider) (chainId : Z)
    (contract : EventControllerContract) :
  getEventControllerContract provider chainId = Ok contract ->
  (forall id, exists e, ec_events contract id = Throw e) ->
  (forall address id, exists e, ec_balanceOf contract address id = Throw e) ->
  forall maxEvents eventId user address,
    getAllEvents provider chainId maxEvents = Ok [] /\
    getEvent provider chainId eventId = Ok None /\
    eventExists provider chainId eventId = Ok false /\
    getTicketBalance provider chainId address eventId = Ok 0 /\
    getUserEvents provider chainId user maxEvents = Ok [].
Proof.
  intros Hcontract Hevents Hbalance maxEvents eventId user address.
  assert (Hall : getAllEvents provider chainId maxEvents = Ok []).
  { unfold getAllEvents; rewrite Hcontract; cbn [bind try_catch].
    now rewrite getAllEvents_loop_all_fail. }
  assert (Hone : getEvent provider chainId eventId = Ok None).
  { unfold getEvent, safeContractCall; rewrite Hcontract; cbn [bind].
    destruct (Hevents eventId) as [e ->]; reflexivity. }
  repeat split.
  - exact Hall.
  - exact Hone.
  - unfold eventExists; now rewrite Hone.
  - unfold getTicketBalance, safeContractCall; rewrite Hcontract; cbn [bind].
    destruct (Hbalance address eventId) as [e ->]; reflexivity.
  - unfold getUserEvents; now rewrite Hall.
Qed.

(** A failure to read the tribe counter leaves [getAllTribes] by its
    [throw error]. *)
Lemma getAllTribes_rethrows (provider : Provider) (chainId : Z) (e : JsError) :
  getNextTribeId provider chainId = Throw e ->
  getAllTribes provider chainId = Throw e.
Proof. intros Hnext; unfold getAllTribes; now rewrite Hnext. Qed.

Lemma getNextTribeId_rethrows (provider : Provider) (chainId : Z)
    (contract : TribeControllerContract) (e : JsError) :
  getTribeControllerContract provider chainId = Ok contract ->
  tc_nextTribeId contract = Throw e ->
  getNextTribeId provider chainId = Throw e.
Proof.
  intros Hcontract Hcall; unfold getNextTribeId.
  rewrite Hcontract; cbn [bind]; now rewrite Hcall.
Qed.

(** Once the tribe counter is read, [getAllTribes] returns: a tribe
    whose details cannot be read is left out. *)
Lemma getAllTribes_absorbs_tribe_failures (provider : Provider) (chainId : Z)
    (nextTribeId : Z) :
  getNextTribeId provider chainId = Ok nextTribeId ->
  exists tribes, getAllTribes provider chainId = Ok tribes.
Proof.
  intros Hnext; unfold getAllTribes; rewrite Hnext; cbn [bind].
  destruct (Promise_all_fulfils
              (getAllTribes_loop provider chainId nextTribeId
                 (Z.to_nat nextTribeId) 0 []))
    as [results [Hresults _]].
  { apply getAllTribes_loop_fulfilled; constructor. }
  rewrite Hresults; cbn [bind try_catch]; now eexists.
Qed.

Lemma getPost_rethrows (now : jstring) (provider : Provider) (chainId : Z)
    (postId : jstring) (contract : PostMinterContract) (e : JsError) :
  getPostMinterContract provider chainId = Ok contract ->
  pm_getPost contract postId = Throw e ->
  getPost now provider chainId postId = Throw e.
Proof.
  intros Hcontract Hcall; unfold getPost.
  rewrite Hcontract; cbn [bind]; now rewrite Hcall.
Qed.

Lemma getPostsByTribe_rethrows (provider : Provider) (chainId : Z)
    (tribeId : jstring) (offset limit : Z) (contract : PostMinterContract)
    (e : JsError) :
  getPostMinterContract provider chainId = Ok contract ->
  pm_getPostsByTribe contract tribeId offset limit = Throw e ->
  getPostsByTribe provider chainId tribeId offset limit = Throw e.
Proof.
  intros Hcontract Hcall; unfold getPostsByTribe.
  rewrite Hcontract; cbn [bind]; now rewrite Hcall.
Qed.

Lemma isMemberOfTribe_rethrows (provider : Provider) (chainId : Z)
    (tribeId address : jstring) (contract : TribeControllerContract)
    (e : JsError) :
  getTribeControllerContract provider chainId = Ok contract ->
  tc_isMember contract tribeId address = Throw e ->
  isMemberOfTribe provider chainId tribeId address = Throw e.
Proof.
  intros Hcontract Hcall; unfold isMemberOfTribe, safeContractCall.
  rewrite Hcontract; cbn [bind]; now rewrite Hcall.
Qed.

End ReadPathClaims.

(* ================================================================== *)
(** * The listing of events *)
(* ================================================================== *)

Section EventListing.

Import EventController Fixtures.

(** The loop of [getAllEvents] pushes at most one event per iteration. *)
Lemma getAllEvents_loop_length (contract : EventControllerContract)
    (maxEvents : Z) (fuel : nat) :
  forall i,
    (List.length (getAllEvents_loop contract maxEvents fuel i []) <= fuel)%nat.
Proof.
  induction fuel as [|fuel IH]; intros i; cbn [getAllEvents_loop];
    [apply Nat.le_refl|].
  destruct (i <? maxEvents); [|cbn [List.length]; lia].
  destruct (fetchSlot contract i) as [event|e].
  - destruct (negb (isValid event)); [cbn [List.length]; lia|].
    rewrite getAllEvents_loop_acc, length_app; cbn [List.length app].
    specialize (IH (i + 1)); lia.
  - specialize (IH (i + 1)); lia.
Qed.

(** What the loop of [getAllEvents] pushes from index [i] on: the
    events of some slots of increasing index between [i] and
    [maxEvents], each read from its slot and valid. *)
Lemma getAllEvents_loop_indices (contract : EventControllerContract)
    (maxEvents : Z) (fuel : nat) :
  forall i,
    exists indices,
      StronglySorted Z.lt indices /\
      Forall (fun j => i <= j < maxEvents) indices /\
      Forall2 (fun j event =>
                 exists eventData,
                   ec_events contract (toString j) = Ok eventData /\
                   0 < raw_maxTickets eventData /\
                   event = newEventImpl (toString j) eventData)
              indices (getAllEvents_loop contract maxEvents fuel i []).
Proof.
  induction fuel as [|fuel IH]; intros i; cbn [getAllEvents_loop].
  { exists []; repeat constructor. }
  destruct (Z.ltb_spec i maxEvents) as [Hlt|Hge];
    [|exists []; repeat constructor].
  destruct (IH (i + 1)) as [indices [Hsorted [Hrange Hall]]].
  assert (Hrange' : Forall (fun j => i <= j < maxEvents) indices).
  { eapply Forall_impl; [|exact Hrange]. intros j Hj; cbv beta in *; lia. }
  unfold fetchSlot, safeContractCall.
  destruct (ec_events contract (toString i)) as [eventData|e] eqn:Hcall;
    cbn [bind].
  - rewrite isValid_newEventImpl.
    destruct (Z.ltb_spec 0 (raw_maxTickets eventData)) as [Hpos|Hzero];
      cbn [negb]; [|exists []; repeat constructor].
    rewrite getAllEvents_loop_acc; cbn [app].
    exists (i :: indices); repeat split.
    + constructor; [exact Hsorted|].
      eapply Forall_impl; [|exact Hrange]. intros j Hj; cbv beta in *; lia.
    + constructor; [lia|exact Hrange'].
    + constructor; [|exact Hall].
      exists eventData; repeat split; assumption.
  - exists indices; repeat split; assumption.
Qed.

(** The loop bounded by [maxEvents] and the loop bounded by the index
    [k] of a sentinel push the same events. *)
Lemma getAllEvents_loop_cut (contract : EventControllerContract)
    (maxEvents k : Z) (sentinel : RawEvent) (d : nat) :
  ec_events contract (toString k) = Ok sentinel ->
  raw_maxTickets sentinel <= 0 ->
  k < maxEvents ->
  forall i events,
    k - i = Z.of_nat d ->
    getAllEvents_loop contract maxEvents (Z.to_nat (maxEvents - i)) i events =
    getAllEvents_loop contract k d i events.
Proof.
  intros Hsentinel Hzero Hk.
  induction d as [|d IH]; intros i events Hd.
  - replace i with k by lia.
    replace (Z.to_nat (maxEvents - k))
      with (S (Z.to_nat (maxEvents - k) - 1)) by lia.
    erewrite getAllEvents_loop_sentinel; [reflexivity|exact Hsentinel|exact Hzero].
  - replace (Z.to_nat (maxEvents - i))
      with (S (Z.to_nat (maxEvents - (i + 1)))) by lia.
    cbn [getAllEvents_loop].
    destruct (Z.ltb_spec i maxEvents) as [_|]; [|lia].
    destruct (Z.ltb_spec i k) as [_|]; [|lia].
    destruct (fetchSlot contract i) as [event|e].
    + destruct (negb (isValid event)); [reflexivity|].
      apply IH; lia.
    + apply IH; lia.
Qed.

(** X1.  [getAllEvents] always returns a list, of at most [maxEvents]
    events.  The events are those of some slots of strictly increasing
    index between 0 and [maxEvents]: each of them carries the index of
    its slot as identifier, is valid, and is the event [getEvent]
    returns for that identifier on the same ledger. *)
Theorem getAllEvents_lists_valid_events_in_order :
  forall (provider : Provider) (chainId : Z) (maxEvents : Z),
    exists events indices,
      getAllEvents provider chainId maxEvents = Ok events /\
      (List.length events <= Z.to_nat maxEvents)%nat /\
      StronglySorted Z.lt indices /\
      Forall (fun j => 0 <= j < maxEvents) indices /\
      Forall2 (fun j event =>
                 id event = toString j /\
                 isValid event = true /\
                 getEvent provider chainId (toString j) = Ok (Some event))
              indices events.
Proof.
  intros provider chainId maxEvents.
  unfold getAllEvents, getEvent.
  destruct (getEventControllerContract provider chainId) as [contract|e];
    cbn [bind try_catch].
  - destruct (getAllEvents_loop_indices contract maxEvents
                (Z.to_nat maxEvents) 0) as [indices [Hsorted [Hrange Hall]]].
    eexists; exists indices; split; [reflexivity|].
    split; [apply getAllEvents_loop_length|].
    split; [exact Hsorted|]. split; [exact Hrange|].
    eapply Forall2_impl; [|exact Hall].
    intros j event [eventData [Hcall [Hpos ->]]].
    unfold safeContractCall; rewrite Hcall; cbn [bind].
    rewrite isValid_newEventImpl.
    apply Z.ltb_lt in Hpos; rewrite Hpos; cbn [negb try_catch].
    repeat split.
  - exists [], []; split; [reflexivity|].
    split; [cbn [List.length]; lia|].
    repeat split; constructor.
Qed.

(** X2.  A sentinel (a slot whose maxTickets is not positive) at an
    index [k] below [maxEvents] ends the listing, whatever stands in
    the slots before it and after it: [getAllEvents] bounded by
    [maxEvents] returns what [getAllEvents] bounded by [k] returns, so
    no event stored beyond a sentinel is ever listed. *)
Theorem getAllEvents_nothing_beyond_sentinel :
  forall (provider : Provider) (chainId : Z) (contract : EventControllerContract)
         (maxEvents k : Z) (sentinel : RawEvent),
    getEventControllerContract provider chainId = Ok contract ->
    0 <= k < maxEvents ->
    ec_events contract (toString k) = Ok sentinel ->
    raw_maxTickets sentinel <= 0 ->
    getAllEvents provider chainId maxEvents = getAllEvents provider chainId k.
Proof.
  intros provider chainId contract maxEvents k sentinel
         Hcontract Hk Hsentinel Hzero.
  unfold getAllEvents; rewrite Hcontract; cbn [bind try_catch].
  f_equal.
  replace (Z.to_nat maxEvents) with (Z.to_nat (maxEvents - 0))
    by (f_equal; lia).
  apply (getAllEvents_loop_cut contract maxEvents k sentinel (Z.to_nat k)
           Hsentinel Hzero); lia.
Qed.

(** A valid event at 0, a sentinel at 1 and valid events at 2 and 3:
    only the event of slot 0 is listed. *)
Lemma getAllEvents_nothing_beyond_sentinel_witness :
  getAllEvents
    (event_ledger [Ok (slot 100); Ok (slot 0); Ok (slot 50); Ok (slot 7)] [])
    1 20 =
  getAllEvents
    (event_ledger [Ok (slot 100); Ok (slot 0); Ok (slot 50); Ok (slot 7)] [])
    1 1.
Proof.
  apply (getAllEvents_nothing_beyond_sentinel
           (event_ledger [Ok (slot 100); Ok (slot 0); Ok (slot 50); Ok (slot 7)] [])
           1
           {| ec_events :=
                table_events
                  [Ok (slot 100); Ok (slot 0); Ok (slot 50); Ok (slot 7)] 0;
              ec_createEvent := fun _ _ _ =>
                Ok {| hash := js "0x01"; wait := Ok {| logs := [] |} |};
              ec_balanceOf := fun _ _ => Ok 0 |}
           20 1 (slot 0)).
  - reflexivity.
  - lia.
  - reflexivity.
  - simpl; lia.
Defined.

(** One iteration of the loop of [getAllEvents], from an empty list. *)
Lemma getAllEvents_loop_step (contract : EventControllerContract)
    (maxEvents : Z) (fuel : nat) (i : Z) :
  i < maxEvents ->
  getAllEvents_loop contract maxEvents (S fuel) i [] =
  match fetchSlot contract i with
  | Ok event =>
    if negb (isValid event) then []
    else event :: getAllEvents_loop contract maxEvents fuel (i + 1) []
  | Throw _ => getAllEvents_loop contract maxEvents fuel (i + 1) []
  end.
Proof.
  intros Hlt; cbn [getAllEvents_loop].
  apply Z.ltb_lt in Hlt; rewrite Hlt.
  destruct (fetchSlot contract i) as [event|e]; [|reflexivity].
  destruct (negb (isValid event)); [reflexivity|].
  now rewrite getAllEvents_loop_acc.
Qed.

(** The loop bounded by a larger number pushes the same events first. *)
Lemma getAllEvents_loop_prefix (contract : EventControllerContract)
    (smaller larger : Z) (d : nat) :
  smaller <= larger ->
  forall i,
    smaller - i = Z.of_nat d ->
    exists more,
      getAllEvents_loop contract larger (Z.to_nat (larger - i)) i [] =
      getAllEvents_loop contract smaller d i [] ++ more.
Proof.
  intros Hle.
  induction d as [|d IH]; intros i Hd.
  - eexists; cbn [getAllEvents_loop app]; reflexivity.
  - replace (Z.to_nat (larger - i))
      with (S (Z.to_nat (larger - (i + 1)))) by lia.
    rewrite !getAllEvents_loop_step by lia.
    destruct (IH (i + 1)) as [more Hmore]; [lia|].
    destruct (fetchSlot contract i) as [event|e].
    + destruct (negb (isValid event)); [now exists []|].
      exists more; now rewrite Hmore.
    + exists more; exact Hmore.
Qed.

(** X19.  Raising [maxEvents] only appends: for two bounds, the list
    [getAllEvents] returns for the smaller one is the beginning of the
    list it returns for the larger one, on the same ledger.  The events
    already listed keep their positions. *)
Theorem getAllEvents_grows_with_maxEvents :
  forall (provider : Provider) (chainId : Z) (smaller larger : Z),
    smaller <= larger ->
    exists events more,
      getAllEvents provider chainId smaller = Ok events /\
      getAllEvents provider chainId larger = Ok (events ++ more).
Proof.
  intros provider chainId smaller larger Hle.
  unfold getAllEvents.
  destruct (getEventControllerContract provider chainId) as [contract|e];
    cbn [bind try_catch]; [|now exists [], []].
  destruct (Z.le_gt_cases 0 smaller) as [Hpos|Hneg].
  - destruct (getAllEvents_loop_prefix contract smaller larger
                (Z.to_nat smaller) Hle 0) as [more Hmore]; [lia|].
    eexists; exists more; split; [reflexivity|].
    now rewrite <- Hmore, Z.sub_0_r.
  - replace (Z.to_nat smaller) with 0%nat by lia.
    eexists; eexists; split; [reflexivity|reflexivity].
Qed.

(** The ledger with a failed fetch at index 1: one slot gives the
    event of slot 0, twenty slots give that event and the event of
    slot 2. *)
Lemma getAllEvents_grows_with_maxEvents_witness :
  exists events more,
    getAllEvents (event_ledger three_events_error_at_1 []) 1 1 = Ok events /\
    getAllEvents (event_ledger three_events_error_at_1 []) 1 20
    = Ok (events ++ more).
Proof.
  apply (getAllEvents_grows_with_maxEvents
           (event_ledger three_events_error_at_1 []) 1 1 20).
  lia.
Defined.

End EventListing.

(* ================================================================== *)
(** * The writes of eventController *)
(* ================================================================== *)

Section EventWrites.

Import EventController EventControllerWrite Fixtures.

Variable connect : Connect.
Variable new_Error : jstring -> JsError.

(** X3.  [updateEvent] never throws: it returns [true] or [false].  It
    returns [true] exactly when the slot of the event is read and holds
    a valid event (maxTickets > 0), the address of the signer is
    obtained and is the organizer's up to the case of the letters, the
    event is active, and the transaction that stores the new metadata,
    the [JSON.stringify] of the event data, is sent and confirmed. *)
Theorem updateEvent_true_iff :
  forall (signer : Signer) (chainId : Z) (eventId : jstring) (eventData : json),
    (exists success,
       updateEvent connect new_Error signer chainId eventId eventData
       = Ok success) /\
    (updateEvent connect new_Error signer chainId eventId eventData = Ok true <->
     exists contract currentEvent signerAddress tx receipt,
       getEventControllerContract (signer_provider signer) chainId = Ok contract /\
       ec_events contract eventId = Ok currentEvent /\
       0 < raw_maxTickets currentEvent /\
       getAddress signer = Ok signerAddress /\
       toLowerCase (raw_organizer currentEvent) = toLowerCase signerAddress /\
       raw_active currentEvent = true /\
       ecw_updateEventMetadata (connect_EventController connect contract signer)
         eventId (JSON_stringify eventData) = Ok tx /\
       wait tx = Ok receipt).
Proof.
  intros signer chainId eventId eventData.
  unfold updateEvent, getEvent, safeContractCall.
  destruct (getEventControllerContract (signer_provider signer) chainId)
    as [contract|e] eqn:Hcontract; cbn [bind try_catch].
  2:{ split; [now eexists|].
      split; [discriminate|intros (c & _ & _ & _ & _ & H & _); discriminate]. }
  destruct (ec_events contract eventId) as [currentEvent|e] eqn:Hevent;
    cbn [bind try_catch].
  2:{ split; [now eexists|].
      split; [discriminate|].
      intros (c & ev & _ & _ & _ & Hc & Hev & _).
      injection Hc as <-; rewrite Hevent in Hev; discriminate. }
  rewrite isValid_newEventImpl.
  destruct (Z.ltb_spec 0 (raw_maxTickets currentEvent)) as [Hpos|Hzero];
    cbn [negb bind try_catch].
  2:{ split; [now eexists|].
      split; [discriminate|].
      intros (c & ev & _ & _ & _ & Hc & Hev & Hlt & _).
      injection Hc as <-; rewrite Hevent in Hev; injection Hev as <-; lia. }
  destruct (getAddress signer) as [signerAddress|e] eqn:Haddress;
    cbn [bind try_catch].
  2:{ split; [now eexists|].
      split; [discriminate|].
      intros (_ & _ & a & _ & _ & _ & _ & _ & Ha & _); discriminate. }
  cbn [organizer active newEventImpl].
  destruct (jstring_eqb (toLowerCase (raw_organizer currentEvent))
                        (toLowerCase signerAddress)) eqn:Hsame;
    cbn [negb bind try_catch].
  2:{ split; [now eexists|].
      split; [discriminate|].
      intros (c & ev & a & _ & _ & Hc & Hev & _ & Ha & Heq & _).
      injection Hc as <-; rewrite Hevent in Hev; injection Hev as <-.
      injection Ha as <-.
      apply jstring_eqb_eq in Heq; congruence. }
  apply jstring_eqb_eq in Hsame.
  destruct (raw_active currentEvent) eqn:Hactive; cbn [negb bind try_catch].
  2:{ split; [now eexists|].
      split; [discriminate|].
      intros (c & ev & _ & _ & _ & Hc & Hev & _ & _ & _ & Hact & _).
      injection Hc as <-; rewrite Hevent in Hev; injection Hev as <-.
      congruence. }
  destruct (ecw_updateEventMetadata
              (connect_EventController connect contract signer) eventId
              (JSON_stringify eventData)) as [tx|e] eqn:Htx;
    cbn [bind try_catch].
  2:{ split; [now eexists|].
      split; [discriminate|].
      intros (c & _ & _ & t & _ & Hc & _ & _ & _ & _ & _ & Ht & _).
      injection Hc as <-; rewrite Htx in Ht; discriminate. }
  destruct (wait tx) as [receipt|e] eqn:Hwait; cbn [bind try_catch].
  - split; [now eexists|].
    split; [intros _|reflexivity].
    exists contract, currentEvent, signerAddress, tx, receipt.
    repeat split; assumption.
  - split; [now eexists|].
    split; [discriminate|].
    intros (c & _ & _ & t & r & Hc & _ & _ & _ & _ & _ & Ht & Hw).
    injection Hc as <-; rewrite Htx in Ht; injection Ht as <-.
    rewrite Hwait in Hw; discriminate.
Qed.

End EventWrites.

(* ================================================================== *)
(** * Properties of the events context *)
(* ================================================================== *)

Section EventsContextFacts.

Import EventController EventControllerWrite EventsContext.
Import Fixtures WalletFixtures.

(** [purchaseTickets] and [cancelEvent] turn every failure into
    [false]. *)
Lemma purchaseTickets_returns (connect : Connect) (signer : Signer)
    (chainId : Z) (eventId : jstring) (amount : Z) (price : jstring) :
  exists success,
    purchaseTickets connect signer chainId eventId amount price = Ok success.
Proof.
  unfold purchaseTickets, safeContractCall.
  destruct (getEventControllerContract (signer_provider signer) chainId)
    as [contract|e]; cbn [bind try_catch]; [|now eexists].
  destruct (ecw_purchaseTickets _ eventId amount price) as [tx|e];
    cbn [bind try_catch]; [|now eexists].
  destruct (wait tx); cbn [bind try_catch]; now eexists.
Qed.

Lemma cancelEvent_returns (connect : Connect) (signer : Signer)
    (chainId : Z) (eventId : jstring) :
  exists success, cancelEvent connect signer chainId eventId = Ok success.
Proof.
  unfold cancelEvent, safeContractCall.
  destruct (getEventControllerContract (signer_provider signer) chainId)
    as [contract|e]; cbn [bind try_catch]; [|now eexists].
  destruct (ecw_cancelEvent _ eventId) as [tx|e];
    cbn [bind try_catch]; [|now eexists].
  destruct (wait tx); cbn [bind try_catch]; now eexists.
Qed.

(** [getAllEvents] always returns a list. *)
Lemma getAllEvents_returns (provider : Provider) (chainId maxEvents : Z) :
  exists events, getAllEvents provider chainId maxEvents = Ok events.
Proof.
  unfold getAllEvents.
  destruct (getEventControllerContract provider chainId);
    cbn [bind try_catch]; now eexists.
Qed.

(** X4.  [refreshEvents] with a provider never reports a failure: it
    ends with [loading] false and [error] null, whatever the ledger
    answers.  [allEvents] is the list [getAllEvents] returns for 20
    slots, the empty list when the contract cannot be reached;
    [userEvents] is, with an account, the events of the list whose
    organizer is the account up to the case of the letters, and is
    left as it was without one. *)
Theorem refreshEvents_never_reports_failure :
  forall (account : option jstring) (provider : Provider) (chainId : Z)
         (st : State),
    exists fetchedEvents,
      getAllEvents provider chainId 20 = Ok fetchedEvents /\
      (forall e, getEventControllerContract provider chainId = Throw e ->
                 fetchedEvents = []) /\
      refreshEvents account (Some provider) chainId st =
      {| allEvents := fetchedEvents;
         userEvents :=
           match account with
           | Some (c :: address) =>
             filter (fun event =>
                       jstring_eqb (toLowerCase (organizer event))
                                   (toLowerCase (c :: address)))
                    fetchedEvents
           | _ => userEvents st
           end;
         loading := false;
         error := None;
         isOrganizer := isOrganizer st;
         loadingRole := loadingRole st |}.
Proof.
  intros account provider chainId st.
  destruct (getAllEvents_returns provider chainId 20) as [events Hall].
  exists events; split; [exact Hall|]. split.
  - intros e He; unfold getAllEvents in Hall; rewrite He in Hall.
    cbn [bind try_catch] in Hall; now injection Hall as <-.
  - unfold refreshEvents, getUserEvents; rewrite Hall; cbn [bind try_catch].
    destruct account as [[|c address]|]; reflexivity.
Qed.

(** X5.  With a signer and a connected wallet [purchaseEventTickets]
    never throws.  When the event cannot be read, is not valid or is
    not active it returns [false] and leaves the state as it was,
    whatever the wallet would do; otherwise it returns what
    [purchaseTickets] returns and the events are refreshed, also when
    the purchase failed. *)
Theorem purchaseEventTickets_outcome :
  forall (account : option jstring) (provider : option Provider)
         (signer : Signer) (chainId : Z) (connect : Connect)
         (new_Error : jstring -> JsError)
         (eventId : jstring) (amount : Z) (price : jstring) (st : State),
    let onSale :=
      match getEvent (signer_provider signer) chainId eventId with
      | Ok (Some event) => active event
      | _ => false
      end in
    exists success,
      purchaseEventTickets account true provider (Some signer) chainId connect
        new_Error eventId amount price st =
      (Ok success,
       if onSale then refreshEvents account provider chainId st else st) /\
      (if onSale
       then purchaseTickets connect signer chainId eventId amount price
            = Ok success
       else success = false).
Proof.
  intros account provider signer chainId connect new_Error
         eventId amount price st onSale.
  subst onSale; unfold purchaseEventTickets.
  destruct (getEvent (signer_provider signer) chainId eventId)
    as [[event|]|e]; cbn [bind].
  - destruct (active event); cbn [negb].
    + destruct (purchaseTickets_returns connect signer chainId eventId
                  amount price) as [success Hpurchase].
      rewrite Hpurchase; cbn [bind].
      exists success; split; reflexivity.
    + exists false; split; reflexivity.
  - exists false; split; reflexivity.
  - exists false; split; reflexivity.
Qed.

(** X6.  [cancelUserEvent] of an organizer with a connected wallet
    never throws, and it reaches the contract only for an event that
    is read, is valid and whose organizer is the wallet's account up
    to the case of the letters: for any other event, and when the
    wallet reports no account, it returns [false] and leaves the
    state as it was.  For an event of the account it returns what
    [cancelEvent] returns and the events are refreshed. *)
Theorem cancelUserEvent_outcome :
  forall (account : option jstring) (provider : option Provider)
         (signer : Signer) (chainId : Z) (connect : Connect)
         (new_Error : jstring -> JsError) (eventId : jstring) (st : State),
    isOrganizer st = true ->
    let own :=
      match getEvent (signer_provider signer) chainId eventId, account with
      | Ok (Some event), Some address =>
        jstring_eqb (toLowerCase (organizer event)) (toLowerCase address)
      | _, _ => false
      end in
    exists success,
      cancelUserEvent account true provider (Some signer) chainId connect
        new_Error eventId st =
      (Ok success,
       if own then refreshEvents account provider chainId st else st) /\
      (if own
       then cancelEvent connect signer chainId eventId = Ok success
       else success = false).
Proof.
  intros account provider signer chainId connect new_Error eventId st
         Hrole own.
  subst own; unfold cancelUserEvent, not_organizer.
  rewrite Hrole; cbn [andb].
  destruct (getEvent (signer_provider signer) chainId eventId)
    as [[event|]|e]; cbn [bind].
  - destruct account as [address|].
    + destruct (jstring_eqb (toLowerCase (organizer event))
                            (toLowerCase address)); cbn [negb].
      * destruct (cancelEvent_returns connect signer chainId eventId)
          as [success Hcancel].
        rewrite Hcancel; cbn [bind].
        exists success; split; reflexivity.
      * exists false; split; reflexivity.
    + exists false; split; reflexivity.
  - exists false; split; reflexivity.
  - exists false; split; reflexivity.
Qed.

(** The organizer cancels event 1 and the events are refreshed; for
    another account the call returns [false]. *)
Lemma cancelUserEvent_outcome_witness :
  (exists success,
     cancelUserEvent (Some organizer_account) true
       (Some (event_ledger three_events []))
       (Some (signer_of (event_ledger three_events []))) 1 signing plain_Error
       (js "1") (events_initial true) =
     (Ok success,
      refreshEvents (Some organizer_account)
        (Some (event_ledger three_events [])) 1 (events_initial true)) /\
     cancelEvent signing (signer_of (event_ledger three_events [])) 1 (js "1")
     = Ok success) /\
  cancelUserEvent (Some other_account) true
    (Some (event_ledger three_events []))
    (Some (signer_of (event_ledger three_events []))) 1 signing plain_Error
    (js "1") (events_initial true) =
  (Ok false, events_initial true).
Proof.
  split.
  - exact (cancelUserEvent_outcome (Some organizer_account)
             (Some (event_ledger three_events []))
             (signer_of (event_ledger three_events [])) 1 signing plain_Error
             (js "1") (events_initial true) eq_refl).
  - destruct (cancelUserEvent_outcome (Some other_account)
                (Some (event_ledger three_events []))
                (signer_of (event_ledger three_events [])) 1 signing plain_Error
                (js "1") (events_initial true) eq_refl)
      as [success [Hcall Hfalse]].
    cbv zeta in Hfalse; vm_compute in Hfalse; subst success.
    exact Hcall.
Defined.

(** X7.  Without the organizer role the context never reaches the
    contract: [createNewEvent], [updateEvent] and [cancelUserEvent]
    throw the error of the guard and leave the state as it was,
    whatever the wallet, the signer and the ledger are. *)
Theorem organizer_role_guards_the_writes :
  forall (account : option jstring) (isConnected : bool)
         (provider : option Provider) (signer : option Signer) (chainId : Z)
         (connect : Connect) (new_Error : jstring -> JsError)
         (eventId : jstring) (eventData : json) (maxTickets : Z)
         (price : jstring) (st : State),
    isOrganizer st = false ->
    createNewEvent account isConnected provider signer chainId new_Error
      eventData maxTickets price st =
    (Throw (new_Error (js "Must be connected and have organizer role")), st) /\
    updateEventFunc account isConnected provider signer chainId connect
      new_Error eventId eventData st =
    (Throw (new_Error (js "Must be connected and have organizer role")), st) /\
    cancelUserEvent account isConnected provider signer chainId connect
      new_Error eventId st =
    (Throw (new_Error (js "Must be connected and have organizer role")), st).
Proof.
  intros account isConnected provider signer chainId connect new_Error
         eventId eventData maxTickets price st Hrole.
  unfold createNewEvent, updateEventFunc, cancelUserEvent.
  rewrite Hrole, !andb_false_r.
  destruct signer; repeat split.
Qed.

(** A connected wallet without the role, a signing wallet and a ledger
    that holds the event. *)
Lemma organizer_role_guards_the_writes_witness :
  createNewEvent (Some organizer_account) true
    (Some (event_ledger three_events []))
    (Some (signer_of (event_ledger three_events []))) 1 plain_Error
    (JObject []) 10 (js "1") (events_initial false) =
  (Throw (plain_Error (js "Must be connected and have organizer role")),
   events_initial false) /\
  updateEventFunc (Some organizer_account) true
    (Some (event_ledger three_events []))
    (Some (signer_of (event_ledger three_events []))) 1 signing plain_Error
    (js "1") (JObject []) (events_initial false) =
  (Throw (plain_Error (js "Must be connected and have organizer role")),
   events_initial false) /\
  cancelUserEvent (Some organizer_account) true
    (Some (event_ledger three_events []))
    (Some (signer_of (event_ledger three_events []))) 1 signing plain_Error
    (js "1") (events_initial false) =
  (Throw (plain_Error (js "Must be connected and have organizer role")),
   events_initial false).
Proof.
  exact (organizer_role_guards_the_writes (Some organizer_account) true
           (Some (event_ledger three_events []))
           (Some (signer_of (event_ledger three_events []))) 1 signing
           plain_Error (js "1") (JObject []) 10 (js "1")
           (events_initial false) eq_refl).
Defined.

End EventsContextFacts.

(* ================================================================== *)
(** * The listing of tribes *)
(* ================================================================== *)

(** A string literal of the source is a well-formed string. *)
Ltac well_formed_literal :=
  unfold well_formed; repeat (constructor; [reflexivity|]); constructor.

Section TribeListing.

Import TribeController TribeControllerWrite.
Import Fixtures PostFixtures TribeFixtures.

Variable provider : Provider.
Variable chainId : Z.

(** The tribe [getTribeDetails] contributes to the list: none when it
    returns [null]. *)
Lemma keep_tribes_flat_map (results : list (option Tribe)) :
  keep_tribes results =
  flat_map (fun r => match r with Some tribe => [tribe] | None => [] end)
           results.
Proof.
  induction results as [|[tribe|] rest IH]; cbn [keep_tribes flat_map app];
    [reflexivity|now rewrite IH|exact IH].
Qed.

(** The loop of [getAllTribes] pushes one promise per identifier. *)
Lemma getAllTribes_loop_seq (nextTribeId : Z) (fuel : nat) :
  forall (s : nat) tribePromises,
    (fuel <= Z.to_nat nextTribeId - s)%nat ->
    getAllTribes_loop provider chainId nextTribeId fuel (Z.of_nat s)
      tribePromises =
    tribePromises ++
    map (fun j => getTribeDetails provider chainId (toString (Z.of_nat j)))
        (seq s fuel).
Proof.
  induction fuel as [|fuel IH]; intros s tribePromises Hfuel;
    cbn [getAllTribes_loop seq map].
  - now rewrite app_nil_r.
  - destruct (Z.ltb_spec (Z.of_nat s) nextTribeId) as [_|]; [|lia].
    replace (Z.of_nat s + 1) with (Z.of_nat (S s)) by lia.
    rewrite IH by lia.
    now rewrite <- app_assoc.
Qed.

Lemma Promise_all_getTribeDetails (ids : list nat) :
  Promise_all
    (map (fun j => getTribeDetails provider chainId (toString (Z.of_nat j))) ids)
  = Ok (map (fun j =>
               match getTribeDetails provider chainId (toString (Z.of_nat j)) with
               | Ok tribe => tribe
               | Throw _ => None
               end) ids).
Proof.
  induction ids as [|j ids IH]; cbn [map Promise_all]; [reflexivity|].
  destruct (getTribeDetails_never_throws provider chainId (toString (Z.of_nat j)))
    as [tribe Htribe].
  now rewrite Htribe, IH.
Qed.

(** The results [getAllTribes] awaits: one per identifier below the
    counter, [null] for a tribe whose details cannot be read. *)
Lemma getAllTribes_results (nextTribeId : Z) :
  Promise_all
    (getAllTribes_loop provider chainId nextTribeId (Z.to_nat nextTribeId) 0 [])
  = Ok (map (fun j =>
               match getTribeDetails provider chainId (toString (Z.of_nat j)) with
               | Ok tribe => tribe
               | Throw _ => None
               end)
            (seq 0 (Z.to_nat nextTribeId))).
Proof.
  change 0 with (Z.of_nat 0).
  rewrite getAllTribes_loop_seq by lia; cbn [app].
  apply Promise_all_getTribeDetails.
Qed.

(** The tribes kept of these results. *)
Lemma keep_tribes_results (ids : list nat) :
  keep_tribes
    (map (fun j =>
            match getTribeDetails provider chainId (toString (Z.of_nat j)) with
            | Ok tribe => tribe
            | Throw _ => None
            end) ids) =
  flat_map
    (fun j =>
       match getTribeDetails provider chainId (toString (Z.of_nat j)) with
       | Ok (Some tribe) => [tribe]
       | _ => []
       end) ids.
Proof.
  rewrite keep_tribes_flat_map, flat_map_concat_map, map_map,
    <- flat_map_concat_map.
  apply flat_map_ext; intros j.
  now destruct (getTribeDetails provider chainId (toString (Z.of_nat j)))
    as [[tribe|]|e].
Qed.

(** X8.  Once the counter [nextTribeId] is read, [getAllTribes] looks
    at every identifier below it and returns, in ascending order, the
    tribes whose details could be read.  Unlike the listing of events,
    an identifier whose details cannot be read neither fails nor ends
    the listing: the tribes after it are returned. *)
Theorem getAllTribes_skips_unreadable_tribes :
  forall (nextTribeId : Z),
    getNextTribeId provider chainId = Ok nextTribeId ->
    getAllTribes provider chainId =
    Ok (flat_map
          (fun j =>
             match getTribeDetails provider chainId (toString (Z.of_nat j)) with
             | Ok (Some tribe) => [tribe]
             | _ => []
             end)
          (seq 0 (Z.to_nat nextTribeId))).
Proof.
  intros nextTribeId Hnext.
  unfold getAllTribes; rewrite Hnext; cbn [bind].
  rewrite getAllTribes_results; cbn [bind try_catch].
  now rewrite keep_tribes_results.
Qed.

(** The description [createTribe] writes is the description
    [getTribeDetails] reads. *)
Lemma description_of_tribe_metadata (now description : jstring) :
  well_formed now ->
  well_formed description ->
  description_of (JSON_stringify (tribe_metadata now description)) =
  JString description.
Proof.
  intros Hnow Hdescription.
  unfold description_of, tribe_metadata.
  change (JObject [(js "description", JString description);
                   (js "createdAt", JString now)])
    with (JObject (string_members [(js "description", description);
                                   (js "createdAt", now)])).
  rewrite JSON_parse_stringify_string_object.
  - cbn [bind get string_members map fst snd].
    change (lookup (js "description")
              [(js "description", JString description);
               (js "createdAt", JString now)])
      with (Some (JString description)).
    now destruct description.
  - repeat (apply Forall_cons;
            [split; cbn [fst snd];
             first [assumption|well_formed_literal]|]).
    apply Forall_nil.
Qed.

(** X9.  The description survives the round trip through the ledger:
    a tribe whose stored metadata is the text [createTribe] writes for
    a description, [JSON.stringify] of the description and the time of
    creation, is returned by [getTribeDetails] with that description.
    A tribe whose stored metadata is not JSON is returned as well,
    with the empty description. *)
Theorem getTribeDetails_reads_description_of_createTribe :
  forall (tribeId : jstring) (contract : TribeControllerContract)
         (details : RawTribe),
    getTribeControllerContract provider chainId = Ok contract ->
    tc_getTribeDetails contract tribeId = Ok details ->
    (forall now text,
       well_formed now ->
       well_formed text ->
       raw_tribe_metadata details =
       JSON_stringify (tribe_metadata now text) ->
       exists tribe,
         getTribeDetails provider chainId tribeId = Ok (Some tribe) /\
         id tribe = tribeId /\
         name tribe = raw_name details /\
         description tribe = JString text) /\
    (forall e,
       JSON_parse (raw_tribe_metadata details) = Throw e ->
       exists tribe,
         getTribeDetails provider chainId tribeId = Ok (Some tribe) /\
         description tribe = JString []).
Proof.
  intros tribeId contract details Hcontract Hdetails.
  unfold getTribeDetails; rewrite Hcontract; cbn [bind].
  rewrite Hdetails; cbn [bind try_catch].
  split.
  - intros now text Hnow Htext Hblob.
    eexists; split; [reflexivity|].
    cbn [id name description]; repeat split.
    rewrite Hblob.
    now apply description_of_tribe_metadata.
  - intros e Hparse.
    eexists; split; [reflexivity|].
    cbn [description]; unfold description_of.
    now rewrite Hparse.
Qed.

End TribeListing.

Section TribeListingExamples.

Import TribeController TribeControllerWrite.
Import Fixtures PostFixtures TribeFixtures.

(** Four identifiers under the counter, the details of tribe 1 cannot
    be read: tribes 0, 2 and 3 are listed. *)
Lemma getAllTribes_skips_unreadable_tribes_witness :
  getAllTribes (tribe_ledger (Ok 4) four_tribes) 1 =
  Ok [listed_tribe (js "0") (js "Builders") (JString (js "We build"));
      listed_tribe (js "2") (js "Readers") (JString (js "We read"));
      listed_tribe (js "3") (js "Broken") (JString [])].
Proof.
  rewrite (getAllTribes_skips_unreadable_tribes
             (tribe_ledger (Ok 4) four_tribes) 1 4 eq_refl).
  vm_compute; reflexivity.
Defined.

(** Tribe 0 is read back with the description it was created with,
    tribe 3 with the empty description. *)
Lemma getTribeDetails_reads_description_of_createTribe_witness :
  (exists tribe,
     getTribeDetails (tribe_ledger (Ok 4) four_tribes) 1 (js "0")
     = Ok (Some tribe) /\
     id tribe = js "0" /\
     name tribe = js "Builders" /\
     description tribe = JString (js "We build")) /\
  (exists tribe,
     getTribeDetails (tribe_ledger (Ok 4) four_tribes) 1 (js "3")
     = Ok (Some tribe) /\
     description tribe = JString []).
Proof.
  split.
  - apply (proj1 (getTribeDetails_reads_description_of_createTribe
                    (tribe_ledger (Ok 4) four_tribes) 1 (js "0")
                    (tribe_contract (Ok 4) four_tribes)
                    (stored_tribe (js "Builders")
                       (JSON_stringify (tribe_metadata day1 (js "We build"))))
                    eq_refl eq_refl)
                 day1 (js "We build")).
    + well_formed_literal.
    + well_formed_literal.
    + reflexivity.
  - apply (proj2 (getTribeDetails_reads_description_of_createTribe
                    (tribe_ledger (Ok 4) four_tribes) 1 (js "3")
                    (tribe_contract (Ok 4) four_tribes)
                    (stored_tribe (js "Broken") (js "description: none"))
                    eq_refl eq_refl)
                 (SyntaxError "Unexpected token in JSON")).
    vm_compute; reflexivity.
Defined.

End TribeListingExamples.

(* ================================================================== *)
(** * Properties of the posts context and of the tribe form *)
(* ================================================================== *)

Section PostsContextFacts.

Import PostMinter PostMinterTerms PostsContext.
Import Fixtures PostFixtures TribeFixtures WalletFixtures.

(** X10.  Tribes whose enumeration fails are passed over, however many
    they are: [getAllPosts] returns what it returns for the tribes
    whose enumeration succeeds, in their order. *)
Theorem getAllPosts_ignores_failing_tribes :
  forall (now : jstring) (Date_getTime : option json -> result JsNumber)
         (provider : Provider) (chainId : Z) (tribeIds : list jstring)
         (limit : Z),
    getAllPosts now Date_getTime provider chainId tribeIds limit =
    getAllPosts now Date_getTime provider chainId
      (filter (fun tribeId =>
                 match getPostsByTribe provider chainId tribeId 0 limit with
                 | Ok _ => true
                 | Throw _ => false
                 end) tribeIds)
      limit.
Proof.
  intros now Date_getTime provider chainId tribeIds limit.
  unfold getAllPosts.
  rewrite !getAllPosts_loop_flat_map; cbn [app].
  replace (flat_map (fetches_of_tribe now provider chainId limit)
             (filter (fun tribeId =>
                        match getPostsByTribe provider chainId tribeId 0 limit with
                        | Ok _ => true
                        | Throw _ => false
                        end) tribeIds))
    with (flat_map (fetches_of_tribe now provider chainId limit) tribeIds);
    [reflexivity|].
  induction tribeIds as [|tribeId rest IH]; cbn [flat_map filter];
    [reflexivity|].
  unfold fetches_of_tribe at 1.
  destruct (getPostsByTribe provider chainId tribeId 0 limit) as [page|e]
    eqn:Hpage; cbn [flat_map app].
  - unfold fetches_of_tribe at 2; rewrite Hpage.
    now rewrite IH.
  - exact IH.
Qed.

(** X11.  [refreshPosts] with no tribe loaded changes nothing, so the
    [loading] flag keeps the value it has.  With tribes loaded, one
    post that a tribe lists and that cannot be fetched makes it keep
    the posts it had and report the failure. *)
Theorem refreshPosts_keeps_posts_on_failure :
  forall (now : jstring) (Date_getTime : option json -> result JsNumber)
         (provider : Provider) (chainId : Z) (st : State),
    (tribes st = [] ->
     refreshPosts (Some provider) chainId now Date_getTime st = st) /\
    (forall tribe page postId e,
       In tribe (tribes st) ->
       getPostsByTribe provider chainId (TribeController.id tribe) 0 10
       = Ok page ->
       In postId (raw_postIds page) ->
       getPost now provider chainId (toString postId) = Throw e ->
       refreshPosts (Some provider) chainId now Date_getTime st =
       {| posts := posts st;
          loading := false;
          error := Some (js "Failed to load posts");
          tribes := tribes st;
          tribesLoading := tribesLoading st;
          tribesError := tribesError st |}).
Proof.
  intros now Date_getTime provider chainId st; split.
  - intros Hnone; unfold refreshPosts; now rewrite Hnone.
  - intros tribe page postId e Htribe Hpage Hpost Hfetch.
    unfold refreshPosts.
    destruct (tribes st) as [|first others] eqn:Htribes; [destruct Htribe|].
    cbn [tribes setError setLoading]; rewrite Htribes.
    unfold getAllPosts.
    rewrite getAllPosts_loop_flat_map; cbn [app].
    destruct (Promise_all_rejects
                (flat_map (fetches_of_tribe now provider chainId 10)
                   (map TribeController.id (first :: others))) e)
      as [e' He'].
    + apply in_flat_map; exists (TribeController.id tribe); split.
      * now apply in_map.
      * unfold fetches_of_tribe; rewrite Hpage, <- Hfetch.
        apply (in_map (fun postId =>
                         getPost now provider chainId (toString postId))).
        exact Hpost.
    + rewrite He'; cbn [bind try_catch].
      unfold setLoading, setError; cbn [posts loading error tribes
                                        tribesLoading tribesError].
      now rewrite Htribes.
Qed.

(** Tribes 1 and 3 are loaded and post 3 of tribe 3 cannot be fetched:
    the two posts shown stay and the failure is reported; without
    tribes nothing changes. *)
Lemma refreshPosts_keeps_posts_on_failure_witness :
  refreshPosts (Some (post_ledger pages posts_with_failure)) 1 day1 calendar
    {| posts := []; loading := true; error := None; tribes := [];
       tribesLoading := false; tribesError := None |} =
  {| posts := []; loading := true; error := None; tribes := [];
     tribesLoading := false; tribesError := None |} /\
  refreshPosts (Some (post_ledger pages posts_with_failure)) 1 day1 calendar
    {| posts := [fetched (js "1") 1 JNull];
       loading := false; error := None;
       tribes := [listed_tribe (js "1") (js "Builders") (JString []);
                  listed_tribe (js "3") (js "Readers") (JString [])];
       tribesLoading := false; tribesError := None |} =
  {| posts := [fetched (js "1") 1 JNull];
     loading := false; error := Some (js "Failed to load posts");
     tribes := [listed_tribe (js "1") (js "Builders") (JString []);
                listed_tribe (js "3") (js "Readers") (JString [])];
     tribesLoading := false; tribesError := None |}.
Proof.
  split.
  - apply (proj1 (refreshPosts_keeps_posts_on_failure day1 calendar
                    (post_ledger pages posts_with_failure) 1
                    {| posts := []; loading := true; error := None;
                       tribes := []; tribesLoading := false;
                       tribesError := None |})).
    reflexivity.
  - apply (proj2 (refreshPosts_keeps_posts_on_failure day1 calendar
                    (post_ledger pages posts_with_failure) 1
                    {| posts := [fetched (js "1") 1 JNull];
                       loading := false; error := None;
                       tribes :=
                         [listed_tribe (js "1") (js "Builders") (JString []);
                          listed_tribe (js "3") (js "Readers") (JString [])];
                       tribesLoading := false; tribesError := None |})
                 (listed_tribe (js "3") (js "Readers") (JString []))
                 {| raw_postIds := [3]; raw_total := 1 |} 3
                 (TransportError "network unreachable")).
    + right; left; reflexivity.
    + reflexivity.
    + left; reflexivity.
    + reflexivity.
Defined.

(** X12.  [refreshTribes] with a provider reports a failure exactly
    when the counter of tribes cannot be read, and then keeps the
    tribes it had.  Once the counter is read it ends without error,
    with the tribes whose details could be read, in ascending order of
    identifier. *)
Theorem refreshTribes_reports_only_a_failed_counter :
  forall (provider : Provider) (chainId : Z) (st : State),
    refreshTribes (Some provider) chainId st =
    match TribeController.getNextTribeId provider chainId with
    | Ok nextTribeId =>
      {| posts := posts st; loading := loading st; error := error st;
         tribes :=
           flat_map
             (fun j =>
                match TribeController.getTribeDetails provider chainId
                        (toString (Z.of_nat j)) with
                | Ok (Some tribe) => [tribe]
                | _ => []
                end)
             (seq 0 (Z.to_nat nextTribeId));
         tribesLoading := false;
         tribesError := None |}
    | Throw _ =>
      {| posts := posts st; loading := loading st; error := error st;
         tribes := tribes st;
         tribesLoading := false;
         tribesError := Some (js "Failed to load tribes") |}
    end.
Proof.
  intros provider chainId st; unfold refreshTribes.
  destruct (TribeController.getNextTribeId provider chainId)
    as [nextTribeId|e] eqn:Hnext.
  - unfold TribeController.getAllTribes; rewrite Hnext; cbn [bind].
    rewrite getAllTribes_results; cbn [bind try_catch].
    now rewrite keep_tribes_results.
  - now rewrite (getAllTribes_rethrows provider chainId e Hnext).
Qed.

End PostsContextFacts.

Section CreateTribeFormFacts.

Import TribeControllerWrite CreateTribeForm.
Import Fixtures PostFixtures TribeFixtures WalletFixtures.

(** X13.  The join type chosen in the form never reaches the contract.
    With a name and a description and a connected wallet,
    [handleSubmit] has the contract called once, with the name, the
    [JSON.stringify] of the description and the time, no admins, the
    join type 0 ([JoinType.Open]) and the entry fee ["0"], whatever
    the join type of the form is.  When the transaction is confirmed
    the form is emptied and the tribes are refreshed; when it is not,
    the form keeps its fields and shows the failure. *)
Theorem handleSubmit_creates_an_open_tribe :
  forall (provider : option Provider) (signer : Signer) (chainId : Z)
         (connect : Connect) (new_Error : jstring -> JsError) (now : jstring)
         (f : Form) (st : PostsContext.State),
    name f <> [] ->
    description f <> [] ->
    handleSubmit
      (PostsContext.createNewTribe true provider (Some signer) chainId connect
         new_Error now) f st =
    match
      (contract <- TribeController.getTribeControllerContract
                     (signer_provider signer) chainId ;;
       tx <- tcw_createTribe (connect_TribeController connect contract signer)
               (name f)
               (JSON_stringify (tribe_metadata now (description f)))
               [] 0 (js "0") [] ;;
       wait tx)
    with
    | Ok _ =>
      ({| name := []; description := []; joinType := Open;
          isSubmitting := false; error := None |},
       PostsContext.refreshTribes provider chainId st)
    | Throw _ =>
      ({| name := name f; description := description f;
          joinType := joinType f; isSubmitting := false;
          error := Some (js "Failed to create tribe. Please try again.") |},
       st)
    end.
Proof.
  intros provider signer chainId connect new_Error now f st Hname Hdescription.
  unfold handleSubmit.
  destruct (name f) as [|c n] eqn:Hn; [contradiction|].
  destruct (description f) as [|d t] eqn:Hd; [contradiction|].
  cbn [name description setIsSubmitting setError].
  rewrite Hn, Hd.
  unfold PostsContext.createNewTribe, createTribe, safeContractCall.
  assert (Hfields : forall (g : Form),
            name g = name f -> description g = description f ->
            joinType g = joinType f -> isSubmitting g = false ->
            error g = Some (js "Failed to create tribe. Please try again.") ->
            g = {| name := c :: n; description := d :: t;
                   joinType := joinType f; isSubmitting := false;
                   error :=
                     Some (js "Failed to create tribe. Please try again.") |}).
  { intros [gn gd gj gs ge]; cbn [name description joinType isSubmitting error].
    rewrite Hn, Hd; now intros -> -> -> -> ->. }
  destruct (TribeController.getTribeControllerContract
              (signer_provider signer) chainId) as [contract|e];
    cbn [bind try_catch]; [|f_equal; now apply Hfields].
  cbn [JoinType_value].
  destruct (tcw_createTribe (connect_TribeController connect contract signer)
              (c :: n) (JSON_stringify (tribe_metadata now (d :: t)))
              [] 0 (js "0") []) as [tx|e];
    cbn [bind try_catch]; [|f_equal; now apply Hfields].
  destruct (wait tx); cbn [try_catch]; [reflexivity|f_equal; now apply Hfields].
Qed.

(** A form filled in with the join type [Approval] and a signing
    wallet: the tribe is created and the form is emptied. *)
Lemma handleSubmit_creates_an_open_tribe_witness :
  handleSubmit
    (PostsContext.createNewTribe true None
       (Some (signer_of (tribe_ledger (Ok 4) four_tribes))) 1 signing
       plain_Error day1)
    {| name := js "Painters"; description := js "We paint";
       joinType := Approval; isSubmitting := false; error := None |}
    {| PostsContext.posts := []; PostsContext.loading := true;
       PostsContext.error := None; PostsContext.tribes := [];
       PostsContext.tribesLoading := false;
       PostsContext.tribesError := None |} =
  ({| name := []; description := []; joinType := Open;
      isSubmitting := false; error := None |},
   {| PostsContext.posts := []; PostsContext.loading := true;
      PostsContext.error := None; PostsContext.tribes := [];
      PostsContext.tribesLoading := false;
      PostsContext.tribesError := None |}).
Proof.
  exact (handleSubmit_creates_an_open_tribe None
           (signer_of (tribe_ledger (Ok 4) four_tribes)) 1 signing
           plain_Error day1
           {| name := js "Painters"; description := js "We paint";
              joinType := Approval; isSubmitting := false; error := None |}
           {| PostsContext.posts := []; PostsContext.loading := true;
              PostsContext.error := None; PostsContext.tribes := [];
              PostsContext.tribesLoading := false;
              PostsContext.tribesError := None |}
           ltac:(discriminate) ltac:(discriminate)).
Defined.

End CreateTribeFormFacts.

(* ================================================================== *)
(** * The round trip through JSON.stringify and JSON.parse *)
(* ================================================================== *)

Section JSONRoundTrip.

Import JSONTerms.

Local Open Scope N_scope.

(** Induction on a value, with the elements of an array and the values
    of an object as the smaller values. *)
Lemma json_induction (P : json -> Prop) :
  P JNull ->
  (forall b, P (JBool b)) ->
  (forall literal, P (JNumber literal)) ->
  (forall s, P (JString s)) ->
  (forall elements, Forall P elements -> P (JArray elements)) ->
  (forall members, Forall (fun member => P (snd member)) members ->
                   P (JObject members)) ->
  forall v, P v.
Proof.
  intros Hnull Hbool Hnumber Hstring Harray Hobject.
  fix IH 1; intros [|b|literal|s|elements|members].
  - exact Hnull.
  - apply Hbool.
  - apply Hnumber.
  - apply Hstring.
  - apply Harray.
    induction elements as [|x rest IHrest]; constructor;
      [apply IH|exact IHrest].
  - apply Hobject.
    induction members as [|[key x] rest IHrest]; constructor;
      [apply IH|exact IHrest].
Qed.

Lemma text_only_array (elements : list json) :
  text_only (JArray elements) <-> Forall text_only elements.
Proof.
  induction elements as [|x rest IH]; [split; constructor|].
  split.
  - intros [Hx Hrest]; constructor; [exact Hx|now apply IH].
  - intros Hall; apply Forall_cons_iff in Hall as [Hx Hrest].
    split; [exact Hx|now apply IH].
Qed.

Lemma text_only_object (members : list (jstring * json)) :
  text_only (JObject members) <->
  Forall (fun member => well_formed (fst member) /\ text_only (snd member))
         members.
Proof.
  induction members as [|[key x] rest IH]; [split; constructor|].
  split.
  - intros [Hkey [Hx Hrest]]; constructor; [now split|now apply IH].
  - intros Hall; apply Forall_cons_iff in Hall as [[Hkey Hx] Hrest].
    split; [exact Hkey|]. split; [exact Hx|now apply IH].
Qed.

Lemma JSON_stringify_array (elements : list json) :
  JSON_stringify (JArray elements) = 91 :: elements_text elements ++ [93].
Proof. reflexivity. Qed.

Lemma elements_text_cons (x y : json) (rest : list json) :
  elements_text (x :: y :: rest) =
  JSON_stringify x ++ 44 :: elements_text (y :: rest).
Proof. reflexivity. Qed.

Lemma members_text_cons (key : jstring) (x : json) (next : jstring * json)
    (rest : list (jstring * json)) :
  members_text ((key, x) :: next :: rest) =
  quote key ++ 58 :: JSON_stringify x ++ 44 :: members_text (next :: rest).
Proof. reflexivity. Qed.

(** The text of a value starts with a character that is neither white
    space nor a closing bracket. *)
Lemma JSON_stringify_head (v : json) :
  text_only v ->
  exists c tail,
    JSON_stringify v = c :: tail /\ is_ws c = false /\ (c =? 93) = false.
Proof.
  destruct v as [|[|]|literal|s|elements|members]; intros Htext;
    cbn [text_only] in Htext; try contradiction;
    now eexists; eexists; repeat split.
Qed.

(** The elements [JSON_stringify] writes read back, in order, after
    the elements read before them. *)
Lemma parse_elements_text (elements : list json) :
  elements <> [] ->
  Forall (fun x =>
            text_only x ->
            exists fuel0, forall fuel rest,
              (fuel0 <= fuel)%nat ->
              parse_value fuel (JSON_stringify x ++ rest) = Some (x, rest))
         elements ->
  Forall text_only elements ->
  exists fuel0, forall fuel acc rest,
    (fuel0 <= fuel)%nat ->
    parse_elements fuel (elements_text elements ++ 93 :: rest) acc =
    Some (JArray (acc ++ elements), rest).
Proof.
  induction elements as [|x l IH]; [contradiction|].
  intros _ Hparse Htext.
  apply Forall_cons_iff in Hparse as [Hx Hparse].
  apply Forall_cons_iff in Htext as [Htx Htext].
  destruct (Hx Htx) as [fx Hfx].
  destruct l as [|y l'].
  - exists (S fx); intros fuel acc rest Hfuel.
    destruct fuel as [|fuel]; [lia|].
    rewrite parse_elements_unfold.
    cbn [elements_text]; rewrite app_nil_r.
    rewrite Hfx by lia.
    cbn [skip_ws].
    change (is_ws 93) with false; cbv iota.
    change (93 =? 44) with false; change (93 =? 93) with true; cbv iota.
    reflexivity.
  - destruct IH as [fl Hfl]; [discriminate|exact Hparse|exact Htext|].
    exists (S (Nat.max fx fl)); intros fuel acc rest Hfuel.
    destruct fuel as [|fuel]; [lia|].
    rewrite parse_elements_unfold, elements_text_cons.
    rewrite <- app_assoc, <- app_comm_cons.
    rewrite Hfx by lia.
    cbn [skip_ws].
    change (is_ws 44) with false; cbv iota.
    change (44 =? 44) with true; cbv iota.
    rewrite Hfl by lia.
    now rewrite <- app_assoc.
Qed.

(** The members [JSON_stringify] writes read back, in order, after
    the members read before them. *)
Lemma parse_members_text_only (members : list (jstring * json)) :
  members <> [] ->
  Forall (fun member =>
            text_only (snd member) ->
            exists fuel0, forall fuel rest,
              (fuel0 <= fuel)%nat ->
              parse_value fuel (JSON_stringify (snd member) ++ rest) =
              Some (snd member, rest))
         members ->
  Forall (fun member => well_formed (fst member) /\ text_only (snd member))
         members ->
  exists fuel0, forall fuel acc rest,
    (fuel0 <= fuel)%nat ->
    parse_members fuel (members_text members ++ 125 :: rest) acc =
    Some (JObject (acc ++ members), rest).
Proof.
  induction members as [|[key x] l IH]; [contradiction|].
  intros _ Hparse Htext.
  apply Forall_cons_iff in Hparse as [Hx Hparse].
  apply Forall_cons_iff in Htext as [[Hkey Htx] Htext].
  cbn [fst snd] in Hx, Hkey, Htx.
  destruct (Hx Htx) as [fx Hfx].
  assert (Hopen : forall fuel acc tail,
            parse_members (S fuel)
              (quote key ++ 58 :: JSON_stringify x ++ tail) acc =
            match parse_value fuel (JSON_stringify x ++ tail) with
            | Some (v, out2) =>
              match skip_ws out2 with
              | e :: out3 =>
                if e =? 44 then parse_members fuel out3 (acc ++ [(key, v)])
                else if e =? 125
                     then Some (JObject (acc ++ [(key, v)]), out3)
                else None
              | [] => None
              end
            | None => None
            end).
  { intros fuel acc tail.
    rewrite parse_members_unfold.
    unfold quote at 1.
    cbn [app]; rewrite <- !app_assoc; cbn [app skip_ws].
    change (is_ws 34) with false; cbv iota.
    change (34 =? 34) with true; cbv iota.
    rewrite parse_string_body_quote by exact Hkey.
    cbn [skip_ws].
    change (is_ws 58) with false; cbv iota.
    change (58 =? 58) with true; cbv iota.
    reflexivity. }
  destruct l as [|next l'].
  - exists (S fx); intros fuel acc rest Hfuel.
    destruct fuel as [|fuel]; [lia|].
    cbn [members_text]; rewrite app_nil_r.
    repeat (rewrite <- app_assoc || rewrite <- app_comm_cons).
    rewrite Hopen, Hfx by lia.
    cbn [skip_ws].
    change (is_ws 125) with false; cbv iota.
    change (125 =? 44) with false; change (125 =? 125) with true; cbv iota.
    reflexivity.
  - destruct IH as [fl Hfl]; [discriminate|exact Hparse|exact Htext|].
    exists (S (Nat.max fx fl)); intros fuel acc rest Hfuel.
    destruct fuel as [|fuel]; [lia|].
    rewrite members_text_cons.
    repeat (rewrite <- app_assoc || rewrite <- app_comm_cons).
    rewrite Hopen, Hfx by lia.
    cbn [skip_ws].
    change (is_ws 44) with false; cbv iota.
    change (44 =? 44) with true; cbv iota.
    rewrite Hfl by lia.
    now rewrite <- app_assoc.
Qed.

(** The text [JSON_stringify] writes for a value without numbers reads
    back as the value, with any fuel from some fuel on. *)
Lemma parse_value_stringify (v : json) :
  text_only v ->
  exists fuel0, forall fuel rest,
    (fuel0 <= fuel)%nat ->
    parse_value fuel (JSON_stringify v ++ rest) = Some (v, rest).
Proof.
  induction v as [|b|literal|s|elements IH|members IH] using json_induction;
    intros Htext.
  - exists 1%nat; intros [|fuel] rest Hfuel; [lia|reflexivity].
  - exists 1%nat; intros [|fuel] rest Hfuel; [lia|now destruct b].
  - destruct Htext.
  - exists 1%nat; intros [|fuel] rest Hfuel; [lia|].
    now apply parse_value_quote.
  - apply text_only_array in Htext.
    destruct elements as [|x l].
    { exists 1%nat; intros [|fuel] rest Hfuel; [lia|reflexivity]. }
    destruct (parse_elements_text (x :: l)) as [fl Hfl];
      [discriminate|exact IH|exact Htext|].
    apply Forall_cons_iff in Htext as [Hx _].
    destruct (JSON_stringify_head x Hx) as [c [tail [Hhead [Hws Hclose]]]].
    exists (S fl); intros [|fuel] rest Hfuel; [lia|].
    rewrite JSON_stringify_array, parse_value_unfold.
    rewrite <- app_comm_cons, <- app_assoc.
    cbn [skip_ws].
    change (is_ws 91) with false; cbv iota.
    change (91 =? 34) with false; change (91 =? 91) with true; cbv iota.
    change ([93] ++ rest) with (93 :: rest).
    set (text := elements_text (x :: l) ++ 93 :: rest).
    assert (Hskip : exists tail', skip_ws text = c :: tail').
    { unfold text; destruct l as [|y l'];
        [cbn [elements_text]|rewrite elements_text_cons];
        rewrite Hhead; repeat (rewrite <- app_assoc || rewrite <- app_comm_cons);
        cbn [skip_ws]; rewrite Hws; eexists; reflexivity. }
    destruct Hskip as [tail' ->].
    rewrite Hclose.
    now apply Hfl; lia.
  - apply text_only_object in Htext.
    destruct members as [|[key x] l].
    { exists 1%nat; intros [|fuel] rest Hfuel; [lia|reflexivity]. }
    destruct (parse_members_text_only ((key, x) :: l)) as [fl Hfl];
      [discriminate|exact IH|exact Htext|].
    exists (S fl); intros [|fuel] rest Hfuel; [lia|].
    rewrite JSON_stringify_object.
    rewrite <- app_comm_cons, <- app_assoc.
    change ([125] ++ rest) with (125 :: rest).
    assert (Hopen : exists tail,
              members_text ((key, x) :: l) ++ 125 :: rest = 34 :: tail).
    { destruct l as [|next l'];
        [cbn [members_text]|rewrite members_text_cons];
        unfold quote at 1;
        repeat (rewrite <- app_assoc || rewrite <- app_comm_cons);
        eexists; reflexivity. }
    destruct Hopen as [tail Htail].
    rewrite Htail, parse_value_object, <- Htail.
    now apply Hfl; lia.
Qed.

(** [JSON.parse(JSON.stringify(v))] is [v] for a value without
    numbers. *)
Lemma JSON_parse_stringify (v : json) :
  text_only v -> JSON_parse (JSON_stringify v) = Ok v.
Proof.
  intros Htext.
  destruct (parse_value_stringify v Htext) as [fuel0 Hparse].
  specialize (Hparse fuel0 [] (Nat.le_refl fuel0)).
  rewrite app_nil_r in Hparse.
  apply JSON_parse_fuel_independent in Hparse.
  unfold JSON_parse; now rewrite Hparse.
Qed.

End JSONRoundTrip.

(* ================================================================== *)
(** * Properties of the profile context *)
(* ================================================================== *)

Section ProfileFacts.

Import JSONTerms ProfileContext ProfileProvider.
Import Fixtures ProfileFixtures ProfileWriteFixtures WalletFixtures.

(** The scan of [getProfileByAddress] stops at the first token of the
    address. *)
Lemma findTokenId_loop_first (contract : ProfileNFTMinterContract)
    (address : jstring) (token : Z) (tokenOwner : jstring) (fuel : nat) :
  pn_ownerOf contract token = Ok tokenOwner ->
  toLowerCase tokenOwner = toLowerCase address ->
  token < 10 ->
  forall i,
    i <= token ->
    (Z.to_nat (token - i) < fuel)%nat ->
    (forall j o, i <= j < token ->
       pn_ownerOf contract j = Ok o ->
       toLowerCase o <> toLowerCase address) ->
    findTokenId_loop contract address fuel i = Some token.
Proof.
  intros Howner Hsame Hbound.
  induction fuel as [|fuel IH]; intros i Hi Hfuel Hforeign; [lia|].
  cbn [findTokenId_loop].
  destruct (Z.ltb_spec i 10) as [_|]; [|lia].
  unfold safeContractCall.
  destruct (Z.eq_dec i token) as [->|Hne].
  - rewrite Howner; cbn [bind].
    now rewrite Hsame, jstring_eqb_refl.
  - assert (Hnext : findTokenId_loop contract address fuel (i + 1) = Some token).
    { apply IH; [lia|lia|].
      intros j o Hj; apply Hforeign; lia. }
    destruct (pn_ownerOf contract i) as [o|e] eqn:Ho; cbn [bind];
      [|exact Hnext].
    rewrite jstring_eqb_neq by (apply (Hforeign i); [lia|exact Ho]).
    exact Hnext.
Qed.

(** X14.  For an address with a balance, [getProfileByAddress] returns
    the profile of the lowest token among 0 to 9 whose owner is the
    address up to the case of the letters, also when the address owns
    several tokens; tokens whose owner cannot be read are passed over.
    The [owner] of the profile returned is the address as it was
    passed, not the owner the contract records. *)
Theorem getProfileByAddress_returns_first_token :
  forall (provider : Provider) (chainId : Z) (address : jstring)
         (contract : ProfileNFTMinterContract) (balance token : Z)
         (tokenOwner user blob recorded : jstring),
    getProfileNFTMinterContract chainId provider = Ok contract ->
    pn_balanceOf contract address = Ok balance ->
    balance <> 0 ->
    0 <= token < 10 ->
    pn_ownerOf contract token = Ok tokenOwner ->
    toLowerCase tokenOwner = toLowerCase address ->
    (forall j o, 0 <= j < token ->
       pn_ownerOf contract j = Ok o ->
       toLowerCase o <> toLowerCase address) ->
    pn_getProfileByTokenId contract token = Ok (user, blob, recorded) ->
    getProfileByAddress (Some provider) chainId address =
    Ok (Some {| tokenId := toString token;
                username := user;
                metadata := parseMetadata blob;
                owner := address |}).
Proof.
  intros provider chainId address contract balance token tokenOwner user blob
         recorded Hcontract Hbalance Hpositive Htoken Howner Hsame Hfirst
         Hprofile.
  unfold getProfileByAddress, safeContractCall.
  rewrite Hcontract; cbn [bind].
  rewrite Hbalance; cbn [bind].
  destruct (Z.eqb_spec balance 0) as [|_]; [contradiction|].
  rewrite (findTokenId_loop_first contract address token tokenOwner 10
             Howner Hsame) by (lia || exact Hfirst).
  rewrite Hprofile; reflexivity.
Qed.

(** The address of bob owns the tokens 0 to 11: the profile is read
    from token 0. *)
Lemma getProfileByAddress_returns_first_token_witness :
  getProfileByAddress (Some thirteen_profiles) 1 bob =
  Ok (Some {| tokenId := js "0";
              username := js "bob";
              metadata := JObject [];
              owner := bob |}).
Proof.
  exact (getProfileByAddress_returns_first_token thirteen_profiles 1 bob
           {| pn_balanceOf := fun address =>
                if jstring_eqb address alice then Ok 1 else Ok 12;
              pn_ownerOf := fun tokenId =>
                if tokenId =? 12 then Ok alice
                else if (0 <=? tokenId) && (tokenId <? 12) then Ok bob
                else Throw (TransportError "execution reverted");
              pn_getProfileByTokenId := fun tokenId =>
                if tokenId =? 12
                then Ok (js "alice", js "{}", alice)
                else Ok (js "bob", js "{}", bob);
              pn_usernameExists := fun _ => Ok true |}
           12 0 bob (js "bob") (js "{}") bob
           eq_refl eq_refl ltac:(discriminate) ltac:(lia) eq_refl eq_refl
           ltac:(intros j o Hj; lia) eq_refl).
Defined.

(** X15.  Profile metadata survives the round trip through the ledger:
    for metadata without numbers (names, texts, links, nested objects
    of them) the text [createProfile] and [updateProfile] store,
    [JSON.stringify] of the metadata, is read back by [parseMetadata]
    as the metadata itself, and not as the placeholder
    [{ name: 'Unknown' }]. *)
Theorem parseMetadata_reads_back_stringified_metadata :
  forall (metadata : json),
    text_only metadata ->
    parseMetadata (JSON_stringify metadata) = metadata.
Proof.
  intros metadata Htext; unfold parseMetadata.
  now rewrite JSON_parse_stringify.
Qed.

(** The profile of Carol, with a backslash in the biography and the
    nested object of links. *)
Lemma parseMetadata_reads_back_stringified_metadata_witness :
  parseMetadata (JSON_stringify (profile_object carol)) = profile_object carol.
Proof.
  apply (parseMetadata_reads_back_stringified_metadata (profile_object carol)).
  cbn; repeat split; well_formed_literal.
Defined.

(** X16.  [createProfile] with a connected wallet asks the provider of
    the component whether the username exists.  When the answer is
    yes it throws the error of the taken username and leaves the state
    as it was, whatever the wallet would do.  In every other case,
    that is also when there is no provider or the question fails, the
    profile is submitted: the call returns [true] and refreshes the
    profile once the transaction is confirmed, and throws what the
    transaction throws otherwise. *)
Theorem createProfile_checks_the_username :
  forall (account : option jstring) (provider : option Provider)
         (signer : Signer) (chainId : Z) (connect : Connect)
         (new_Error : jstring -> JsError) (user : jstring) (metadata : json)
         (st : State) (contract : ProfileNFTMinterContract),
    getProfileNFTMinterContract chainId (signer_provider signer) = Ok contract ->
    let taken :=
      match provider with
      | Some provider =>
        match (registry <- getProfileNFTMinterContract chainId provider ;;
               pn_usernameExists registry user) with
        | Ok answer => answer
        | Throw _ => false
        end
      | None => false
      end in
    createProfile account true provider (Some signer) chainId connect new_Error
      user metadata st =
    if taken
    then (Throw (new_Error (js "Username '" ++ user ++ js "' is already taken")),
          st)
    else
      match (tx <- pnw_createProfile
                     (connect_ProfileNFTMinter connect contract signer)
                     user (JSON_stringify metadata) ;;
             wait tx) with
      | Ok _ => (Ok true, refreshProfile account provider chainId st)
      | Throw e => (Throw e, st)
      end.
Proof.
  intros account provider signer chainId connect new_Error user metadata st
         contract Hcontract taken.
  subst taken; unfold createProfile, checkUsername, safeContractCall.
  rewrite Hcontract; cbn [bind].
  assert (Hsubmit :
    match
      (tx <- pnw_createProfile
               (connect_ProfileNFTMinter connect contract signer)
               user (JSON_stringify metadata) ;;
       receipt <- wait tx ;;
       Ok (true, refreshProfile account provider chainId st))
    with
    | Ok (created, st') => (Ok created, st')
    | Throw error => (Throw error, st)
    end =
    match (tx <- pnw_createProfile
                   (connect_ProfileNFTMinter connect contract signer)
                   user (JSON_stringify metadata) ;;
           wait tx) with
    | Ok _ => (Ok true, refreshProfile account provider chainId st)
    | Throw e => (Throw e, st)
    end).
  { destruct (pnw_createProfile _ user (JSON_stringify metadata)) as [tx|e];
      cbn [bind]; [|reflexivity].
    now destruct (wait tx). }
  destruct provider as [p|]; cbn [bind try_catch]; [|exact Hsubmit].
  destruct (getProfileNFTMinterContract chainId p) as [registry|e];
    cbn [bind try_catch]; [|exact Hsubmit].
  destruct (pn_usernameExists registry user) as [[|]|e];
    cbn [bind try_catch]; [reflexivity|exact Hsubmit|exact Hsubmit].
Qed.

(** A username that exists is refused; when the question whether it
    exists fails, the profile is created. *)
Lemma createProfile_checks_the_username_witness :
  createProfile (Some bob) true (Some (registry (Ok true)))
    (Some (signer_of (registry (Ok true)))) 1 signing plain_Error
    (js "carol") (profile_object carol) profile_initial =
  (Throw (plain_Error (js "Username 'carol' is already taken")),
   profile_initial) /\
  createProfile (Some bob) true (Some (registry unreachable))
    (Some (signer_of (registry unreachable))) 1 signing plain_Error
    (js "carol") (profile_object carol) profile_initial =
  (Ok true, {| profile := None; loading := false; error := None |}).
Proof.
  split.
  - exact (createProfile_checks_the_username (Some bob)
             (Some (registry (Ok true))) (signer_of (registry (Ok true))) 1
             signing plain_Error (js "carol") (profile_object carol)
             profile_initial
             {| pn_balanceOf := fun _ => Ok 0;
                pn_ownerOf := fun _ =>
                  Throw (TransportError "execution reverted");
                pn_getProfileByTokenId := fun _ =>
                  Throw (TransportError "execution reverted");
                pn_usernameExists := fun _ => Ok true |}
             eq_refl).
  - exact (createProfile_checks_the_username (Some bob)
             (Some (registry unreachable)) (signer_of (registry unreachable)) 1
             signing plain_Error (js "carol") (profile_object carol)
             profile_initial
             {| pn_balanceOf := fun _ => Ok 0;
                pn_ownerOf := fun _ =>
                  Throw (TransportError "execution reverted");
                pn_getProfileByTokenId := fun _ =>
                  Throw (TransportError "execution reverted");
                pn_usernameExists := fun _ => unreachable |}
             eq_refl).
Defined.

(** X17.  [refreshProfile] never reports a failure.  With a provider
    and an account it ends with [loading] false, [error] null and the
    profile [getProfileByAddress] returns, and that profile is [null]
    whenever the ledger cannot be read: when the contract cannot be
    built, when the read of the balance fails, when no owner can be
    read and when no profile can be read.  Without an account it
    clears the profile and leaves the error as it was. *)
Theorem refreshProfile_never_reports_failure :
  forall (provider : Provider) (chainId : Z) (c : code_unit)
         (address : jstring) (st : State),
    (exists userProfile,
       getProfileByAddress (Some provider) chainId (c :: address)
       = Ok userProfile /\
       refreshProfile (Some (c :: address)) (Some provider) chainId st =
       {| profile := userProfile; loading := false; error := None |} /\
       (forall e,
          getProfileNFTMinterContract chainId provider = Throw e ->
          userProfile = None) /\
       (forall contract e,
          getProfileNFTMinterContract chainId provider = Ok contract ->
          pn_balanceOf contract (c :: address) = Throw e ->
          userProfile = None) /\
       (forall contract,
          getProfileNFTMinterContract chainId provider = Ok contract ->
          (forall token, exists e, pn_ownerOf contract token = Throw e) ->
          userProfile = None) /\
       (forall contract,
          getProfileNFTMinterContract chainId provider = Ok contract ->
          (forall token,
             exists e, pn_getProfileByTokenId contract token = Throw e) ->
          userProfile = None)) /\
    refreshProfile None (Some provider) chainId st =
    {| profile := None; loading := false; error := error st |} /\
    refreshProfile (Some []) (Some provider) chainId st =
    {| profile := None; loading := false; error := error st |}.
Proof.
  intros provider chainId c address st.
  split; [|split; reflexivity].
  destruct (getProfileByAddress_never_throws provider chainId (c :: address))
    as [userProfile Hprofile].
  destruct (getProfileByAddress_on_failed_calls provider chainId (c :: address))
    as (Hcontract & Hbalance & Howner & Hread).
  exists userProfile; split; [exact Hprofile|].
  split; [unfold refreshProfile; now rewrite Hprofile|].
  assert (Hnull : getProfileByAddress (Some provider) chainId (c :: address)
                  = Ok None -> userProfile = None).
  { rewrite Hprofile; intros Heq; now injection Heq. }
  repeat split.
  - intros e He; apply Hnull, (Hcontract e He).
  - intros contract e Hc He; apply Hnull, (Hbalance contract e Hc He).
  - intros contract Hc Hall; apply Hnull, (Howner contract Hc Hall).
  - intros contract Hc Hall; apply Hnull, (Hread contract Hc Hall).
Qed.

End ProfileFacts.

(* ================================================================== *)
(** * The events of a user *)
(* ================================================================== *)

Section UserEvents.

Import EventController.

Lemma lower_unit_idempotent (c : code_unit) :
  lower_unit (lower_unit c) = lower_unit c.
Proof.
  unfold lower_unit.
  destruct ((65 <=? c)%N && (c <=? 90)%N) eqn:Hupper; [|now rewrite Hupper].
  apply andb_true_iff in Hupper as [Hlow Hhigh].
  apply N.leb_le in Hlow, Hhigh.
  destruct (N.leb_spec (c + 32) 90) as [Hle|_]; [lia|].
  now rewrite andb_false_r.
Qed.

Lemma toLowerCase_idempotent (s : jstring) :
  toLowerCase (toLowerCase s) = toLowerCase s.
Proof.
  unfold toLowerCase; rewrite map_map.
  apply map_ext; intros c; apply lower_unit_idempotent.
Qed.

(** X18.  [getUserEvents] never throws and compares addresses without
    regard to the case of the letters: it returns the same list for an
    address and for its lower-case form, and the events it returns are
    exactly the events [getAllEvents] lists, on the same ledger, whose
    organizer is the address up to the case. *)
Theorem getUserEvents_ignores_letter_case :
  forall (provider : Provider) (chainId : Z) (userAddress : jstring)
         (maxEvents : Z),
    getUserEvents provider chainId (toLowerCase userAddress) maxEvents =
    getUserEvents provider chainId userAddress maxEvents /\
    exists userEvents allEvents,
      getUserEvents provider chainId userAddress maxEvents = Ok userEvents /\
      getAllEvents provider chainId maxEvents = Ok allEvents /\
      forall event,
        In event userEvents <->
        In event allEvents /\
        toLowerCase (organizer event) = toLowerCase userAddress.
Proof.
  intros provider chainId userAddress maxEvents.
  unfold getUserEvents.
  rewrite toLowerCase_idempotent.
  split; [reflexivity|].
  destruct (getAllEvents_returns provider chainId maxEvents)
    as [allEvents Hall].
  rewrite Hall; cbn [bind try_catch].
  eexists; exists allEvents; split; [reflexivity|]. split; [reflexivity|].
  intros event; rewrite filter_In.
  now rewrite jstring_eqb_eq.
Qed.

End UserEvents.

(* ================================================================== *)
(** * What the readers make of a failure *)
(* ================================================================== *)

Section ReadFailures.

Import EventController PostMinter TribeController ProfileContext.
Import Fixtures PostFixtures ProfileFixtures.

(** What the event readers return when the contract cannot be built. *)
Lemma event_readers_without_contract (provider : Provider) (chainId : Z)
    (e : JsError) :
  getEventControllerContract provider chainId = Throw e ->
  forall maxEvents eventId user address,
    getAllEvents provider chainId maxEvents = Ok [] /\
    getEvent provider chainId eventId = Ok None /\
    eventExists provider chainId eventId = Ok false /\
    getTicketBalance provider chainId address eventId = Ok 0 /\
    getUserEvents provider chainId user maxEvents = Ok [].
Proof.
  intros Hcontract maxEvents eventId user address.
  unfold getUserEvents, eventExists, getAllEvents, getEvent, getTicketBalance.
  rewrite Hcontract; cbn [bind try_catch filter].
  repeat split.
Qed.

(** What [getEvent], [eventExists] and [getTicketBalance] return when
    their read fails. *)
Lemma event_readers_on_failed_call (provider : Provider) (chainId : Z)
    (contract : EventControllerContract) :
  getEventControllerContract provider chainId = Ok contract ->
  (forall eventId e,
     ec_events contract eventId = Throw e ->
     getEvent provider chainId eventId = Ok None /\
     eventExists provider chainId eventId = Ok false) /\
  (forall address eventId e,
     ec_balanceOf contract address eventId = Throw e ->
     getTicketBalance provider chainId address eventId = Ok 0).
Proof.
  intros Hcontract; split.
  - intros eventId e Hcall.
    assert (Hone : getEvent provider chainId eventId = Ok None).
    { unfold getEvent, safeContractCall; rewrite Hcontract; cbn [bind].
      now rewrite Hcall. }
    split; [exact Hone|].
    unfold eventExists; now rewrite Hone.
  - intros address eventId e Hcall.
    unfold getTicketBalance, safeContractCall; rewrite Hcontract; cbn [bind].
    now rewrite Hcall.
Qed.

(** C8, as the code has it.  The readers of the event layer,
    [getTribeDetails], [getProfileByAddress] and [checkUsername] never
    propagate an error, and what they return on a failure is fixed:
    when the contract cannot be built or a read fails, [getAllEvents]
    and [getUserEvents] give the empty list, [getEvent],
    [getTribeDetails] and [getProfileByAddress] give [null],
    [eventExists] and [checkUsername] give [false] and
    [getTicketBalance] gives 0.  The readers of postMinter and
    tribeController propagate: [getAllTribes] re-throws the failure to
    read the tribe counter and, once the counter is read, returns the
    tribes whose details could be read, leaving out the others;
    [getPost], [getPostsByTribe] and [isMemberOfTribe] re-throw the
    failure of their call. *)
Theorem read_functions_fail_soft_or_rethrow :
  forall (provider : Provider) (chainId : Z),
    (* the fail-soft readers never throw *)
    ((forall maxEvents,
        exists events, getAllEvents provider chainId maxEvents = Ok events) /\
     (forall eventId,
        exists event, getEvent provider chainId eventId = Ok event) /\
     (forall eventId,
        exists b, eventExists provider chainId eventId = Ok b) /\
     (forall address eventId,
        exists n, getTicketBalance provider chainId address eventId = Ok n) /\
     (forall user maxEvents,
        exists events,
          getUserEvents provider chainId user maxEvents = Ok events) /\
     (forall tribeId,
        exists tribe, getTribeDetails provider chainId tribeId = Ok tribe) /\
     (forall address,
        exists profile,
          getProfileByAddress (Some provider) chainId address = Ok profile) /\
     (forall username,
        exists b, checkUsername (Some provider) chainId username = Ok b)) /\
    (* the event readers on a failure *)
    ((forall e,
        getEventControllerContract provider chainId = Throw e ->
        forall maxEvents eventId user address,
          getAllEvents provider chainId maxEvents = Ok [] /\
          getEvent provider chainId eventId = Ok None /\
          eventExists provider chainId eventId = Ok false /\
          getTicketBalance provider chainId address eventId = Ok 0 /\
          getUserEvents provider chainId user maxEvents = Ok []) /\
     (forall contract,
        getEventControllerContract provider chainId = Ok contract ->
        (forall eventId e,
           ec_events contract eventId = Throw e ->
           getEvent provider chainId eventId = Ok None /\
           eventExists provider chainId eventId = Ok false) /\
        (forall address eventId e,
           ec_balanceOf contract address eventId = Throw e ->
           getTicketBalance provider chainId address eventId = Ok 0)) /\
     (forall contract,
        getEventControllerContract provider chainId = Ok contract ->
        (forall id, exists e, ec_events contract id = Throw e) ->
        (forall address id,
           exists e, ec_balanceOf contract address id = Throw e) ->
        forall maxEvents eventId user address,
          getAllEvents provider chainId maxEvents = Ok [] /\
          getEvent provider chainId eventId = Ok None /\
          eventExists provider chainId eventId = Ok false /\
          getTicketBalance provider chainId address eventId = Ok 0 /\
          getUserEvents provider chainId user maxEvents = Ok [])) /\
    (* getTribeDetails, getProfileByAddress and checkUsername on a
       failure *)
    ((forall tribeId,
        getTribeDetails provider chainId tribeId = Ok None <->
        (exists e, getTribeControllerContract provider chainId = Throw e) \/
        (exists contract e,
           getTribeControllerContract provider chainId = Ok contract /\
           tc_getTribeDetails contract tribeId = Throw e)) /\
     (forall address,
        (forall e,
           getProfileNFTMinterContract chainId provider = Throw e ->
           getProfileByAddress (Some provider) chainId address = Ok None) /\
        (forall contract e,
           getProfileNFTMinterContract chainId provider = Ok contract ->
           pn_balanceOf contract address = Throw e ->
           getProfileByAddress (Some provider) chainId address = Ok None) /\
        (forall contract,
           getProfileNFTMinterContract chainId provider = Ok contract ->
           (forall token, exists e, pn_ownerOf contract token = Throw e) ->
           getProfileByAddress (Some provider) chainId address = Ok None) /\
        (forall contract,
           getProfileNFTMinterContract chainId provider = Ok contract ->
           (forall token,
              exists e, pn_getProfileByTokenId contract token = Throw e) ->
           getProfileByAddress (Some provider) chainId address = Ok None)) /\
     (forall username,
        (forall e,
           getProfileNFTMinterContract chainId provider = Throw e ->
           checkUsername (Some provider) chainId username = Ok false) /\
        (forall contract e,
           getProfileNFTMinterContract chainId provider = Ok contract ->
           pn_usernameExists contract username = Throw e ->
           checkUsername (Some provider) chainId username = Ok false))) /\
    (* the readers that re-throw *)
    ((forall e,
        getNextTribeId provider chainId = Throw e ->
        getAllTribes provider chainId = Throw e) /\
     (forall contract e,
        getTribeControllerContract provider chainId = Ok contract ->
        tc_nextTribeId contract = Throw e ->
        getAllTribes provider chainId = Throw e) /\
     (forall nextTribeId,
        getNextTribeId provider chainId = Ok nextTribeId ->
        getAllTribes provider chainId =
        Ok (flat_map
              (fun j =>
                 match getTribeDetails provider chainId
                         (toString (Z.of_nat j)) with
                 | Ok (Some tribe) => [tribe]
                 | _ => []
                 end)
              (seq 0 (Z.to_nat nextTribeId)))) /\
     (forall now postId contract e,
        getPostMinterContract provider chainId = Ok contract ->
        pm_getPost contract postId = Throw e ->
        getPost now provider chainId postId = Throw e) /\
     (forall tribeId offset limit contract e,
        getPostMinterContract provider chainId = Ok contract ->
        pm_getPostsByTribe contract tribeId offset limit = Throw e ->
        getPostsByTribe provider chainId tribeId offset limit = Throw e) /\
     (forall tribeId address contract e,
        getTribeControllerContract provider chainId = Ok contract ->
        tc_isMember contract tribeId address = Throw e ->
        isMemberOfTribe provider chainId tribeId address = Throw e)).
Proof.
  intros provider chainId.
  split; [|split; [|split]].
  - split; [apply getAllEvents_never_throws|].
    split; [apply getEvent_never_throws|].
    split; [apply eventExists_never_throws|].
    split; [apply getTicketBalance_never_throws|].
    split; [apply getUserEvents_never_throws|].
    split; [apply getTribeDetails_never_throws|].
    split; [apply getProfileByAddress_never_throws|].
    apply checkUsername_never_throws.
  - split; [apply event_readers_without_contract|].
    split; [apply event_readers_on_failed_call|].
    apply event_readers_on_failed_calls.
  - split; [apply getTribeDetails_null_iff|].
    split; [apply getProfileByAddress_on_failed_calls|].
    apply checkUsername_on_failed_calls.
  - split; [apply getAllTribes_rethrows|].
    split; [intros contract e Hcontract Hcall;
            eapply getAllTribes_rethrows, getNextTribeId_rethrows; eassumption|].
    split.
    { intros nextTribeId Hnext.
      unfold getAllTribes; rewrite Hnext; cbn [bind].
      rewrite getAllTribes_results; cbn [bind try_catch].
      now rewrite keep_tribes_results. }
    split; [intros now postId contract e; apply getPost_rethrows|].
    split; [intros tribeId offset limit contract e;
            apply getPostsByTribe_rethrows|].
    intros tribeId address contract e; apply isMemberOfTribe_rethrows.
Qed.

(** C8 as stated fails on the code: with the network unreachable
    [getAllTribes] and [getPost] reject with the transport error,
    while [getAllEvents] and [getEvent] return the empty list and
    [null]. *)
Lemma getAllTribes_getPost_propagate :
  getAllTribes offline 1 = Throw (TransportError "network unreachable") /\
  getPost day1 offline 1 (js "1") = Throw (TransportError "network unreachable") /\
  getAllEvents offline 1 20 = Ok [] /\
  getEvent offline 1 (js "1") = Ok None.
Proof. repeat split. Qed.

(** With the network unreachable the counter read of [getAllTribes]
    fails and the failure is re-thrown, while the event readers, the
    profile reader and the username check return the empty list,
    [null], [false] and 0. *)
Lemma read_functions_fail_soft_or_rethrow_witness :
  getAllTribes offline 1 = Throw (TransportError "network unreachable") /\
  (getAllEvents offline 1 20 = Ok [] /\
   getEvent offline 1 (js "1") = Ok None /\
   eventExists offline 1 (js "1") = Ok false /\
   getTicketBalance offline 1 alice (js "1") = Ok 0 /\
   getUserEvents offline 1 alice 20 = Ok []) /\
  getTribeDetails offline 1 (js "0") = Ok None /\
  getProfileByAddress (Some offline) 1 alice = Ok None /\
  checkUsername (Some offline) 1 (js "alice") = Ok false.
Proof.
  destruct (read_functions_fail_soft_or_rethrow offline 1)
    as (_ & (Hevents & _) & (Htribe & Hprofile & Hname) & (Hrethrow & _)).
  split; [apply Hrethrow; reflexivity|].
  split; [apply (Hevents (TransportError "network unreachable")); reflexivity|].
  split; [apply Htribe; left; eexists; reflexivity|].
  split.
  - apply (proj1 (Hprofile alice) (TransportError "network unreachable")).
    reflexivity.
  - apply (proj1 (Hname (js "alice")) (TransportError "network unreachable")).
    reflexivity.
Defined.

End ReadFailures.
